(** * acorn-node: GraphQL schema to tool-definition converter

    A shallow embedding of
      - [src/converter/graphql-schema-converter.ts] (the converter, called
        revision [Rev1] below),
      - the later revision of the traversal that is kept next to the tool
        class (called [Rev2]), and
      - [src/tool/api-function.ts] (the tool class [APIFunction]),
    together with the properties the specification states about them.

    Conventions of the embedding.
      - A JavaScript object used as a dictionary is a [gmap string _]; only
        own, string-keyed properties are modelled.
      - A [Set<string>] is a [gset string].
      - Code that may [throw] returns an [Outcome]; the payload of [Throw] is
        the message of the JavaScript [Error].  A [Promise] is modelled by
        the [Outcome] it settles to.
      - The GraphQL type graph may be cyclic, so named types are referred to
        by name and looked up in the schema; object identity of a type is
        equality of its name.
      - Counts are natural numbers and [maxDepth] is an integer; strings are
        sequences of bytes and case is folded on the ASCII letters. *)

From Stdlib Require Import ZArith Ascii String List.
From stdpp Require Import base option list gmap strings fin_maps.

Open Scope string_scope.
Open Scope list_scope.
Open Scope Z_scope.

(* ===================================================================== *)
(** * Outcomes of fallible code *)
(* ===================================================================== *)

(** [Ok] is a normal return, [Throw msg] is [throw new Error(msg)] (or a
    rejected promise).  [OutOfFuel] belongs to the embedding only: it is the
    answer of the fuel-indexed traversal when its fuel is used up, and is
    shown below never to be produced with the fuel the converter supplies. *)
Inductive Outcome (A : Type) : Type :=
| Ok (a : A)
| Throw (message : string)
| OutOfFuel.

Arguments Ok {A} a.
Arguments Throw {A} message.
Arguments OutOfFuel {A}.

#[global] Instance Outcome_ret : MRet Outcome := fun A a => Ok a.

#[global] Instance Outcome_bind : MBind Outcome := fun A B f m =>
  match m with
  | Ok a => f a
  | Throw e => Throw e
  | OutOfFuel => OutOfFuel
  end.

#[global] Instance Outcome_fmap : FMap Outcome := fun A B f m =>
  match m with
  | Ok a => Ok (f a)
  | Throw e => Throw e
  | OutOfFuel => OutOfFuel
  end.

(** [try { body } catch (e) { handler(e) }]. *)
Definition try_catch {A} (body : Outcome A) (handler : string -> Outcome A)
  : Outcome A :=
  match body with
  | Ok a => Ok a
  | Throw e => handler e
  | OutOfFuel => OutOfFuel
  end.

(** [xs.map(f)] for a callback that may throw: the first throw aborts. *)
Fixpoint mapM {A B} (f : A -> Outcome B) (xs : list A) : Outcome (list B) :=
  match xs with
  | [] => Ok []
  | x :: xs' => y ← f x; ys ← mapM f xs'; Ok (y :: ys)
  end.

(* ===================================================================== *)
(** * Strings *)
(* ===================================================================== *)

(** [String.prototype.toLowerCase], on the ASCII range. *)
Definition toLowerAscii (c : ascii) : ascii :=
  let n := nat_of_ascii c in
  if ((65 <=? n)%nat && (n <=? 90)%nat)%bool then ascii_of_nat (n + 32) else c.

Fixpoint toLowerCase (s : string) : string :=
  match s with
  | EmptyString => EmptyString
  | String c s' => String (toLowerAscii c) (toLowerCase s')
  end.

(** [!!s] for a string: the empty string is falsy. *)
Definition truthy (s : string) : bool :=
  match s with EmptyString => false | _ => true end.

(** [s.startsWith(p)] and [s.substring(n)]. *)
Definition startsWith (s p : string) : bool := String.prefix p s.

Fixpoint substringFrom (n : nat) (s : string) : string :=
  match n, s with
  | O, _ => s
  | S n', String _ s' => substringFrom n' s'
  | S _, EmptyString => EmptyString
  end.

(** [s] holds [sub] as a substring. *)
Definition contains (s sub : string) : Prop :=
  ∃ pre post, s = pre +:+ sub +:+ post.

(** The items of a list written one after the other with [", "] between
    them: a comma before every item but the first. *)
Definition commaSeparated (items : list string) : string :=
  String.concat ", " items.

(** The line feed, written ["\n"] in the source. *)
Definition LF : string := String (ascii_of_nat 10) EmptyString.

(** [const combineStrings = (prefix, suffix) =>
      `${prefix}${prefix ? "_" : ""}${suffix}`]. *)
Definition combineStrings (prefix suffix : string) : string :=
  prefix +:+ (if truthy prefix then "_" else "") +:+ suffix.

(* ===================================================================== *)
(** * The GraphQL schema *)
(* ===================================================================== *)

(** A type reference as it occurs in a field, argument or input field. *)
Inductive GraphQLType : Type :=
| GraphQLNamed (name : string)
| GraphQLList (ofType : GraphQLType)
| GraphQLNonNull (ofType : GraphQLType).

(** [String(type)] as used in error messages. *)
Fixpoint typeToString (t : GraphQLType) : string :=
  match t with
  | GraphQLNamed n => n
  | GraphQLList t' => "[" +:+ typeToString t' +:+ "]"
  | GraphQLNonNull t' => typeToString t' +:+ "!"
  end.

(** [GraphQLArgument] and [GraphQLInputField] expose the same members to the
    converter: a name, a type, an optional description and the start offset
    of their AST node. *)
Record GraphQLArgument : Type := {
  arg_name : string;
  arg_type : GraphQLType;
  arg_description : option string;
  arg_loc_start : option nat;
}.

Abbreviation GraphQLInputField := GraphQLArgument (only parsing).

Record GraphQLField : Type := {
  field_name : string;
  field_type : GraphQLType;
  field_args : list GraphQLArgument;
  field_description : option string;
  field_loc_start : option nat;
}.

(** What a type name stands for.  Interface and union types are output types
    too; the converter has no case for them. *)
Inductive GraphQLNamedType : Type :=
| GraphQLScalarType
| GraphQLEnumType (values : list string)
| GraphQLInputObjectType (fields : list GraphQLInputField)
                         (loc_start : option nat)
| GraphQLObjectType (fields : list GraphQLField)
| GraphQLAbstractType.

Record GraphQLSchema : Type := {
  typeMap : gmap string GraphQLNamedType;
  queryTypeName : option string;
  mutationTypeName : option string;
}.

(** [schema.getQueryType()?.getFields() || {}] as the list of its values. *)
Definition rootFields (schema : GraphQLSchema) (root : option string)
  : list GraphQLField :=
  match root with
  | Some n =>
      match typeMap schema !! n with
      | Some (GraphQLObjectType fs) => fs
      | _ => []
      end
  | None => []
  end.

(** The part of a parsed operation document the operation parser reads. *)
Inductive TypeNode : Type :=
| NamedTypeNode (name : string)
| ListTypeNode (type : TypeNode)
| NonNullTypeNode (type : TypeNode).

(** [type.kind]. *)
Definition typeNodeKind (t : TypeNode) : string :=
  match t with
  | NamedTypeNode _ => "NamedType"
  | ListTypeNode _ => "ListType"
  | NonNullTypeNode _ => "NonNullType"
  end.

Record VariableDefinitionNode : Type := {
  variable_name : string;
  variable_type : TypeNode;
  variable_loc_start : option nat;
}.

Inductive OperationTypeNode : Type := QUERY | MUTATION | SUBSCRIPTION.

Record OperationDefinitionNode : Type := {
  operation : OperationTypeNode;
  operation_name : option string;
  variableDefinitions : list VariableDefinitionNode;
  operation_loc : option (nat * nat);
}.

(** A definition of a document: an operation, or something else of which
    only the kind and the location matter. *)
Inductive DefinitionNode : Type :=
| OperationDefinition (node : OperationDefinitionNode)
| OtherDefinition (kind : string) (loc : option (nat * nat)).

Definition definition_loc (d : DefinitionNode) : option (nat * nat) :=
  match d with
  | OperationDefinition node => operation_loc node
  | OtherDefinition _ loc => loc
  end.

(* ===================================================================== *)
(** * Tool definitions *)
(* ===================================================================== *)

(** What the [type] of a descriptor holds at run time: a string, or, when
    the scalar table was indexed by a name that every object inherits from
    [Object.prototype], the inherited member under that name (a function,
    or for [__proto__] the prototype object), which is no string. *)
Inductive TypeValue : Type :=
| TypeString (kind : string)
| PrototypeMember (key : string).

Coercion TypeString : string >-> TypeValue.

(** [FunctionDefinitionArgument]: a JSON-schema-like type descriptor. *)
#[warnings="-register-all"] Inductive FunctionDefinitionArgument : Type :=
| mkArgument (type : TypeValue)
             (description : option string)
             (items : option FunctionDefinitionArgument)
             (enum : option (gset string)).

Definition argument_type (a : FunctionDefinitionArgument) : TypeValue :=
  match a with mkArgument t _ _ _ => t end.
Definition argument_description (a : FunctionDefinitionArgument)
  : option string :=
  match a with mkArgument _ d _ _ => d end.
Definition argument_items (a : FunctionDefinitionArgument)
  : option FunctionDefinitionArgument :=
  match a with mkArgument _ _ i _ => i end.
Definition argument_enum (a : FunctionDefinitionArgument)
  : option (gset string) :=
  match a with mkArgument _ _ _ e => e end.

(** [argDef.description = description]. *)
Definition set_description (a : FunctionDefinitionArgument)
    (d : option string) : FunctionDefinitionArgument :=
  match a with mkArgument t _ i e => mkArgument t d i e end.

(** A plain object used as a dictionary is given by its own keys. *)
Record FunctionDefinitionParameters : Type := {
  params_type : string;
  properties : gmap string FunctionDefinitionArgument;
  required : list string;
}.

(** [obj[key] = value] on a plain object, for a [value] that is an object:
    the key becomes an own key of [obj], except for [__proto__], which
    [Object.prototype] defines as an accessor: that assignment replaces the
    prototype of [obj] and creates no own key. *)
Definition setProperty {T} (obj : gmap string T) (key : string) (value : T)
  : gmap string T :=
  if bool_decide (key = "__proto__") then obj else <[key := value]> obj.

Record FunctionDefinition : Type := {
  name : string;
  description : option string;
  parameters : FunctionDefinitionParameters;
}.

(** The Parameter Schema invariant: every name in [required] is a key of
    [properties]. *)
Definition required_in_properties (p : FunctionDefinitionParameters) : Prop :=
  ∀ n : string, n ∈ required p → is_Some (properties p !! n).

(** The keys that assigning under each of [names] makes own keys. *)
Definition ownKeys (names : list string) : gset string :=
  list_to_set
    (List.filter (λ n, negb (bool_decide (n = "__proto__"))) names).

(** What the code maintains: every name in [required] other than
    [__proto__] is a key of [properties]. *)
Definition required_own_in_properties (p : FunctionDefinitionParameters)
  : Prop :=
  ∀ n : string, n ∈ required p → n ≠ "__proto__" →
                is_Some (properties p !! n).

(** The same, as a check that can be run. *)
Definition required_in_propertiesb (p : FunctionDefinitionParameters) : bool :=
  forallb (λ n, bool_decide (is_Some (properties p !! n))) (required p).

(* ===================================================================== *)
(** * The host: JavaScript and graphql-js services the code calls *)
(* ===================================================================== *)

(** These are library services, not code of the repository; the development
    is parametric in them.
      - [Value]: the values a tool argument may hold ([unknown]).
      - [trim]: [String.prototype.trim].
      - [parseNodeDescription]: the regular-expression search for the comment
        that precedes a node (also [getNodeDescriptionByLocation]).
      - [printFieldType], [printArgumentType]: the declaration text of one
        input field or argument, obtained through graphql-js's [printType].
      - [parse]: the graphql-js document parser; it throws on malformed
        text.
      - [extractOperation]: slicing one operation out of a document.
      - [JSON_parse]: [JSON.parse] restricted to objects; it throws a
        [SyntaxError] on malformed text. *)
Class Host : Type := {
  Value : Type;
  trim : string -> string;
  parseNodeDescription : string -> option nat -> option nat -> option string;
  printFieldType : GraphQLInputField -> string;
  printArgumentType : GraphQLArgument -> string;
  parse : string -> Outcome (list DefinitionNode);
  extractOperation : string -> option (nat * nat) -> string;
  JSON_parse : string -> Outcome (gmap string Value);
}.

Section Definitions.
Context `{host : Host}.

(* --------------------------------------------------------------------- *)
(** ** The executor boundary and the tool *)
(* --------------------------------------------------------------------- *)

Record ValidationResult : Type := {
  isValid : bool;
  errorMessage : option string;
}.

(** [APIQueryExecutor]: [validate(def)], [validate(def, args)] and
    [executeQuery(query, variables)]; the last is asynchronous and its
    promise may be rejected. *)
Record APIQueryExecutor : Type := {
  validate_definition : FunctionDefinition -> ValidationResult;
  validate_arguments :
    FunctionDefinition -> gmap string Value -> ValidationResult;
  executeQuery : string -> gmap string Value -> Outcome string;
  executor_toString : string;
}.

Record APIFunction : Type := {
  function : FunctionDefinition;
  contextKeys : gset string;
  apiQuery : string;
  apiExecutor : APIQueryExecutor;
}.

(** Interpolation of a possibly [undefined] string in a template literal. *)
Definition interpolate (s : option string) : string :=
  match s with Some s => s | None => "undefined" end.

(** The constructor of [APIFunction]. *)
Definition APIFunction_new (func : FunctionDefinition)
    (contextKeys : gset string) (apiQuery : string)
    (apiExecutor : APIQueryExecutor) : Outcome APIFunction :=
  let validationResult := validate_definition apiExecutor func in
  if negb (isValid validationResult) then
    Throw ("Function [" +:+ name func +:+ "] invalid for API ["
           +:+ executor_toString apiExecutor +:+ "]: "
           +:+ interpolate (errorMessage validationResult))
  else
    Ok {| function := func; contextKeys := contextKeys;
          apiQuery := apiQuery; apiExecutor := apiExecutor |}.

(** [StandardAPIFunctionFactory]: the executor (and, in the later revision,
    the context keys) every created tool is bound to. *)
Record APIFunctionFactory : Type := {
  factory_apiExecutor : APIQueryExecutor;
  factory_contextKeys : gset string;
}.

Definition create (factory : APIFunctionFactory)
    (functionDef : FunctionDefinition) (query : string)
  : Outcome APIFunction :=
  APIFunction_new functionDef (factory_contextKeys factory) query
                  (factory_apiExecutor factory).

(* --------------------------------------------------------------------- *)
(** ** The converter object *)
(* --------------------------------------------------------------------- *)

Record GraphQLSchemaConverterConfig : Type := {
  operationFilter : string -> string -> bool;
  maxDepth : Z;
}.

(** [GraphQLSchemaConverterConfig.DEFAULT]. *)
Definition DEFAULT : GraphQLSchemaConverterConfig :=
  {| operationFilter := λ _ _, true; maxDepth := 3 |}.

(** [GraphQLSchemaConverterConfig.ignorePrefix(...prefixes)]. *)
Definition ignorePrefix (prefixes : list string) : string -> string -> bool :=
  let prefixesLower := map (λ p, toLowerCase (trim p)) prefixes in
  λ _operation name_,
    negb (existsb (λ prefixLower,
                     startsWith (toLowerCase (trim name_)) prefixLower)
                  prefixesLower).

(** The two revisions of [visit] differ only in the punctuation around a
    flattened input object. *)
Inductive Revision : Type := Rev1 | Rev2.

(** The fields of the class instance ([this]). *)
Record GraphQLSchemaConverter : Type := {
  revision : Revision;
  schemaString : string;
  schema : GraphQLSchema;
  functionFactory : APIFunctionFactory;
  config : GraphQLSchemaConverterConfig;
}.

(* --------------------------------------------------------------------- *)
(** ** Type mapper *)
(* --------------------------------------------------------------------- *)

Definition defaultScalarType : string := "string".

(** The own entries of the object literal [scalarTypeMap]. *)
Definition scalarTypeMap : gmap string string :=
  list_to_map [("Int", "integer"); ("Float", "number"); ("String", "string");
               ("Boolean", "boolean"); ("ID", "string")].

(** The names every plain object inherits from [Object.prototype].  Each
    holds a function, except [__proto__], which reads as the prototype
    object: all of them are truthy. *)
Definition objectPrototypeKeys : list string :=
  ["constructor"; "__defineGetter__"; "__defineSetter__"; "hasOwnProperty";
   "__lookupGetter__"; "__lookupSetter__"; "isPrototypeOf";
   "propertyIsEnumerable"; "toString"; "valueOf"; "__proto__";
   "toLocaleString"].

(** [this.scalarTypeMap[name] || this.defaultScalarType].  The table is a
    plain object, so indexing it by a name that is not among its entries
    finds what the object inherits, and only a name that is not inherited
    either gives [undefined] and so the default. *)
Definition scalarKind (name : string) : TypeValue :=
  match scalarTypeMap !! name with
  | Some k => TypeString (if truthy k then k else defaultScalarType)
  | None =>
      if bool_decide (name ∈ objectPrototypeKeys) then PrototypeMember name
      else TypeString defaultScalarType
  end.

Record UnwrappedType : Type := {
  unwrapped_type : GraphQLType;
  unwrapped_required : bool;
}.

Definition convertRequired (type : GraphQLType) : UnwrappedType :=
  match type with
  | GraphQLNonNull ofType =>
      {| unwrapped_type := ofType; unwrapped_required := true |}
  | _ => {| unwrapped_type := type; unwrapped_required := false |}
  end.

(** [convertToArgument]: the [instanceof] tests look at what the name of a
    named type stands for in the schema.  The argument of the recursive call,
    [this.convertRequired(type.ofType).type], is written out as the [match]
    it computes, which keeps the recursion structural. *)
Fixpoint convertToArgument (this : GraphQLSchemaConverter)
    (type : GraphQLType) : Outcome FunctionDefinitionArgument :=
  match type with
  | GraphQLNamed n =>
      match typeMap (schema this) !! n with
      | Some GraphQLScalarType =>
          Ok (mkArgument (scalarKind n) None None None)
      | Some (GraphQLEnumType values) =>
          Ok (mkArgument "string" None None (Some (list_to_set values)))
      | _ => Throw ("Unsupported type: " +:+ typeToString type)
      end
  | GraphQLList ofType =>
      items ← convertToArgument this
                match ofType with
                | GraphQLNonNull ofType' => ofType'
                | _ => ofType
                end;
      Ok (mkArgument "array" None (Some items) None)
  | GraphQLNonNull _ => Throw ("Unsupported type: " +:+ typeToString type)
  end.

(** [unwrapType]: strips every list and non-null wrapper; the result is a
    named type, given by its name. *)
Fixpoint unwrapType (type : GraphQLType) : string :=
  match type with
  | GraphQLNamed n => n
  | GraphQLList ofType => unwrapType ofType
  | GraphQLNonNull ofType => unwrapType ofType
  end.

(** [type instanceof GraphQLObjectType], with the fields of the type. *)
Definition asObjectType (this : GraphQLSchemaConverter) (typeName : string)
  : option (list GraphQLField) :=
  match typeMap (schema this) !! typeName with
  | Some (GraphQLObjectType fs) => Some fs
  | _ => None
  end.

(** [type instanceof GraphQLInputObjectType], with fields and AST offset. *)
Definition asInputObjectType (this : GraphQLSchemaConverter)
    (type : GraphQLType) : option (list GraphQLInputField * option nat) :=
  match type with
  | GraphQLNamed n =>
      match typeMap (schema this) !! n with
      | Some (GraphQLInputObjectType fs loc) => Some (fs, loc)
      | _ => None
      end
  | _ => None
  end.

(* --------------------------------------------------------------------- *)
(** ** Traversal context *)
(* --------------------------------------------------------------------- *)

Record VisitContext : Type := {
  operationName : string;
  prefix : string;
  numArgs : nat;
  path : list string;
}.

(** [context.nested(fieldName, type, additionalArgs)]. *)
Definition nested (this : VisitContext) (fieldName : string)
    (type : string) (additionalArgs : nat) : VisitContext :=
  {| operationName := operationName this +:+ "." +:+ fieldName;
     prefix := combineStrings (prefix this) fieldName;
     numArgs := (numArgs this + additionalArgs)%nat;
     path := path this ++ [type] |}.

(* --------------------------------------------------------------------- *)
(** ** Processing one (possibly synthetic) argument *)
(* --------------------------------------------------------------------- *)

Record ProcessedData : Type := {
  pd_argName : string;
  pd_queryHeader : string;
  pd_queryBody : string;
}.

(** [params.required.push(argName)] when the type was non-null, then
    [params.properties[argName] = argDef]. *)
Definition addParameter (params : FunctionDefinitionParameters)
    (required_ : bool) (argName : string) (argDef : FunctionDefinitionArgument)
  : FunctionDefinitionParameters :=
  {| params_type := params_type params;
     properties := setProperty (properties params) argName argDef;
     required := if required_ then required params ++ [argName]
                 else required params |}.

Definition processField (this : GraphQLSchemaConverter)
    (params : FunctionDefinitionParameters) (ctx : VisitContext)
    (numArgs_ : nat) (unwrappedType : UnwrappedType)
    (argName originalName : string) (description_ : option string)
  : Outcome (ProcessedData * FunctionDefinitionParameters) :=
  argDef ← convertToArgument this (unwrapped_type unwrappedType);
  let argDef := set_description argDef description_ in
  let queryBody := if (0 <? numArgs_)%nat then ", " else "" in
  let queryHeader :=
    if (0 <? numArgs ctx + numArgs_)%nat then ", " else "" in
  let params := addParameter params (unwrapped_required unwrappedType)
                             argName argDef in
  let argName := "$" +:+ argName in
  let queryBody := queryBody +:+ originalName +:+ ": " +:+ argName in
  Ok ({| pd_argName := argName; pd_queryHeader := queryHeader;
         pd_queryBody := queryBody |}, params).

(** [node.description?.trim() ?? parseNodeDescription(schemaString,
    node.astNode?.loc?.start, parentStart)]. *)
Definition resolveDescription (this : GraphQLSchemaConverter)
    (node : GraphQLArgument) (parentStart : option nat) : option string :=
  match arg_description node with
  | Some d => Some (trim d)
  | None => parseNodeDescription (schemaString this) (arg_loc_start node)
                                 parentStart
  end.

(* --------------------------------------------------------------------- *)
(** ** The traversal engine *)
(* --------------------------------------------------------------------- *)

(** The local variables of one activation of [visit], together with the
    parameter schema the whole traversal appends to. *)
Record VisitState : Type := {
  st_queryParams : string;
  st_queryBody : string;
  st_numArgs : nat;
  st_params : FunctionDefinitionParameters;
}.

Definition appendBody (st : VisitState) (s : string) : VisitState :=
  {| st_queryParams := st_queryParams st;
     st_queryBody := st_queryBody st +:+ s;
     st_numArgs := st_numArgs st;
     st_params := st_params st |}.

Record VisitResult : Type := {
  success : bool;
  queryParams : string;
  queryBody : string;
}.

(** A [for] loop over an array whose body may throw; the body receives the
    index, the element and the loop-carried state. *)
Fixpoint forOf {S A : Type} (body : nat -> A -> S -> Outcome S) (i : nat)
    (xs : list A) (s : S) : Outcome S :=
  match xs with
  | [] => Ok s
  | x :: xs' => s' ← body i x s; forOf body (Datatypes.S i) xs' s'
  end.

(** The statements that follow a call of [processField] in both loops:
    splice header and body, declare the variable, count it.  [stripComma]
    is the test [isFirstNestedField && queryBody.startsWith(", ")] of the
    later revision. *)
Definition splice (st : VisitState) (stripComma : bool)
    (processed : ProcessedData * FunctionDefinitionParameters)
    (typeString : string) : VisitState :=
  let '(precessedData, params) := processed in
  let body :=
    if stripComma && startsWith (pd_queryBody precessedData) ", "
    then substringFrom 2 (pd_queryBody precessedData)
    else pd_queryBody precessedData in
  {| st_queryParams := st_queryParams st +:+ pd_queryHeader precessedData
                       +:+ pd_argName precessedData +:+ ": " +:+ typeString;
     st_queryBody := st_queryBody st +:+ body;
     st_numArgs := Datatypes.S (st_numArgs st);
     st_params := params |}.

(** Body of the loop over the fields of a flattened input object. *)
Definition visitNestedField (this : GraphQLSchemaConverter)
    (context : VisitContext) (inputTypeStart : option nat)
    (j : nat) (nestedField : GraphQLInputField) (st : VisitState)
  : Outcome VisitState :=
  let unwrappedType := convertRequired (arg_type nestedField) in
  processed ← processField this (st_params st) context (st_numArgs st)
      unwrappedType
      (combineStrings (prefix context) (arg_name nestedField))
      (arg_name nestedField)
      (resolveDescription this nestedField inputTypeStart);
  let stripComma :=
    match revision this with
    | Rev1 => false
    | Rev2 => (j =? 0)%nat
    end in
  Ok (splice st stripComma processed (printFieldType nestedField)).

(** Body of the loop over [field.args]. *)
Definition visitArgument (this : GraphQLSchemaConverter)
    (field : GraphQLField) (context : VisitContext)
    (i : nat) (arg : GraphQLArgument) (st : VisitState)
  : Outcome VisitState :=
  let unwrappedType := convertRequired (arg_type arg) in
  match asInputObjectType this (unwrapped_type unwrappedType) with
  | Some (nestedFields, inputTypeStart) =>
      let separator :=
        match revision this with
        | Rev1 => ""
        | Rev2 => if (i =? 0)%nat then "" else ", "
        end in
      let st := appendBody st (separator +:+ arg_name arg +:+ ": { ") in
      st ← forOf (visitNestedField this context inputTypeStart) 0
                 nestedFields st;
      Ok (appendBody st " }")
  | None =>
      processed ← processField this (st_params st) context (st_numArgs st)
          unwrappedType
          (combineStrings (prefix context) (arg_name arg))
          (arg_name arg)
          (resolveDescription this arg (field_loc_start field));
      Ok (splice st false processed (printArgumentType arg))
  end.

(** From [queryBody += field.name] to the end of the block
    [if (field.args.length > 0) { ... }]. *)
Definition visitArguments (this : GraphQLSchemaConverter)
    (field : GraphQLField) (context : VisitContext)
    (params : FunctionDefinitionParameters) : Outcome VisitState :=
  let st := {| st_queryParams := ""; st_queryBody := field_name field;
               st_numArgs := 0; st_params := params |} in
  if (0 <? length (field_args field))%nat then
    st ← forOf (visitArgument this field context) 0 (field_args field)
               (appendBody st "(");
    Ok (appendBody st ")")
  else Ok st.

(** The variable declaration [visit] emits for one processed argument, and
    the declarations of a field's arguments in the order they are
    processed: those of the fields of a flattened input object, or that of
    the argument itself. *)
Definition declaration (context : VisitContext) (typeString : string)
    (node : GraphQLArgument) : string :=
  "$" +:+ combineStrings (prefix context) (arg_name node) +:+ ": "
  +:+ typeString.

Definition declarations (this : GraphQLSchemaConverter)
    (context : VisitContext) (field : GraphQLField) : list string :=
  flat_map
    (λ arg,
       match asInputObjectType this
               (unwrapped_type (convertRequired (arg_type arg))) with
       | Some (nestedFields, _) =>
           map (λ f, declaration context (printFieldType f) f) nestedFields
       | None => [declaration context (printArgumentType arg) arg]
       end)
    (field_args field).

(** The items appended to a list that holds [n] items already: each goes
    after a comma unless nothing precedes it. *)
Fixpoint appendDeclared (n : nat) (items : list string) : string :=
  match items with
  | [] => ""
  | x :: xs =>
      (if (0 <? n)%nat then ", " else "") +:+ x
      +:+ appendDeclared (Datatypes.S n) xs
  end.

(** The cycle and depth guard at the head of [visit]: the unwrapped return
    type is an object type and either it is on the path already or the
    path, extended by one, would exceed [maxDepth]. *)
Definition guardCuts (this : GraphQLSchemaConverter) (field : GraphQLField)
    (context : VisitContext) : bool :=
  let type := unwrapType (field_type field) in
  match asObjectType this type with
  | Some _ =>
      if bool_decide (type ∈ path context) then true
      else Z.of_nat (length (path context)) + 1 >? maxDepth (config this)
  | None => false
  end.

(** Loop state of the object expansion: the activation's state and
    [atLeastOneField]. *)
Definition visitChild
    (recur : GraphQLField -> FunctionDefinitionParameters -> VisitContext ->
             Outcome (VisitResult * FunctionDefinitionParameters))
    (context : VisitContext) (objectType : string) (numArgs_ : nat)
    (_ : nat) (nestedField : GraphQLField) (acc : VisitState * bool)
  : Outcome (VisitState * bool) :=
  let '(st, atLeastOneField) := acc in
  '(res, params) ← recur nestedField (st_params st)
      (nested context (field_name nestedField) objectType numArgs_);
  Ok ({| st_queryParams := st_queryParams st +:+ queryParams res;
         st_queryBody := st_queryBody st +:+ queryBody res;
         st_numArgs := st_numArgs st;
         st_params := params |},
      atLeastOneField || success res).

(** [visit(field, params, context)].  The recursion follows the type graph
    of the schema, which may be cyclic, so the definition is indexed by
    fuel: one unit per nested activation. *)
Fixpoint visit (fuel : nat) (this : GraphQLSchemaConverter)
    (field : GraphQLField) (params : FunctionDefinitionParameters)
    (context : VisitContext)
  : Outcome (VisitResult * FunctionDefinitionParameters) :=
  match fuel with
  | O => OutOfFuel
  | Datatypes.S fuel' =>
      let type := unwrapType (field_type field) in
      if guardCuts this field context then
        Ok ({| success := false; queryParams := ""; queryBody := "" |},
            params)
      else
        st ← visitArguments this field context params;
        st ← match asObjectType this type with
             | Some fields =>
                 '(st', atLeastOneField) ←
                   forOf (visitChild (visit fuel' this) context type
                                     (st_numArgs st))
                         0 fields (appendBody st (" {" +:+ LF), false);
                 if negb atLeastOneField then
                   Throw ("Expected at least one field on path: "
                          +:+ operationName context)
                 else Ok (appendBody st' "}")
             | None => Ok st
             end;
        Ok ({| success := true;
               queryParams := st_queryParams st;
               queryBody := st_queryBody st +:+ LF |},
            st_params st)
  end.

(* --------------------------------------------------------------------- *)
(** ** Schema conversion *)
(* --------------------------------------------------------------------- *)

Definition initializeFunctionDefinition (name_ : string)
    (description_ : option string) : FunctionDefinition :=
  {| name := name_; description := description_;
     parameters := {| params_type := "object"; properties := ∅;
                      required := [] |} |}.

(** Fuel handed to the top-level call of [visit]; [visit_fuel_suffices]
    shows that it is never used up. *)
Definition visitFuel (this : GraphQLSchemaConverter) : nat :=
  Datatypes.S (Z.to_nat (maxDepth (config this))).

Definition convertToApiFunction (this : GraphQLSchemaConverter)
    (operationType : string) (field : GraphQLField) : Outcome APIFunction :=
  let functionDef :=
    initializeFunctionDefinition (field_name field)
                                 (trim <$> field_description field) in
  let params := parameters functionDef in
  let operationName_ :=
    toLowerCase operationType +:+ "." +:+ field_name field in
  let queryHeader :=
    toLowerCase operationType +:+ " " +:+ field_name field +:+ "(" in
  '(res, params) ← visit (visitFuel this) this field params
      {| operationName := operationName_; prefix := ""; numArgs := 0;
         path := [] |};
  (* [params] is the object inside [functionDef] that [visit] appended to *)
  let functionDef := {| name := name functionDef;
                        description := description functionDef;
                        parameters := params |} in
  let query := queryHeader +:+ queryParams res +:+ ") {" +:+ LF
               +:+ queryBody res +:+ LF +:+ "}" in
  create (functionFactory this) functionDef query.

(** One line written by [console.error]: the text, and the message of the
    error that is printed after it.  Only this stream of the console is
    modelled; the informational lines of [visit] are not. *)
Definition ErrorLine : Type := string * string.

(** The callback given to [map]: the [try] block covers the filter and the
    conversion; whatever is thrown is logged and [null] is returned.  The
    result is paired with the lines the call writes to [console.error]. *)
Definition createApiFunctionFromGraphQLOperation
    (this : GraphQLSchemaConverter) (operationName_ : string)
    (field : GraphQLField) : Outcome (option APIFunction * list ErrorLine) :=
  try_catch
    (if operationFilter (config this) operationName_ (field_name field) then
       f ← convertToApiFunction this operationName_ field; Ok (Some f, [])
     else Ok (None, []))
    (λ e, Ok (None, [("Error converting query: " +:+ field_name field, e)])).

(** [array.filter(Boolean) as APIFunction[]]: drops the [null]s. *)
Definition filterBoolean {A} (xs : list (option A)) : list A := omap id xs.

(** [convertSchema], with the lines written to [console.error] on the
    way. *)
Definition convertSchema (this : GraphQLSchemaConverter)
  : Outcome (list APIFunction * list ErrorLine) :=
  let queries := rootFields (schema this) (queryTypeName (schema this)) in
  let mutations :=
    rootFields (schema this) (mutationTypeName (schema this)) in
  functionsFromQueries ←
    mapM (createApiFunctionFromGraphQLOperation this "query") queries;
  functionsFromMutations ←
    mapM (createApiFunctionFromGraphQLOperation this "mutation") mutations;
  Ok (filterBoolean (fst <$> functionsFromQueries)
      ++ filterBoolean (fst <$> functionsFromMutations),
      concat (snd <$> functionsFromQueries)
      ++ concat (snd <$> functionsFromMutations)).

(** The outcome of one operation in the words of the specification: the
    tool when the filter accepts the field and its conversion returns one,
    nothing when the field is rejected or its conversion fails. *)
Definition converted (this : GraphQLSchemaConverter) (kind : string)
    (field : GraphQLField) : option APIFunction :=
  match operationFilter (config this) kind (field_name field),
        convertToApiFunction this kind field with
  | true, Ok f => Some f
  | _, _ => None
  end.

(** The line logged for one operation: one for an accepted field whose
    conversion throws, none otherwise. *)
Definition logged (this : GraphQLSchemaConverter) (kind : string)
    (field : GraphQLField) : list ErrorLine :=
  match operationFilter (config this) kind (field_name field),
        convertToApiFunction this kind field with
  | true, Throw e => [("Error converting query: " +:+ field_name field, e)]
  | _, _ => []
  end.

(** The operations that convert, in field order. *)
Fixpoint successfullyConverted (this : GraphQLSchemaConverter)
    (kind : string) (fields : list GraphQLField) : list APIFunction :=
  match fields with
  | [] => []
  | field :: fields' =>
      match converted this kind field with
      | Some f => f :: successfullyConverted this kind fields'
      | None => successfullyConverted this kind fields'
      end
  end.

(* --------------------------------------------------------------------- *)
(** ** Operation parser *)
(* --------------------------------------------------------------------- *)

Fixpoint convertType (type : TypeNode) : Outcome FunctionDefinitionArgument :=
  match type with
  | ListTypeNode type' =>
      items ← convertType type';
      Ok (mkArgument "array" None (Some items) None)
  | NamedTypeNode n => Ok (mkArgument (scalarKind n) None None None)
  | NonNullTypeNode _ => Throw ("Unexpected type: " +:+ typeNodeKind type)
  end.

(** Body of [node.variableDefinitions?.forEach]. *)
Definition convertVariableDefinition (operationDefinition : string)
    (node : OperationDefinitionNode) (_ : nat)
    (varDef : VariableDefinitionNode) (params : FunctionDefinitionParameters)
  : Outcome FunctionDefinitionParameters :=
  let description_ :=
    parseNodeDescription operationDefinition (variable_loc_start varDef)
                         (fst <$> operation_loc node) in
  let argumentName := variable_name varDef in
  let type := variable_type varDef in
  let required_ :=
    match type with NonNullTypeNode _ => true | _ => false end in
  let type := match type with NonNullTypeNode t => t | _ => type end in
  argumentDef ← convertType type;
  let argumentDef := set_description argumentDef description_ in
  Ok (addParameter params required_ argumentName argumentDef).

Definition convertOperationDefinition (node : OperationDefinitionNode)
    (operationDefinition : string) (prevNodeLocationEnd : option nat)
  : Outcome FunctionDefinition :=
  let prevNodeLocationEnd := default 0%nat prevNodeLocationEnd in
  match operation node with
  | SUBSCRIPTION =>
      Throw ("Do not support subscriptions: "
             +:+ match operation_name node with
                 | Some _ => "[object Object]"
                 | None => "undefined"
                 end)
  | _ =>
      let functionComment :=
        parseNodeDescription operationDefinition
          (fst <$> operation_loc node) (Some prevNodeLocationEnd) in
      let functionName :=
        match operation_name node with Some n => n | None => "" end in
      params ← forOf (convertVariableDefinition operationDefinition node) 0
                     (variableDefinitions node)
                     {| params_type := "object"; properties := ∅;
                        required := [] |};
      Ok {| name := functionName; description := functionComment;
            parameters := params |}
  end.

(** Body of [document.definitions.forEach((definition, idx) => ...)]; the
    loop state is the array [functions]. *)
Definition convertDefinition (this : GraphQLSchemaConverter)
    (operationDefinition : string) (definitions : list DefinitionNode)
    (idx : nat) (definition : DefinitionNode) (functions : list APIFunction)
  : Outcome (list APIFunction) :=
  match definition with
  | OtherDefinition kind _ =>
      Throw ("Expected definition to be an operation, but got: " +:+ kind)
  | OperationDefinition node =>
      let prevEnd :=
        match idx with
        | O => None
        | Datatypes.S idx' =>
            d ← definitions !! idx'; snd <$> definition_loc d
        end in
      funcDef ← convertOperationDefinition node operationDefinition prevEnd;
      let queryString :=
        extractOperation operationDefinition (operation_loc node) in
      f ← create (functionFactory this) funcDef queryString;
      Ok (functions ++ [f])
  end.

Definition convertOperations (this : GraphQLSchemaConverter)
    (operationDefinition : string) : Outcome (list APIFunction) :=
  definitions ← parse operationDefinition;
  if (length definitions =? 0)%nat then
    Throw "Operation definition contains no definitions"
  else
    forOf (convertDefinition this operationDefinition definitions) 0
          definitions [].

(* --------------------------------------------------------------------- *)
(** ** The tool: model-facing definition, validation, execution *)
(* --------------------------------------------------------------------- *)

Definition createInvalidCallMessage (functionName : string)
    (errorMessage_ : option string) : string :=
  "It looks like you tried to call function `" +:+ functionName +:+ "`, "
  +:+ "but this has failed with the following error: "
  +:+ interpolate errorMessage_ +:+ ". "
  +:+ "Please retry to call the function again. "
  +:+ "Send ONLY the JSON as a response.".

Definition getName (this : APIFunction) : string := name (function this).

(** [getFieldFilter(fieldList)]: membership is tested on lower-cased
    names. *)
Definition getFieldFilter (fieldList : gset string) : string -> bool :=
  let contextFilter : gset string := set_map toLowerCase fieldList in
  λ field, negb (bool_decide (toLowerCase field ∈ contextFilter)).

(** A name matches a context key when the two are equal up to case. *)
Definition matchesContextKey (keys : gset string) (n : string) : Prop :=
  ∃ k, k ∈ keys ∧ toLowerCase k = toLowerCase n.

(** [filterObjectKeys(filter, data)]: the kept keys are copied one by one
    into a fresh object. *)
Definition filterObjectKeys {T} (filter_ : string -> bool)
    (data : gmap string T) : gmap string T :=
  let filteredKeys := List.filter filter_ (map fst (map_to_list data)) in
  foldl (λ acc fieldKey,
           match data !! fieldKey with
           | Some v => <[fieldKey := v]> acc
           | None => acc
           end)
        ∅ filteredKeys.

Definition getModelFunction (this : APIFunction) : FunctionDefinition :=
  let fieldFilter := getFieldFilter (contextKeys this) in
  let newParams :=
    {| params_type := params_type (parameters (function this));
       required :=
         List.filter fieldFilter (required (parameters (function this)));
       properties :=
         filterObjectKeys fieldFilter
                          (properties (parameters (function this))) |} in
  {| name := name (function this);
     description := description (function this);
     parameters := newParams |}.

Definition validate (this : APIFunction) (argumentsNode : gmap string Value)
  : ValidationResult :=
  validate_arguments (apiExecutor this) (getModelFunction this) argumentsNode.

(** Modelled from the spec: the runtime context ([tool/context.ts] is not
    part of the sources at hand).  The specification calls it a runtime
    context map keyed by names that are matched without regard to case. *)
Definition Context : Type := gmap string Value.

(** Modelled from the spec: [new DefaultContext()], a context that supplies
    nothing. *)
Definition DefaultContext : Context := ∅.

(** Modelled from the spec: the value a context supplies for a key, the
    names being compared lower-cased. *)
Definition contextGet (context : Context) (key : string) : option Value :=
  snd <$> List.find (λ kv, bool_decide (toLowerCase (fst kv) = toLowerCase key))
                    (map_to_list context).

(** Modelled from the spec: [addOrOverrideFromContext] of [utils] (not part
    of the sources at hand).  The specification says that at execution time
    the values of the context keys are substituted from the runtime context
    map, overriding or adding to whatever the caller passed. *)
Definition addOrOverrideFromContext (argumentsNode : gmap string Value)
    (contextKeys_ : gset string) (context : Context) : gmap string Value :=
  foldl (λ variables key,
           match contextGet context key with
           | Some v => <[key := v]> variables
           | None => variables
           end)
        argumentsNode (elements contextKeys_).

Definition execute (this : APIFunction) (argumentsNode : gmap string Value)
    (context : Context) : Outcome string :=
  let variables :=
    addOrOverrideFromContext argumentsNode (contextKeys this) context in
  executeQuery (apiExecutor this) (apiQuery this) variables.

Definition validateAndExecute (this : APIFunction)
    (argumentsNode : gmap string Value) (context : Context)
  : Outcome string :=
  let validationResult := validate this argumentsNode in
  if isValid validationResult then execute this argumentsNode context
  else Ok (createInvalidCallMessage (name (function this))
                                    (errorMessage validationResult)).

(** [validateAndExecuteFromString]: inside the [try] block the promise of
    [validateAndExecute] is returned without being awaited, so the [catch]
    clause sees only what [JSON.parse] throws; a rejection of that promise
    is the rejection of the result. *)
Definition validateAndExecuteFromString (this : APIFunction)
    (argsJson : string) (context : Context) : Outcome string :=
  match JSON_parse argsJson with
  | Ok parsedArguments => validateAndExecute this parsedArguments context
  | Throw error =>
      Ok (createInvalidCallMessage (name (function this))
                                   (Some ("Malformed JSON: " +:+ error)))
  | OutOfFuel => OutOfFuel
  end.

Record ToolCall : Type := {
  call_name : string;
  call_arguments : gmap string Value;
}.

(** [new Map(toolDefinitions.map((t) => [t.getName(), t]))]: a later entry
    replaces an earlier one of the same name. *)
Definition toolsMap (toolDefinitions : list APIFunction)
  : gmap string APIFunction :=
  foldl (λ m t, <[getName t := t]> m) ∅ toolDefinitions.

(** [executeTools] on one call (the branch [!Array.isArray(toolsToCall)]). *)
Definition executeTool (toolsToCall : ToolCall)
    (toolDefinitions : list APIFunction) : Outcome string :=
  match toolsMap toolDefinitions !! call_name toolsToCall with
  | Some apiFunction =>
      res ← validateAndExecute apiFunction (call_arguments toolsToCall)
                               DefaultContext;
      Ok (if truthy res then res else "")
  | None => Ok ""
  end.

(** The argument and the result of the overloaded [executeTools]. *)
Inductive ToolCalls : Type :=
| OneCall (call : ToolCall)
| ManyCalls (calls : list ToolCall).

Inductive ToolResults : Type :=
| OneResult (res : string)
| ManyResults (res : list string).

(** [executeTools]: for an array, [Promise.all] over the calls, each made
    through [executeTools] on one call. *)
Definition executeTools (toolsToCall : ToolCalls)
    (toolDefinitions : list APIFunction) : Outcome ToolResults :=
  match toolsToCall with
  | OneCall call =>
      res ← executeTool call toolDefinitions; Ok (OneResult res)
  | ManyCalls calls =>
      res ← mapM (λ toolCall, executeTool toolCall toolDefinitions) calls;
      Ok (ManyResults res)
  end.

(* --------------------------------------------------------------------- *)
(** ** Vocabulary for the further properties *)
(* --------------------------------------------------------------------- *)

(** [s'] is [s] with text appended. *)
Definition textExtends (s s' : string) : Prop := ∃ r, s' = s +:+ r.

(** A parameter schema that has only been appended to: same kind, every
    property key still present, the old [required] list a prefix of the new
    one. *)
Definition parametersExtend (p p' : FunctionDefinitionParameters) : Prop :=
  params_type p' = params_type p
  ∧ (∀ n, is_Some (properties p !! n) → is_Some (properties p' !! n))
  ∧ required p `prefix_of` required p'.

(** The flat parameter names one activation of [visit] registers for the
    arguments of its field, in processing order, and those among them whose
    type is non-null. *)
Definition flatName (context : VisitContext) (node : GraphQLArgument)
  : string :=
  combineStrings (prefix context) (arg_name node).

Definition flattenArguments (this : GraphQLSchemaConverter)
    (args : list GraphQLArgument) : list GraphQLArgument :=
  flat_map
    (λ arg,
       match asInputObjectType this
               (unwrapped_type (convertRequired (arg_type arg))) with
       | Some (nestedFields, _) => nestedFields
       | None => [arg]
       end)
    args.

Definition processedArguments (this : GraphQLSchemaConverter)
    (field : GraphQLField) : list GraphQLArgument :=
  flattenArguments this (field_args field).

Definition parameterNames (this : GraphQLSchemaConverter)
    (context : VisitContext) (field : GraphQLField) : list string :=
  map (flatName context) (processedArguments this field).

Definition requiredNames (this : GraphQLSchemaConverter)
    (context : VisitContext) (field : GraphQLField) : list string :=
  map (flatName context)
      (List.filter (λ node, unwrapped_required (convertRequired (arg_type node)))
                   (processedArguments this field)).

(** The shape of a type descriptor: an array carries its items and no
    enumeration; anything else carries no items, and an enumeration only on
    the string kind. *)
Fixpoint wellFormedArgument (a : FunctionDefinitionArgument) : Prop :=
  match a with
  | mkArgument t _ items enum =>
      match items with
      | Some i => t = "array" ∧ enum = None ∧ wellFormedArgument i
      | None => t ≠ "array" ∧ (is_Some enum → t = "string")
      end
  end.

Definition wellFormedParameters (p : FunctionDefinitionParameters) : Prop :=
  ∀ n a, properties p !! n = Some a → wellFormedArgument a.

(** A variable type of the operation parser holds a non-null wrapper. *)
Fixpoint containsNonNull (t : TypeNode) : bool :=
  match t with
  | NamedTypeNode _ => false
  | ListTypeNode t' => containsNonNull t'
  | NonNullTypeNode _ => true
  end.

(** The variable type with its outermost non-null wrapper removed, as
    [convertOperationDefinition] does before it maps the type. *)
Definition stripNonNull (t : TypeNode) : TypeNode :=
  match t with NonNullTypeNode t' => t' | _ => t end.

(** The name a definition of a document gives its tool. *)
Definition definitionName (d : DefinitionNode) : string :=
  match d with
  | OperationDefinition node =>
      match operation_name node with Some n => n | None => "" end
  | OtherDefinition _ _ => ""
  end.

(** A definition the operation parser converts: a query or a mutation. *)
Definition isExecutableOperation (d : DefinitionNode) : bool :=
  match d with
  | OperationDefinition node =>
      match operation node with SUBSCRIPTION => false | _ => true end
  | OtherDefinition _ _ => false
  end.

(** The contexts reached from [context] by descending through the named
    fields, each through an object type and below a field that declared
    some arguments. *)
Definition descend (context : VisitContext)
    (steps : list (string * string * nat)) : VisitContext :=
  foldl (λ ctx '(fieldName, type, additionalArgs),
           nested ctx fieldName type additionalArgs)
        context steps.

(** The state of an activation has only been appended to. *)
Definition stateGrows (st st' : VisitState) : Prop :=
  textExtends (st_queryParams st) (st_queryParams st')
  ∧ textExtends (st_queryBody st) (st_queryBody st')
  ∧ (st_numArgs st <= st_numArgs st')%nat
  ∧ parametersExtend (st_params st) (st_params st').

(** Each name written after a separator. *)
Fixpoint appendEach (sep : string) (names : list string) : string :=
  match names with
  | [] => ""
  | n :: ns => sep +:+ n +:+ appendEach sep ns
  end.

(** The tool a call is routed to: the last definition of that name. *)
Definition routedTool (toolDefinitions : list APIFunction) (n : string)
  : option APIFunction :=
  last (List.filter (λ t, bool_decide (getName t = n)) toolDefinitions).


(** The text that binds one processed argument in the body, and the text of
    one argument of a field: its binding, or for an input object its name
    and the comma-separated bindings of its fields in braces. *)
Definition bindingText (context : VisitContext) (node : GraphQLArgument)
  : string :=
  arg_name node +:+ ": " +:+ "$" +:+ flatName context node.

Definition argumentText (this : GraphQLSchemaConverter)
    (context : VisitContext) (arg : GraphQLArgument) : string :=
  match asInputObjectType this
          (unwrapped_type (convertRequired (arg_type arg))) with
  | Some (nestedFields, _) =>
      arg_name arg +:+ ": { "
      +:+ commaSeparated (map (bindingText context) nestedFields) +:+ " }"
  | None => bindingText context arg
  end.

Definition beginsWithComma (s : string) : bool :=
  match s with
  | String c _ => Ascii.eqb c ","
  | EmptyString => false
  end.

(** An argument the later revision punctuates as intended: when it is an
    input object, it has a field, and no name of its fields begins with a
    comma (no GraphQL name does). *)
Definition flattensCleanly (this : GraphQLSchemaConverter)
    (arg : GraphQLArgument) : Prop :=
  match asInputObjectType this
          (unwrapped_type (convertRequired (arg_type arg))) with
  | Some (nestedFields, _) =>
      nestedFields ≠ []
      ∧ Forall (λ f, beginsWithComma (arg_name f) = false) nestedFields
  | None => True
  end.
End Definitions.

(* ===================================================================== *)
(** * The text helper of the operation parser *)
(* ===================================================================== *)

(** [extractOperation] as the converter defines it, over a given [trim].  A
    host whose [extractOperation] field is this function at its own [trim]
    runs the converter as written. *)
Module Source.
Section Text.
Variable trim : string -> string.

Definition newline : ascii := ascii_of_nat 10.

(** [s.substring(a, b)]: both indices are clamped to the length of [s], and
    exchanged when the first exceeds the second. *)
Definition substring (s : string) (a b : nat) : string :=
  let a' := Nat.min a (String.length s) in
  let b' := Nat.min b (String.length s) in
  String.substring (Nat.min a' b') (Nat.max a' b' - Nat.min a' b') s.

(** [s.split(sep)] for a separator of one character: one more piece than
    there are separators, so the empty string gives one empty piece. *)
Fixpoint split (sep : ascii) (s : string) : list string :=
  match s with
  | EmptyString => [EmptyString]
  | String c s' =>
      if Ascii.eqb c sep then EmptyString :: split sep s'
      else match split sep s' with
           | piece :: pieces => String c piece :: pieces
           | [] => [String c EmptyString]
           end
  end.

(** [s.indexOf(c)] for one character; [None] stands for [-1]. *)
Fixpoint indexOf (c : ascii) (s : string) : option nat :=
  match s with
  | EmptyString => None
  | String c' s' =>
      if Ascii.eqb c' c then Some 0%nat else S <$> indexOf c s'
  end.

(** The callback of [map] in [extractOperation]: a line is cut at its first
    ["#"], and only a line that was cut is trimmed. *)
Definition stripComment (line : string) : string :=
  match indexOf "#" line with
  | None => line
  | Some commentPosition => trim (substring line 0 commentPosition)
  end.

(** [extractOperation(text, location)].  In [location?.start || 0] and
    [location?.end || text.length] a missing location and an offset of zero
    both give the default. *)
Definition extractOperation (text : string) (location : option (nat * nat))
  : string :=
  let start :=
    match location with
    | Some (start, _) => start
    | None => 0%nat
    end in
  let end_ :=
    match location with
    | Some (_, S e) => S e
    | _ => String.length text
    end in
  let queryString := substring text start end_ in
  let lines :=
    List.filter truthy (map stripComment (split newline queryString)) in
  String.concat LF lines.

End Text.
End Source.

(* ===================================================================== *)
(** * Concrete data for the examples *)
(* ===================================================================== *)

Module Examples.

(** A host for running the definitions: argument values are strings,
    descriptions are left as they are, no comment is ever found, a
    declaration prints as its type, and the only well-formed argument text
    is the empty object. *)
#[local] Instance host : Host := {|
  Value := string;
  trim := λ s, s;
  parseNodeDescription := λ _ _ _, None;
  printFieldType := λ f, typeToString (arg_type f);
  printArgumentType := λ a, typeToString (arg_type a);
  parse := λ _, Ok [];
  extractOperation := λ text _, text;
  JSON_parse := λ s,
    if bool_decide (s = "{}") then Ok ∅
    else Throw "Unexpected token m in JSON at position 1";
|}.

Definition accepting : ValidationResult :=
  {| isValid := true; errorMessage := None |}.

(** An executor that accepts every definition, requires the [required]
    names of the definition it is shown to be present among the arguments,
    and answers a query with its text. *)
Definition echoExecutor : APIQueryExecutor :=
  {| validate_definition := λ _, accepting;
     validate_arguments := λ def args,
       if forallb (λ n, bool_decide (is_Some (args !! n)))
                  (required (parameters def))
       then accepting
       else {| isValid := false;
               errorMessage := Some "missing required argument" |};
     executeQuery := λ query _, Ok query;
     executor_toString := "echo" |}.

(** An executor whose backend is down: every query is rejected. *)
Definition failingExecutor : APIQueryExecutor :=
  {| validate_definition := λ _, accepting;
     validate_arguments := λ _ _, accepting;
     executeQuery := λ _ _, Throw "connection refused";
     executor_toString := "failing" |}.

Definition scalar (n : string) : GraphQLType := GraphQLNamed n.

Definition mkArg (n : string) (t : GraphQLType) : GraphQLArgument :=
  {| arg_name := n; arg_type := t; arg_description := None;
     arg_loc_start := None |}.

Definition mkField (n : string) (t : GraphQLType)
    (args : list GraphQLArgument) : GraphQLField :=
  {| field_name := n; field_type := t; field_args := args;
     field_description := None; field_loc_start := None |}.

Definition builtinScalars : list (string * GraphQLNamedType) :=
  [("Int", GraphQLScalarType); ("Float", GraphQLScalarType);
   ("String", GraphQLScalarType); ("Boolean", GraphQLScalarType);
   ("ID", GraphQLScalarType)].

Definition mkSchema (types : list (string * GraphQLNamedType))
  : GraphQLSchema :=
  {| typeMap := list_to_map (types ++ builtinScalars);
     queryTypeName := Some "Query"; mutationTypeName := None |}.

Definition mkConverter (rev : Revision) (s : GraphQLSchema)
    (depth : Z) (keys : list string) : GraphQLSchemaConverter :=
  {| revision := rev; schemaString := ""; schema := s;
     functionFactory := {| factory_apiExecutor := echoExecutor;
                           factory_contextKeys := list_to_set keys |};
     config := {| operationFilter := operationFilter DEFAULT;
                  maxDepth := depth |} |}.

Definition emptyParams : FunctionDefinitionParameters :=
  {| params_type := "object"; properties := ∅; required := [] |}.

Definition rootContext (opName : string) : VisitContext :=
  {| operationName := opName; prefix := ""; numArgs := 0; path := [] |}.

(** [type Query { parent: Parent }
     type Parent { a(x: Int): Int  b(y: Int): Int }] *)
Definition parentField : GraphQLField := mkField "parent" (scalar "Parent") [].
Definition siblingsSchema : GraphQLSchema :=
  mkSchema
    [("Query", GraphQLObjectType [parentField]);
     ("Parent", GraphQLObjectType
        [mkField "a" (scalar "Int") [mkArg "x" (scalar "Int")];
         mkField "b" (scalar "Int") [mkArg "y" (scalar "Int")]])].

(** [type Query { search(limit: Int, filter: Filter): Int }
     input Filter { x: Int  y: Int }] *)
Definition searchField : GraphQLField :=
  mkField "search" (scalar "Int")
          [mkArg "limit" (scalar "Int"); mkArg "filter" (scalar "Filter")].
Definition searchSchema : GraphQLSchema :=
  mkSchema
    [("Query", GraphQLObjectType [searchField]);
     ("Filter", GraphQLInputObjectType
        [mkArg "x" (scalar "Int"); mkArg "y" (scalar "Int")] None)].

(** [type Query { node: Node }
     type Node { id: ID  next: Node }] *)
Definition nodeField : GraphQLField := mkField "node" (scalar "Node") [].
Definition selfSchema : GraphQLSchema :=
  mkSchema
    [("Query", GraphQLObjectType [nodeField]);
     ("Node", GraphQLObjectType
        [mkField "id" (scalar "ID") []; mkField "next" (scalar "Node") []])].

(** [type Query { a: A  version: String }
     type A { b: B }
     type B { x: Int }] *)
Definition aField : GraphQLField := mkField "a" (scalar "A") [].
Definition versionField : GraphQLField := mkField "version" (scalar "String") [].
Definition deepSchema : GraphQLSchema :=
  mkSchema
    [("Query", GraphQLObjectType [aField; versionField]);
     ("A", GraphQLObjectType [mkField "b" (scalar "B") []]);
     ("B", GraphQLObjectType [mkField "x" (scalar "Int") []])].

Definition xField : GraphQLField := mkField "x" (scalar "Int") [].

(** The context in which [x] is visited below [a] and [b]. *)
Definition xContext : VisitContext :=
  nested (nested (rootContext "query.a") "b" "A" 0) "x" "B" 0.

(** [type Query { internalStats: Int  version: String }], converted with
    the filter that ignores the prefix [internal]. *)
Definition internalField : GraphQLField :=
  mkField "internalStats" (scalar "Int") [].
Definition filteredConverter : GraphQLSchemaConverter :=
  {| revision := Rev1; schemaString := "";
     schema := mkSchema
                 [("Query", GraphQLObjectType [internalField; versionField])];
     functionFactory := {| factory_apiExecutor := echoExecutor;
                           factory_contextKeys := ∅ |};
     config := {| operationFilter := ignorePrefix ["internal"];
                  maxDepth := 3 |} |}.

(** [type Query { orders(customerid: ID!, limit: Int): [Order] }
     type Order { id: ID }] *)
Definition ordersField : GraphQLField :=
  mkField "orders" (GraphQLList (scalar "Order"))
          [mkArg "customerid" (GraphQLNonNull (scalar "ID"));
           mkArg "limit" (scalar "Int")].
Definition ordersSchema : GraphQLSchema :=
  mkSchema
    [("Query", GraphQLObjectType [ordersField]);
     ("Order", GraphQLObjectType [mkField "id" (scalar "ID") []])].

(** The two fragments a call of [visit] returns. *)
Definition fragments
    (o : Outcome (VisitResult * FunctionDefinitionParameters))
  : option (string * string) :=
  match o with
  | Ok (res, _) => Some (queryParams res, queryBody res)
  | _ => None
  end.

Definition ordersConverter : GraphQLSchemaConverter :=
  mkConverter Rev1 ordersSchema 3 ["CustomerId"].

(** The tool [convertSchema] builds for [orders]; the context key is
    written with capitals on purpose. *)
Definition ordersTool : APIFunction :=
  {| function :=
       {| name := "orders"; description := None;
          parameters :=
            {| params_type := "object";
               properties :=
                 list_to_map
                   [("customerid", mkArgument "string" None None None);
                    ("limit", mkArgument "integer" None None None)];
               required := ["customerid"] |} |};
     contextKeys := list_to_set ["CustomerId"];
     apiQuery := "query orders($customerid: ID!, $limit: Int) {" +:+ LF
                 +:+ "orders(customerid: $customerid, limit: $limit) {"
                 +:+ LF +:+ "id" +:+ LF +:+ "}" +:+ LF +:+ LF +:+ "}";
     apiExecutor := echoExecutor |}.

(** The same tool bound to the executor whose backend is down. *)
Definition unreachableTool : APIFunction :=
  {| function := function ordersTool;
     contextKeys := contextKeys ordersTool;
     apiQuery := apiQuery ordersTool;
     apiExecutor := failingExecutor |}.

(** The same tool built without context keys: the model is shown the full
    definition. *)
Definition plainTool : APIFunction :=
  {| function := function ordersTool;
     contextKeys := ∅;
     apiQuery := apiQuery ordersTool;
     apiExecutor := echoExecutor |}.

(** A runtime context that supplies the customer. *)
Definition customerContext : Context := {[ "customerid" := "c-42" ]}.

Definition unknownCall : ToolCall :=
  {| call_name := "refunds"; call_arguments := ∅ |}.

Definition ordersCall : ToolCall :=
  {| call_name := "orders"; call_arguments := ∅ |}.

(** [type Query { a: A }
     type A { _(proto__: Int!): Int }]: below [a], the argument [proto__]
    of the field [_] has the flat name [__proto__]. *)
Definition holderField : GraphQLField := mkField "a" (scalar "A") [].
Definition underscoreField : GraphQLField :=
  mkField "_" (scalar "Int") [mkArg "proto__" (GraphQLNonNull (scalar "Int"))].
Definition protoSchema : GraphQLSchema :=
  mkSchema
    [("Query", GraphQLObjectType [holderField]);
     ("A", GraphQLObjectType [underscoreField])].

(** [query Q($__proto__: Int!) { f }] as the parser returns it. *)
Definition protoOperation : OperationDefinitionNode :=
  {| operation := QUERY; operation_name := Some "Q";
     variableDefinitions :=
       [{| variable_name := "__proto__";
           variable_type := NonNullTypeNode (NamedTypeNode "Int");
           variable_loc_start := Some 8%nat |}];
     operation_loc := Some (0%nat, 31%nat) |}.

(** [scalar constructor
     type Query { stamp(at: constructor): Int }] *)
Definition stampField : GraphQLField :=
  mkField "stamp" (scalar "Int") [mkArg "at" (scalar "constructor")].
Definition constructorSchema : GraphQLSchema :=
  mkSchema
    [("Query", GraphQLObjectType [stampField]);
     ("constructor", GraphQLScalarType)].



End Examples.

(* ===================================================================== *)
(** * A concrete operation document *)
(* ===================================================================== *)

Module Documents.

(** [query orders($limit: Int) { # recent orders
       orders(limit: $limit) { id }
     }
     mutation cancel($id: ID!) { cancel(id: $id) }] *)
Definition document : string :=
  "query orders($limit: Int) { # recent orders" +:+ LF
  +:+ "orders(limit: $limit) { id }" +:+ LF
  +:+ "}" +:+ LF
  +:+ "mutation cancel($id: ID!) { cancel(id: $id) }".

(** The two operations as the parser returns them, with their offsets in
    the document. *)
Definition ordersOperation : OperationDefinitionNode :=
  {| operation := QUERY; operation_name := Some "orders";
     variableDefinitions :=
       [{| variable_name := "limit"; variable_type := NamedTypeNode "Int";
           variable_loc_start := Some 13%nat |}];
     operation_loc := Some (0%nat, 74%nat) |}.

Definition cancelOperation : OperationDefinitionNode :=
  {| operation := MUTATION; operation_name := Some "cancel";
     variableDefinitions :=
       [{| variable_name := "id";
           variable_type := NonNullTypeNode (NamedTypeNode "ID");
           variable_loc_start := Some 91%nat |}];
     operation_loc := Some (75%nat, 120%nat) |}.

(** [String.prototype.trim] on the ASCII range: the white space is the
    space and the characters from the tabulation to the carriage return. *)
Definition isSpace (c : ascii) : bool :=
  let n := nat_of_ascii c in
  ((n =? 32)%nat || ((9 <=? n)%nat && (n <=? 13)%nat))%bool.

Fixpoint trimStart (s : string) : string :=
  match s with
  | EmptyString => EmptyString
  | String c s' => if isSpace c then trimStart s' else s
  end.

Fixpoint trimEnd (s : string) : string :=
  match s with
  | EmptyString => EmptyString
  | String c s' =>
      match trimEnd s' with
      | EmptyString => if isSpace c then EmptyString else String c EmptyString
      | rest => String c rest
      end
  end.

Definition trimBoth (s : string) : string := trimEnd (trimStart s).

(** A host that parses this one document, finds no comment in front of a
    node, and slices operations as the converter does. *)
#[local] Instance host : Host := {|
  Value := string;
  trim := trimBoth;
  parseNodeDescription := λ _ _ _, None;
  printFieldType := λ f, typeToString (arg_type f);
  printArgumentType := λ a, typeToString (arg_type a);
  parse := λ text,
    if bool_decide (text = document)
    then Ok [OperationDefinition ordersOperation;
             OperationDefinition cancelOperation]
    else Throw "Syntax Error: Unexpected Name.";
  extractOperation := Source.extractOperation trimBoth;
  JSON_parse := λ _, Ok ∅;
|}.

Definition accepting : ValidationResult :=
  {| isValid := true; errorMessage := None |}.

Definition echoExecutor : APIQueryExecutor :=
  {| validate_definition := λ _, accepting;
     validate_arguments := λ _ _, accepting;
     executeQuery := λ query _, Ok query;
     executor_toString := "echo" |}.

Definition converter : GraphQLSchemaConverter :=
  {| revision := Rev1; schemaString := "";
     schema := {| typeMap := ∅; queryTypeName := None;
                  mutationTypeName := None |};
     functionFactory := {| factory_apiExecutor := echoExecutor;
                           factory_contextKeys := ∅ |};
     config := DEFAULT |}.

End Documents.

(* ===================================================================== *)
(** * Properties *)
(* ===================================================================== *)

Section Properties.
Context `{host : Host}.

(* --------------------------------------------------------------------- *)
(** ** Outcomes and loops *)
(* --------------------------------------------------------------------- *)

Lemma Ok_inj {A} (a b : A) : Ok a = Ok b → a = b.
Proof. by intros [= ->]. Qed.

Lemma bind_Ok_inv {A B} (m : Outcome A) (f : A -> Outcome B) (b : B) :
  m ≫= f = Ok b → ∃ a, m = Ok a ∧ f a = Ok b.
Proof. destruct m as [a| |]; simpl; intros H; try discriminate; eauto. Qed.

Lemma bind_not_OutOfFuel {A B} (m : Outcome A) (f : A -> Outcome B) :
  m ≠ OutOfFuel → (∀ a, m = Ok a → f a ≠ OutOfFuel) → m ≫= f ≠ OutOfFuel.
Proof. destruct m as [a| |]; simpl; intros Hm Hf; auto; discriminate. Qed.

(** Splits a hypothesis [m ≫= f = Ok b] into its two halves. *)
Ltac inv_bind H :=
  let a := fresh "a" in
  let Ha := fresh "Hstep" in
  apply bind_Ok_inv in H; destruct H as (a & Ha & H).

(** A property of the loop state that every iteration preserves holds when
    the loop ends normally. *)
Lemma forOf_invariant {S A} (P : S -> Prop)
    (body : nat -> A -> S -> Outcome S) (xs : list A) :
  (∀ i x s s', x ∈ xs → P s → body i x s = Ok s' → P s') →
  ∀ i s s', P s → forOf body i xs s = Ok s' → P s'.
Proof.
  induction xs as [|x xs IH]; intros Hbody i s s' Hs Hrun; simpl in Hrun.
  - congruence.
  - inv_bind Hrun.
    apply (IH (λ j y t t' Hy, Hbody j y t t' (list_elem_of_further _ _ _ Hy))
              (Datatypes.S i) a s'); [|exact Hrun].
    eapply Hbody; [left|exact Hs|exact Hstep].
Qed.

Lemma forOf_not_OutOfFuel {S A} (body : nat -> A -> S -> Outcome S)
    (xs : list A) :
  (∀ i x s, x ∈ xs → body i x s ≠ OutOfFuel) →
  ∀ i s, forOf body i xs s ≠ OutOfFuel.
Proof.
  induction xs as [|x xs IH]; intros Hbody i s; simpl; [discriminate|].
  apply bind_not_OutOfFuel.
  - apply Hbody; left.
  - intros a _. apply IH. intros j y t Hy. apply Hbody. by right.
Qed.

(** Two loop bodies that agree on the elements of the array run alike. *)
Lemma forOf_ext {S A} (body body' : nat -> A -> S -> Outcome S)
    (xs : list A) :
  (∀ i x s, x ∈ xs → body i x s = body' i x s) →
  ∀ i s, forOf body i xs s = forOf body' i xs s.
Proof.
  induction xs as [|x xs IH]; intros Hbody i s; simpl; [done|].
  rewrite Hbody by left. destruct (body' i x s); simpl; auto.
  apply IH. intros j y t Hy. apply Hbody. by right.
Qed.

Lemma mapM_Ok_Forall2 {A B} (f : A -> Outcome B) (xs : list A)
    (ys : list B) :
  mapM f xs = Ok ys ↔ Forall2 (λ x y, f x = Ok y) xs ys.
Proof.
  revert ys. induction xs as [|x xs IH]; intros ys; simpl.
  - split.
    + intros [= <-]. constructor.
    + intros H. by inversion H.
  - split.
    + intros H. inv_bind H. inv_bind H. injection H as <-.
      constructor; [done|]. by apply IH.
    + intros H. inversion H as [|? y ? ys' Hx Hrest]; subst.
      rewrite Hx. simpl. apply IH in Hrest. rewrite Hrest. done.
Qed.

(** [map] with a callback that always returns is the plain [map]. *)
Lemma mapM_total {A B} (f : A -> Outcome B) (g : A -> B) (xs : list A) :
  (∀ x, x ∈ xs → f x = Ok (g x)) → mapM f xs = Ok (map g xs).
Proof.
  induction xs as [|x xs IH]; intros H; simpl; [done|].
  rewrite H by left. simpl. rewrite IH; [done|].
  intros y Hy. apply H. by right.
Qed.

(* --------------------------------------------------------------------- *)
(** ** The Parameter Schema invariant *)
(* --------------------------------------------------------------------- *)

Lemma required_in_propertiesb_spec (p : FunctionDefinitionParameters) :
  required_in_propertiesb p = true ↔ required_in_properties p.
Proof.
  unfold required_in_propertiesb, required_in_properties.
  rewrite forallb_forall. split.
  - intros H n Hn. apply list_elem_of_In in Hn.
    specialize (H n Hn). by apply bool_decide_eq_true in H.
  - intros H n Hn. apply bool_decide_eq_true, H. by apply list_elem_of_In.
Qed.

Lemma ownKeys_nil : ownKeys [] = ∅.
Proof. done. Qed.

Lemma ownKeys_app (l l' : list string) :
  ownKeys (l ++ l') = ownKeys l ∪ ownKeys l'.
Proof. unfold ownKeys. by rewrite List.filter_app, list_to_set_app_L. Qed.

Lemma ownKeys_cons (n : string) (l : list string) :
  ownKeys (n :: l) = ownKeys [n] ∪ ownKeys l.
Proof. apply (ownKeys_app [n] l). Qed.

Lemma elem_of_ownKeys (l : list string) (n : string) :
  n ∈ ownKeys l ↔ n ∈ l ∧ n ≠ "__proto__".
Proof.
  unfold ownKeys. rewrite elem_of_list_to_set, list_elem_of_In, filter_In.
  rewrite <- list_elem_of_In, negb_true_iff, bool_decide_eq_false. done.
Qed.

Lemma setProperty_dom {T} (obj : gmap string T) (key : string) (value : T) :
  dom (setProperty obj key value) = dom obj ∪ ownKeys [key].
Proof.
  apply set_eq. intros n.
  rewrite elem_of_union, elem_of_ownKeys, list_elem_of_singleton.
  unfold setProperty. case_bool_decide as Hkey.
  - split; [by left|]. intros [?|[-> ?]]; done.
  - rewrite dom_insert_L, elem_of_union, elem_of_singleton.
    split; [intros [->|?]; [by right|by left]|].
    intros [?|[-> ?]]; [by right|by left].
Qed.

Lemma setProperty_lookup_is_Some {T} (obj : gmap string T)
    (key : string) (value : T) (n : string) :
  is_Some (obj !! n) → is_Some (setProperty obj key value !! n).
Proof.
  intros Hn. unfold setProperty. case_bool_decide; [done|].
  apply lookup_insert_is_Some.
  destruct (decide (key = n)); [by left|by right].
Qed.

Lemma setProperty_lookup_Some {T} (obj : gmap string T)
    (key : string) (value : T) (n : string) (x : T) :
  setProperty obj key value !! n = Some x →
  obj !! n = Some x ∨ x = value.
Proof.
  unfold setProperty. case_bool_decide; [by left|].
  destruct (decide (key = n)) as [->|Hne].
  - rewrite lookup_insert_eq. intros [= <-]. by right.
  - rewrite lookup_insert_ne by done. by left.
Qed.

Lemma addParameter_invariant (params : FunctionDefinitionParameters)
    (r : bool) (argName : string) (argDef : FunctionDefinitionArgument) :
  required_own_in_properties params →
  required_own_in_properties (addParameter params r argName argDef).
Proof.
  intros Hinv n Hn Hown. unfold addParameter, setProperty in *.
  cbn [required properties] in *.
  assert (n = argName ∨ n ∈ required params) as [->|Hn'].
  { destruct r; [|by right].
    apply elem_of_app in Hn as [Hn|Hn]; [by right|].
    apply list_elem_of_singleton in Hn. by left. }
  - rewrite bool_decide_eq_false_2 by done. by rewrite lookup_insert_eq.
  - case_bool_decide; [by apply Hinv|].
    apply lookup_insert_is_Some.
    destruct (decide (argName = n)) as [->|Hne]; [by left|right].
    split; [done|]. by apply Hinv.
Qed.

Lemma processField_invariant (this : GraphQLSchemaConverter)
    (params : FunctionDefinitionParameters) (ctx : VisitContext) (n : nat)
    (unwrappedType : UnwrappedType) (argName originalName : string)
    (d : option string) (pd : ProcessedData)
    (params' : FunctionDefinitionParameters) :
  required_own_in_properties params →
  processField this params ctx n unwrappedType argName originalName d
    = Ok (pd, params') →
  required_own_in_properties params'.
Proof.
  intros Hinv H. unfold processField in H. inv_bind H.
  injection H as _ <-. by apply addParameter_invariant.
Qed.

Lemma visitNestedField_invariant (this : GraphQLSchemaConverter)
    (context : VisitContext) (loc : option nat) (j : nat)
    (nestedField : GraphQLInputField) (st st' : VisitState) :
  required_own_in_properties (st_params st) →
  visitNestedField this context loc j nestedField st = Ok st' →
  required_own_in_properties (st_params st').
Proof.
  intros Hinv H. unfold visitNestedField in H. inv_bind H.
  injection H as <-. destruct a as [pd params']. simpl.
  eapply processField_invariant; eauto.
Qed.

Lemma visitArgument_invariant (this : GraphQLSchemaConverter)
    (field : GraphQLField) (context : VisitContext) (i : nat)
    (arg : GraphQLArgument) (st st' : VisitState) :
  required_own_in_properties (st_params st) →
  visitArgument this field context i arg st = Ok st' →
  required_own_in_properties (st_params st').
Proof.
  intros Hinv H. unfold visitArgument in H.
  destruct (asInputObjectType this _) as [[nestedFields loc]|].
  - inv_bind H. injection H as <-. simpl.
    eapply (forOf_invariant (λ s, required_own_in_properties (st_params s)));
      [| |exact Hstep]; [|exact Hinv].
    intros j x s s' _. apply visitNestedField_invariant.
  - inv_bind H. injection H as <-. destruct a as [pd params']. simpl.
    eapply processField_invariant; eauto.
Qed.

Lemma visitArguments_invariant (this : GraphQLSchemaConverter)
    (field : GraphQLField) (context : VisitContext)
    (params : FunctionDefinitionParameters) (st : VisitState) :
  required_own_in_properties params →
  visitArguments this field context params = Ok st →
  required_own_in_properties (st_params st).
Proof.
  intros Hinv H. unfold visitArguments in H.
  destruct (0 <? length (field_args field))%nat.
  - inv_bind H. injection H as <-. simpl.
    eapply (forOf_invariant (λ s, required_own_in_properties (st_params s)));
      [| |exact Hstep]; [|exact Hinv].
    intros j x s s' _. apply visitArgument_invariant.
  - injection H as <-. exact Hinv.
Qed.

Lemma visit_invariant (this : GraphQLSchemaConverter) (fuel : nat) :
  ∀ (field : GraphQLField) (params : FunctionDefinitionParameters)
    (context : VisitContext) (res : VisitResult)
    (params' : FunctionDefinitionParameters),
  required_own_in_properties params →
  visit fuel this field params context = Ok (res, params') →
  required_own_in_properties params'.
Proof.
  induction fuel as [|fuel IH]; intros field params context res params'
    Hinv H; simpl in H; [discriminate|].
  destruct (guardCuts this field context).
  { injection H as _ <-. exact Hinv. }
  inv_bind H. rename a into st.
  apply visitArguments_invariant in Hstep; [|exact Hinv].
  inv_bind H. injection H as _ <-. rename a into st2.
  destruct (asObjectType this _) as [fields|].
  - inv_bind Hstep0. destruct a as [st' atLeastOneField].
    destruct (negb atLeastOneField); [discriminate|].
    injection Hstep0 as <-. simpl.
    eapply (forOf_invariant
              (λ acc, required_own_in_properties (st_params (fst acc))))
      in Hstep1; [exact Hstep1| |exact Hstep].
    intros j child [s b] [s' b'] _ Hs Hbody. unfold visitChild in Hbody.
    inv_bind Hbody. destruct a as [r p]. injection Hbody as <- _. simpl.
    eapply IH; [exact Hs|exact Hstep0].
  - injection Hstep0 as <-. exact Hstep.
Qed.

Lemma create_function (factory : APIFunctionFactory)
    (functionDef : FunctionDefinition) (query : string) (f : APIFunction) :
  create factory functionDef query = Ok f →
  function f = functionDef ∧ contextKeys f = factory_contextKeys factory
  ∧ apiQuery f = query ∧ apiExecutor f = factory_apiExecutor factory.
Proof.
  unfold create, APIFunction_new. destruct (negb _); [discriminate|].
  intros [= <-]. done.
Qed.

Lemma empty_parameters_invariant :
  required_own_in_properties
    {| params_type := "object"; properties := ∅; required := [] |}.
Proof. intros n Hn _. simpl in Hn. by apply elem_of_nil in Hn. Qed.

Lemma convertToApiFunction_invariant (this : GraphQLSchemaConverter)
    (operationType : string) (field : GraphQLField) (f : APIFunction) :
  convertToApiFunction this operationType field = Ok f →
  required_own_in_properties (parameters (function f)).
Proof.
  unfold convertToApiFunction. intros H. inv_bind H.
  destruct a as [res params].
  apply create_function in H as (-> & _). simpl.
  eapply visit_invariant; [|exact Hstep]. apply empty_parameters_invariant.
Qed.

Lemma createApiFunction_Some (this : GraphQLSchemaConverter)
    (kind : string) (field : GraphQLField) (f : APIFunction)
    (lines : list ErrorLine) :
  createApiFunctionFromGraphQLOperation this kind field
    = Ok (Some f, lines) →
  operationFilter (config this) kind (field_name field) = true
  ∧ convertToApiFunction this kind field = Ok f.
Proof.
  unfold createApiFunctionFromGraphQLOperation.
  destruct (operationFilter _ _ _); [|discriminate].
  destruct (convertToApiFunction this kind field); simpl; try discriminate.
  intros [= <- _]. done.
Qed.

Lemma elem_of_filterBoolean {A} (xs : list (option A)) (a : A) :
  a ∈ filterBoolean xs ↔ Some a ∈ xs.
Proof.
  unfold filterBoolean. rewrite list_elem_of_omap. split.
  - intros (o & Ho & Hid). simpl in Hid. by subst.
  - intros H. by exists (Some a).
Qed.

Lemma mapM_createApiFunction_invariant (this : GraphQLSchemaConverter)
    (kind : string) (fields : list GraphQLField)
    (res : list (option APIFunction * list ErrorLine)) (f : APIFunction) :
  mapM (createApiFunctionFromGraphQLOperation this kind) fields = Ok res →
  f ∈ filterBoolean (fst <$> res) →
  required_own_in_properties (parameters (function f)).
Proof.
  intros Hmap Hf. apply mapM_Ok_Forall2 in Hmap.
  apply elem_of_filterBoolean in Hf.
  apply list_elem_of_fmap in Hf as ([o lines] & Ho & Hf). simpl in Ho.
  subst o. apply list_elem_of_lookup in Hf as [i Hi].
  destruct (Forall2_lookup_r _ _ _ _ _ Hmap Hi) as (field & _ & Hfield).
  apply createApiFunction_Some in Hfield as [_ Hconv].
  by eapply convertToApiFunction_invariant.
Qed.

Lemma convertSchema_invariant (this : GraphQLSchemaConverter)
    (tools : list APIFunction) (lines : list ErrorLine) (f : APIFunction) :
  convertSchema this = Ok (tools, lines) → f ∈ tools →
  required_own_in_properties (parameters (function f)).
Proof.
  unfold convertSchema. intros H Hf. inv_bind H. inv_bind H.
  injection H as <- _. apply elem_of_app in Hf as [Hf|Hf].
  - eapply mapM_createApiFunction_invariant; [exact Hstep|exact Hf].
  - eapply mapM_createApiFunction_invariant; [exact Hstep0|exact Hf].
Qed.

Lemma convertVariableDefinition_invariant (text : string)
    (node : OperationDefinitionNode) (i : nat)
    (varDef : VariableDefinitionNode)
    (params params' : FunctionDefinitionParameters) :
  required_own_in_properties params →
  convertVariableDefinition text node i varDef params = Ok params' →
  required_own_in_properties params'.
Proof.
  intros Hinv H. unfold convertVariableDefinition in H. inv_bind H.
  injection H as <-. by apply addParameter_invariant.
Qed.

Lemma convertOperationDefinition_invariant (node : OperationDefinitionNode)
    (text : string) (prevEnd : option nat) (def : FunctionDefinition) :
  convertOperationDefinition node text prevEnd = Ok def →
  required_own_in_properties (parameters def).
Proof.
  unfold convertOperationDefinition. intros H.
  assert (∀ params,
    forOf (convertVariableDefinition text node) 0
          (variableDefinitions node)
          {| params_type := "object"; properties := ∅; required := [] |}
      = Ok params → required_own_in_properties params) as Hloop.
  { intros params Hrun.
    eapply (forOf_invariant required_own_in_properties); [| |exact Hrun].
    - intros i x s s' _. apply convertVariableDefinition_invariant.
    - apply empty_parameters_invariant. }
  destruct (operation node); try discriminate;
    inv_bind H; injection H as <-; simpl; by apply Hloop.
Qed.

Lemma convertOperations_invariant (this : GraphQLSchemaConverter)
    (text : string) (tools : list APIFunction) (f : APIFunction) :
  convertOperations this text = Ok tools → f ∈ tools →
  required_own_in_properties (parameters (function f)).
Proof.
  unfold convertOperations. intros H Hf. inv_bind H.
  rename a into definitions.
  destruct (length definitions =? 0)%nat; [discriminate|].
  revert f Hf.
  eapply (forOf_invariant
            (λ fs : list APIFunction,
               ∀ f, f ∈ fs → required_own_in_properties (parameters (function f))))
    ; [| |exact H].
  - intros idx definition fs fs' _ Hfs Hbody f Hf.
    unfold convertDefinition in Hbody.
    destruct definition as [node|kind loc]; [|discriminate].
    inv_bind Hbody. inv_bind Hbody. injection Hbody as <-.
    apply elem_of_app in Hf as [Hf|Hf]; [by apply Hfs|].
    apply list_elem_of_singleton in Hf as ->.
    match goal with
    | Hc : create _ _ _ = Ok _ |- _ => apply create_function in Hc as (-> & _)
    end.
    by eapply convertOperationDefinition_invariant.
  - intros f Hf. by apply elem_of_nil in Hf.
Qed.

(** What the code keeps of the Parameter Schema invariant: every name in
    [required] other than [__proto__] is a key of [properties].  It is kept
    by every processed argument of the traversal ([processField]) and of
    the operation parser ([convertVariableDefinition]), hence by [visit] as
    a whole, and it holds of the definition of every tool returned by
    [convertSchema] and by [convertOperations]. *)
Lemma required_own_names_are_properties (this : GraphQLSchemaConverter) :
  (∀ params ctx n unwrappedType argName originalName d pd params',
     required_own_in_properties params →
     processField this params ctx n unwrappedType argName originalName d
       = Ok (pd, params') →
     required_own_in_properties params')
  ∧ (∀ fuel field params context res params',
       required_own_in_properties params →
       visit fuel this field params context = Ok (res, params') →
       required_own_in_properties params')
  ∧ (∀ tools lines f, convertSchema this = Ok (tools, lines) → f ∈ tools →
       required_own_in_properties (parameters (function f)))
  ∧ (∀ text node i varDef params params',
       required_own_in_properties params →
       convertVariableDefinition text node i varDef params = Ok params' →
       required_own_in_properties params')
  ∧ (∀ text tools f, convertOperations this text = Ok tools → f ∈ tools →
       required_own_in_properties (parameters (function f))).
Proof.
  repeat split.
  - intros. by eapply processField_invariant.
  - intros. by eapply visit_invariant.
  - intros. by eapply convertSchema_invariant.
  - intros. by eapply convertVariableDefinition_invariant.
  - intros. by eapply convertOperations_invariant.
Qed.

(* --------------------------------------------------------------------- *)
(** ** Termination of the traversal *)
(* --------------------------------------------------------------------- *)

Lemma convertToArgument_not_OutOfFuel (this : GraphQLSchemaConverter)
    (type : GraphQLType) : convertToArgument this type ≠ OutOfFuel.
Proof.
  assert (∀ t, convertToArgument this t ≠ OutOfFuel
               ∧ ∀ t', t = GraphQLNonNull t' →
                       convertToArgument this t' ≠ OutOfFuel) as H.
  { induction t as [n|t [IH1 IH2]|t [IH1 IH2]]; simpl.
    - split; [|discriminate].
      destruct (typeMap (schema this) !! n) as [[]|]; discriminate.
    - split; [|discriminate].
      apply bind_not_OutOfFuel; [|discriminate].
      destruct t; try exact IH1. by apply IH2.
    - split; [discriminate|]. intros t' [= <-]. exact IH1. }
  apply H.
Qed.

Lemma processField_not_OutOfFuel (this : GraphQLSchemaConverter)
    (params : FunctionDefinitionParameters) (ctx : VisitContext) (n : nat)
    (unwrappedType : UnwrappedType) (argName originalName : string)
    (d : option string) :
  processField this params ctx n unwrappedType argName originalName d
    ≠ OutOfFuel.
Proof.
  unfold processField. apply bind_not_OutOfFuel; [|discriminate].
  apply convertToArgument_not_OutOfFuel.
Qed.

Lemma visitArguments_not_OutOfFuel (this : GraphQLSchemaConverter)
    (field : GraphQLField) (context : VisitContext)
    (params : FunctionDefinitionParameters) :
  visitArguments this field context params ≠ OutOfFuel.
Proof.
  unfold visitArguments. destruct (0 <? _)%nat; [|discriminate].
  apply bind_not_OutOfFuel; [|discriminate].
  apply forOf_not_OutOfFuel. intros i arg st _. unfold visitArgument.
  destruct (asInputObjectType this _) as [[nestedFields loc]|].
  - apply bind_not_OutOfFuel; [|discriminate].
    apply forOf_not_OutOfFuel. intros j nestedField st' _.
    unfold visitNestedField. apply bind_not_OutOfFuel; [|discriminate].
    apply processField_not_OutOfFuel.
  - apply bind_not_OutOfFuel; [|discriminate].
    apply processField_not_OutOfFuel.
Qed.

(** What the guard tests, in the words of the specification. *)
Lemma guardCuts_true (this : GraphQLSchemaConverter) (field : GraphQLField)
    (context : VisitContext) :
  guardCuts this field context = true ↔
  is_Some (asObjectType this (unwrapType (field_type field)))
  ∧ (unwrapType (field_type field) ∈ path context
     ∨ Z.of_nat (length (path context)) + 1 > maxDepth (config this)).
Proof.
  unfold guardCuts. destruct (asObjectType this _) as [fields|].
  - case_bool_decide as Hin.
    + split; [|done]. intros _. split; [by eexists|by left].
    + rewrite Z.gtb_gt. split.
      * intros Hd. split; [by eexists|by right].
      * intros [_ [?|?]]; done.
  - split; [discriminate|]. intros [[? [=]] _].
Qed.

(** A field that passes the guard with an object type leaves room for one
    more level. *)
Lemma guardCuts_false_depth (this : GraphQLSchemaConverter)
    (field : GraphQLField) (context : VisitContext)
    (fields : list GraphQLField) :
  guardCuts this field context = false →
  asObjectType this (unwrapType (field_type field)) = Some fields →
  Z.of_nat (length (path context)) + 1 <= maxDepth (config this)
  ∧ unwrapType (field_type field) ∉ path context.
Proof.
  unfold guardCuts. cbv zeta. intros Hg Hobj. rewrite Hobj in Hg.
  case_bool_decide as Hin; [discriminate|].
  split; [|done]. rewrite Z.gtb_ltb in Hg. apply Z.ltb_ge in Hg. lia.
Qed.

Lemma visit_fuel_suffices (this : GraphQLSchemaConverter) (fuel : nat) :
  ∀ (field : GraphQLField) (params : FunctionDefinitionParameters)
    (context : VisitContext),
  (Z.to_nat (maxDepth (config this) - Z.of_nat (length (path context)))
   < fuel)%nat →
  visit fuel this field params context ≠ OutOfFuel.
Proof.
  induction fuel as [|fuel IH]; intros field params context Hfuel; [lia|].
  simpl. destruct (guardCuts this field context) eqn:Hguard; [discriminate|].
  apply bind_not_OutOfFuel; [apply visitArguments_not_OutOfFuel|].
  intros st _. apply bind_not_OutOfFuel; [|discriminate].
  destruct (asObjectType this _) as [fields|] eqn:Hobj; [|discriminate].
  destruct (guardCuts_false_depth _ _ _ _ Hguard Hobj) as [Hdepth _].
  apply bind_not_OutOfFuel.
  - apply forOf_not_OutOfFuel. intros i child [s b] _.
    unfold visitChild. apply bind_not_OutOfFuel.
    + apply IH. simpl. rewrite length_app. simpl. lia.
    + intros [r p] _. discriminate.
  - intros [st' b] _. destruct (negb b); discriminate.
Qed.

Lemma forOf_mono {S A} (body body' : nat -> A -> S -> Outcome S)
    (xs : list A) :
  (∀ i x s, x ∈ xs → body i x s ≠ OutOfFuel → body' i x s = body i x s) →
  ∀ i s, forOf body i xs s ≠ OutOfFuel →
         forOf body' i xs s = forOf body i xs s.
Proof.
  induction xs as [|x xs IH]; intros Hbody i s Hrun; simpl in *; [done|].
  assert (body i x s ≠ OutOfFuel) as Hx.
  { intros Heq. rewrite Heq in Hrun. by apply Hrun. }
  rewrite (Hbody i x s) by (done || left).
  destruct (body i x s) as [s'| |]; simpl in *; try done.
  apply IH; [|done]. intros j y t Hy. apply Hbody. by right.
Qed.

(** One more unit of fuel does not change a result. *)
Lemma visit_fuel_S (this : GraphQLSchemaConverter) (fuel : nat) :
  ∀ (field : GraphQLField) (params : FunctionDefinitionParameters)
    (context : VisitContext),
  visit fuel this field params context ≠ OutOfFuel →
  visit (Datatypes.S fuel) this field params context
    = visit fuel this field params context.
Proof.
  induction fuel as [|fuel IH]; intros field params context Hrun;
    [done|].
  remember (Datatypes.S fuel) as fuel1 eqn:Hfuel1.
  rewrite Hfuel1 in Hrun |- * at 2. simpl in Hrun |- *.
  destruct (guardCuts this field context); [done|].
  destruct (visitArguments this field context params) as [st| |];
    simpl in *; try done.
  destruct (asObjectType this _) as [fields|]; [|done].
  assert (forOf (visitChild (visit fuel this) context
                   (unwrapType (field_type field)) (st_numArgs st)) 0 fields
            (appendBody st (" {" +:+ LF), false) ≠ OutOfFuel) as Hloop.
  { intros Heq. rewrite Heq in Hrun. by apply Hrun. }
  rewrite (forOf_mono
             (visitChild (visit fuel this) context
                         (unwrapType (field_type field)) (st_numArgs st))
             (visitChild (visit fuel1 this) context
                         (unwrapType (field_type field)) (st_numArgs st)));
    [done| |exact Hloop].
  intros i child [s b] _ Hchild. unfold visitChild in *.
  rewrite IH; [done|].
  intros Heq. rewrite Heq in Hchild. by apply Hchild.
Qed.

Lemma visit_fuel_stable (this : GraphQLSchemaConverter) (fuel extra : nat)
    (field : GraphQLField) (params : FunctionDefinitionParameters)
    (context : VisitContext) :
  visit fuel this field params context ≠ OutOfFuel →
  visit (fuel + extra) this field params context
    = visit fuel this field params context.
Proof.
  intros Hrun. induction extra as [|extra IH].
  - by rewrite Nat.add_0_r.
  - rewrite Nat.add_succ_r, visit_fuel_S; [done|]. by rewrite IH.
Qed.

Lemma visit_cut (this : GraphQLSchemaConverter) (fuel : nat)
    (field : GraphQLField) (params : FunctionDefinitionParameters)
    (context : VisitContext) :
  guardCuts this field context = true →
  visit (Datatypes.S fuel) this field params context
    = Ok ({| success := false; queryParams := ""; queryBody := "" |}, params).
Proof. intros Hguard. simpl. by rewrite Hguard. Qed.

(** A field whose unwrapped return type is not an object type is never cut,
    whatever the depth. *)
Lemma visit_leaf_never_cut (this : GraphQLSchemaConverter) (fuel : nat)
    (field : GraphQLField) (params : FunctionDefinitionParameters)
    (context : VisitContext) (res : VisitResult)
    (params' : FunctionDefinitionParameters) :
  asObjectType this (unwrapType (field_type field)) = None →
  visit fuel this field params context = Ok (res, params') →
  success res = true.
Proof.
  intros Hobj H. destruct fuel as [|fuel]; [discriminate|]. simpl in H.
  unfold guardCuts in H. cbv zeta in H. rewrite Hobj in H.
  inv_bind H. simpl in H. by injection H as <- _.
Qed.

(** C2 (as amended).  [visit] terminates, cyclic type graphs included: an
    activation whose path has [n] entries needs a nesting of at most
    [maxDepth - n + 1] activations, after which more fuel changes nothing.
    When the unwrapped return type is an object type that is on the path
    already, or for which the path extended by one would exceed [maxDepth],
    the activation returns [success = false] with empty fragments and the
    untouched schema without any nested activation (one unit of fuel is
    enough); a field whose unwrapped return type is not an object type opens
    no nested activation and is not cut; and the context handed to a nested
    activation has the object type appended to the path. *)
Theorem visit_terminates (this : GraphQLSchemaConverter)
    (field : GraphQLField) (params : FunctionDefinitionParameters)
    (context : VisitContext) (fuel : nat) :
  (Z.to_nat (maxDepth (config this) - Z.of_nat (length (path context)))
   < fuel)%nat →
  visit fuel this field params context ≠ OutOfFuel
  ∧ (∀ extra, visit (fuel + extra) this field params context
              = visit fuel this field params context)
  ∧ (is_Some (asObjectType this (unwrapType (field_type field))) →
     unwrapType (field_type field) ∈ path context
     ∨ Z.of_nat (length (path context)) + 1 > maxDepth (config this) →
     visit 1 this field params context
       = Ok ({| success := false; queryParams := ""; queryBody := "" |},
             params)
     ∧ visit fuel this field params context
       = Ok ({| success := false; queryParams := ""; queryBody := "" |},
             params))
  ∧ (asObjectType this (unwrapType (field_type field)) = None →
     visit 1 this field params context
       = visit fuel this field params context
     ∧ ∀ res params',
         visit fuel this field params context = Ok (res, params') →
         success res = true)
  ∧ (∀ fieldName type additionalArgs,
       path (nested context fieldName type additionalArgs)
         = (path context ++ [type])
       ∧ length (path (nested context fieldName type additionalArgs))
         = Datatypes.S (length (path context))).
Proof.
  intros Hfuel. split; [by apply visit_fuel_suffices|].
  split; [intros extra; apply visit_fuel_stable;
          by apply visit_fuel_suffices|].
  split; [|split].
  - intros Hobj Hcut.
    assert (guardCuts this field context = true) as Hguard
      by (by apply guardCuts_true).
    split; [by apply visit_cut|].
    destruct fuel as [|fuel]; [lia|]. by apply visit_cut.
  - intros Hleaf. split; [|intros res params'; by apply visit_leaf_never_cut].
    destruct fuel as [|fuel]; [lia|].
    symmetry. apply (visit_fuel_stable this 1 fuel).
    simpl. unfold guardCuts. cbv zeta. rewrite Hleaf.
    apply bind_not_OutOfFuel; [apply visitArguments_not_OutOfFuel|].
    intros st _. discriminate.
  - intros fieldName type additionalArgs. simpl. split; [done|].
    rewrite length_app. simpl. lia.
Qed.

(** The fuel the converter supplies at the root is enough. *)
Lemma visit_root_not_OutOfFuel (this : GraphQLSchemaConverter)
    (field : GraphQLField) (params : FunctionDefinitionParameters)
    (opName : string) :
  visit (visitFuel this) this field params
        {| operationName := opName; prefix := ""; numArgs := 0; path := [] |}
    ≠ OutOfFuel.
Proof.
  apply visit_fuel_suffices. unfold visitFuel. simpl.
  rewrite Z.sub_0_r. lia.
Qed.

(* --------------------------------------------------------------------- *)
(** ** Per-operation failures *)
(* --------------------------------------------------------------------- *)

Lemma create_not_OutOfFuel (factory : APIFunctionFactory)
    (functionDef : FunctionDefinition) (query : string) :
  create factory functionDef query ≠ OutOfFuel.
Proof. unfold create, APIFunction_new. destruct (negb _); discriminate. Qed.

Lemma convertToApiFunction_not_OutOfFuel (this : GraphQLSchemaConverter)
    (operationType : string) (field : GraphQLField) :
  convertToApiFunction this operationType field ≠ OutOfFuel.
Proof.
  unfold convertToApiFunction. apply bind_not_OutOfFuel.
  - apply visit_root_not_OutOfFuel.
  - intros [res params] _. apply create_not_OutOfFuel.
Qed.

Lemma createApiFunction_total (this : GraphQLSchemaConverter)
    (kind : string) (field : GraphQLField) :
  createApiFunctionFromGraphQLOperation this kind field
    = Ok (converted this kind field, logged this kind field).
Proof.
  unfold createApiFunctionFromGraphQLOperation, converted, logged.
  destruct (operationFilter _ _ _); [|done].
  pose proof (convertToApiFunction_not_OutOfFuel this kind field) as Hfuel.
  destruct (convertToApiFunction this kind field); simpl; done.
Qed.

Lemma filterBoolean_converted (this : GraphQLSchemaConverter)
    (kind : string) (fields : list GraphQLField) :
  filterBoolean
    (fst <$> map (λ field, (converted this kind field,
                            logged this kind field)) fields)
    = successfullyConverted this kind fields.
Proof.
  unfold filterBoolean.
  induction fields as [|field fields IH]; simpl; [done|].
  destruct (converted this kind field); simpl;
    first [exact IH | f_equal; exact IH].
Qed.

Lemma concat_logged (this : GraphQLSchemaConverter) (kind : string)
    (fields : list GraphQLField) :
  concat (snd <$> map (λ field, (converted this kind field,
                                 logged this kind field)) fields)
    = flat_map (logged this kind) fields.
Proof.
  induction fields as [|field fields IH]; simpl; [done|]. f_equal. exact IH.
Qed.

(** C5 (as amended).  [convertSchema] always returns.  The callback run on
    each root field returns the tool when the operation filter accepts the
    field and its conversion returns one; it returns [null] and logs nothing
    when the filter rejects the field; it returns [null] and logs one line,
    naming the field and holding the error, when the conversion throws,
    whatever the error.  The list returned holds exactly the operations that
    converted, those of the query type first, then those of the mutation
    type, each group in field order, and the lines logged are those of the
    failed conversions in the same order. *)
Theorem convertSchema_skips_failed_operations
    (this : GraphQLSchemaConverter) :
  convertSchema this
    = Ok (successfullyConverted this "query"
            (rootFields (schema this) (queryTypeName (schema this)))
          ++ successfullyConverted this "mutation"
               (rootFields (schema this) (mutationTypeName (schema this))),
          flat_map (logged this "query")
            (rootFields (schema this) (queryTypeName (schema this)))
          ++ flat_map (logged this "mutation")
               (rootFields (schema this) (mutationTypeName (schema this))))
  ∧ ∀ kind field,
      (operationFilter (config this) kind (field_name field) = false →
       createApiFunctionFromGraphQLOperation this kind field
         = Ok (None, []))
      ∧ (∀ e, operationFilter (config this) kind (field_name field) = true →
              convertToApiFunction this kind field = Throw e →
              createApiFunctionFromGraphQLOperation this kind field
                = Ok (None,
                      [("Error converting query: " +:+ field_name field, e)]))
      ∧ (∀ f, operationFilter (config this) kind (field_name field) = true →
              convertToApiFunction this kind field = Ok f →
              createApiFunctionFromGraphQLOperation this kind field
                = Ok (Some f, [])).
Proof.
  split.
  - unfold convertSchema.
    rewrite !(mapM_total _ (λ field, (converted this _ field,
                                      logged this _ field)))
      by (intros; apply createApiFunction_total).
    simpl. by rewrite !filterBoolean_converted, !concat_logged.
  - intros kind field. rewrite createApiFunction_total.
    unfold converted, logged. split; [|split].
    + by intros ->.
    + by intros e -> ->.
    + by intros f -> ->.
Qed.

(* --------------------------------------------------------------------- *)
(** ** An object selection without fields *)
(* --------------------------------------------------------------------- *)

Lemma append_cons (c : ascii) (s t : string) :
  String c s +:+ t = String c (s +:+ t).
Proof. reflexivity. Qed.

Lemma append_empty_r (s : string) : s +:+ "" = s.
Proof.
  induction s as [|c s IH]; [done|]. by rewrite append_cons, IH.
Qed.

Lemma forOf_app {S A} (body : nat -> A -> S -> Outcome S)
    (xs ys : list A) (i : nat) (s : S) :
  forOf body i (xs ++ ys) s
    = forOf body i xs s ≫= forOf body (i + length xs) ys.
Proof.
  revert i s. induction xs as [|x xs IH]; intros i s; simpl.
  - by rewrite Nat.add_0_r.
  - destruct (body i x s) as [s'| |]; simpl; [|done|done].
    rewrite IH. by rewrite Nat.add_succ_r.
Qed.

(** When the guard cuts every child, the loop of the object expansion ends
    with [atLeastOneField] still false. *)
Lemma children_all_cut (this : GraphQLSchemaConverter) (fuel : nat)
    (context : VisitContext) (objectType : string) (n : nat)
    (fields : list GraphQLField) :
  (∀ child, child ∈ fields →
     guardCuts this child (nested context (field_name child) objectType n)
       = true) →
  ∀ i st,
    forOf (visitChild (visit (Datatypes.S fuel) this) context objectType n)
          i fields (st, false) = Ok (st, false).
Proof.
  induction fields as [|child fields IH]; intros Hcut i st; [done|].
  cbn -[visit].
  rewrite visit_cut by (apply Hcut; left). cbn -[visit].
  rewrite !append_empty_r. destruct st. cbn -[visit].
  apply IH. intros c Hc. apply Hcut. by right.
Qed.

Lemma expected_field_not_unsupported (opName t : string) :
  "Expected at least one field on path: " +:+ opName
    ≠ "Unsupported type: " +:+ t.
Proof. rewrite !append_cons. discriminate. Qed.

Lemma visit_child_throws (this : GraphQLSchemaConverter) (fuel : nat)
    (field : GraphQLField) (params : FunctionDefinitionParameters)
    (context : VisitContext) (st : VisitState)
    (before after : list GraphQLField) (child : GraphQLField)
    (acc : VisitState * bool) (e : string) :
  guardCuts this field context = false →
  visitArguments this field context params = Ok st →
  asObjectType this (unwrapType (field_type field))
    = Some (before ++ child :: after) →
  forOf (visitChild (visit fuel this) context
                    (unwrapType (field_type field)) (st_numArgs st))
        0 before (appendBody st (" {" +:+ LF), false) = Ok acc →
  visit fuel this child (st_params (fst acc))
        (nested context (field_name child) (unwrapType (field_type field))
                (st_numArgs st)) = Throw e →
  visit (Datatypes.S fuel) this field params context = Throw e.
Proof.
  intros Hguard Hargs Hobj Hbefore Hchild. simpl.
  rewrite Hguard, Hargs. simpl. rewrite Hobj, forOf_app, Hbefore. simpl.
  destruct acc as [s b]. simpl in *. by rewrite Hchild.
Qed.

Lemma convertToApiFunction_throws (this : GraphQLSchemaConverter)
    (kind : string) (field : GraphQLField) (e : string) :
  visit (visitFuel this) this field
        (parameters (initializeFunctionDefinition
                       (field_name field) (trim <$> field_description field)))
        {| operationName := toLowerCase kind +:+ "." +:+ field_name field;
           prefix := ""; numArgs := 0; path := [] |} = Throw e →
  convertToApiFunction this kind field = Throw e
  ∧ fst <$> createApiFunctionFromGraphQLOperation this kind field = Ok None
  ∧ successfullyConverted this kind [field] = [].
Proof.
  intros Hvisit.
  assert (convertToApiFunction this kind field = Throw e) as Hconv.
  { unfold convertToApiFunction. by rewrite Hvisit. }
  split; [done|]. rewrite createApiFunction_total. simpl.
  unfold converted. rewrite Hconv.
  by destruct (operationFilter _ _ _).
Qed.

(** C6.  When the guard cuts every child field of the object type a field
    returns, the activation of [visit] for that field throws the error
    "Expected at least one field on path: " followed by the operation path
    of its context.  The message differs from that of every Unsupported-Type
    error.  The error passes through every enclosing activation, and at the
    root it makes [convertToApiFunction] throw, so the operation is not
    converted. *)
Theorem visit_throws_without_fields (this : GraphQLSchemaConverter)
    (fuel : nat) (field : GraphQLField)
    (params : FunctionDefinitionParameters) (context : VisitContext)
    (fields : list GraphQLField) (st : VisitState) :
  guardCuts this field context = false →
  visitArguments this field context params = Ok st →
  asObjectType this (unwrapType (field_type field)) = Some fields →
  (∀ child, child ∈ fields →
     guardCuts this child
       (nested context (field_name child) (unwrapType (field_type field))
               (st_numArgs st)) = true) →
  visit (Datatypes.S (Datatypes.S fuel)) this field params context
    = Throw ("Expected at least one field on path: "
             +:+ operationName context)
  ∧ (∀ t, "Expected at least one field on path: " +:+ operationName context
          ≠ "Unsupported type: " +:+ t)
  ∧ (∀ fuel' parent params' context' st' before after acc,
       guardCuts this parent context' = false →
       visitArguments this parent context' params' = Ok st' →
       asObjectType this (unwrapType (field_type parent))
         = Some (before ++ field :: after) →
       forOf (visitChild (visit (Datatypes.S (Datatypes.S fuel')) this)
                context' (unwrapType (field_type parent)) (st_numArgs st'))
             0 before (appendBody st' (" {" +:+ LF), false) = Ok acc →
       visit (Datatypes.S (Datatypes.S fuel')) this field
             (st_params (fst acc))
             (nested context' (field_name field)
                     (unwrapType (field_type parent)) (st_numArgs st'))
         = Throw ("Expected at least one field on path: "
                  +:+ operationName context) →
       visit (Datatypes.S (Datatypes.S (Datatypes.S fuel'))) this parent
             params' context'
         = Throw ("Expected at least one field on path: "
                  +:+ operationName context))
  ∧ (∀ kind,
       visit (visitFuel this) this field
         (parameters (initializeFunctionDefinition
                        (field_name field)
                        (trim <$> field_description field)))
         {| operationName := toLowerCase kind +:+ "." +:+ field_name field;
            prefix := ""; numArgs := 0; path := [] |}
         = Throw ("Expected at least one field on path: "
                  +:+ operationName context) →
       convertToApiFunction this kind field
         = Throw ("Expected at least one field on path: "
                  +:+ operationName context)
       ∧ fst <$> createApiFunctionFromGraphQLOperation this kind field
         = Ok None
       ∧ successfullyConverted this kind [field] = []).
Proof.
  intros Hguard Hargs Hobj Hcut. split; [|split; [|split]].
  - remember (Datatypes.S fuel) as fuel1 eqn:Hfuel1. simpl.
    rewrite Hguard, Hargs. simpl. rewrite Hobj, Hfuel1.
    by rewrite children_all_cut.
  - intros t. apply expected_field_not_unsupported.
  - intros fuel' parent params' context' st' before after acc
           Hg Ha Ho Hb Hc.
    by eapply visit_child_throws.
  - intros kind. apply convertToApiFunction_throws.
Qed.

(* --------------------------------------------------------------------- *)
(** ** Context scoping *)
(* --------------------------------------------------------------------- *)

Lemma getFieldFilter_false (keys : gset string) (n : string) :
  getFieldFilter keys n = false ↔ matchesContextKey keys n.
Proof.
  unfold getFieldFilter, matchesContextKey.
  rewrite negb_false_iff, bool_decide_eq_true, elem_of_map.
  split; intros (k & H1 & H2); exists k; done.
Qed.

Lemma getFieldFilter_true (keys : gset string) (n : string) :
  getFieldFilter keys n = true ↔ ¬ matchesContextKey keys n.
Proof.
  rewrite <- getFieldFilter_false. by destruct (getFieldFilter keys n).
Qed.

Lemma elem_of_List_filter {A} (f : A -> bool) (l : list A) (x : A) :
  x ∈ List.filter f l ↔ x ∈ l ∧ f x = true.
Proof. rewrite !list_elem_of_In. apply filter_In. Qed.


(** Closes a goal whose hypotheses on membership in [x :: l] contradict
    each other. *)
Ltac elem_contra :=
  exfalso;
  match goal with
  | H : ¬ (_ ∈ _ :: _) |- _ => apply H; (left || (right; assumption))
  | H : _ ∈ _ :: _ |- _ =>
      apply elem_of_cons in H as [?|?]; (congruence || contradiction)
  end.

(** Copying the listed keys of [data] one by one into [acc]. *)
Lemma copy_keys_lookup {T} (data : gmap string T) (l : list string)
    (acc : gmap string T) (k : string) :
  foldl (λ acc fieldKey,
           match data !! fieldKey with
           | Some v => <[fieldKey := v]> acc
           | None => acc
           end) acc l !! k
  = match data !! k with
    | Some v => if bool_decide (k ∈ l) then Some v else acc !! k
    | None => acc !! k
    end.
Proof.
  revert acc. induction l as [|x l IH]; intros acc; cbn [foldl].
  - destruct (data !! k); [|done].
    case_bool_decide as Hin; [by apply elem_of_nil in Hin|done].
  - rewrite IH. destruct (data !! k) as [v|] eqn:Hk.
    + destruct (decide (x = k)) as [->|Hne].
      * rewrite Hk, lookup_insert_eq.
        repeat case_bool_decide; try done; elem_contra.
      * assert (match data !! x with
                | Some v0 => <[x:=v0]> acc
                | None => acc
                end !! k = acc !! k) as ->.
        { destruct (data !! x); [by rewrite lookup_insert_ne|done]. }
        repeat case_bool_decide; try done; elem_contra.
    + destruct (decide (x = k)) as [->|Hne]; [by rewrite Hk|].
      destruct (data !! x); [by rewrite lookup_insert_ne|done].
Qed.

Lemma filterObjectKeys_lookup {T} (filter_ : string -> bool)
    (data : gmap string T) (k : string) :
  filterObjectKeys filter_ data !! k
    = if filter_ k then data !! k else None.
Proof.
  unfold filterObjectKeys. rewrite copy_keys_lookup, lookup_empty.
  destruct (data !! k) as [v|] eqn:Hk; [|by destruct (filter_ k)].
  destruct (filter_ k) eqn:Hf.
  - rewrite bool_decide_eq_true_2; [done|].
    apply elem_of_List_filter. split; [|done].
    apply list_elem_of_fmap. exists (k, v). split; [done|].
    by apply elem_of_map_to_list.
  - rewrite bool_decide_eq_false_2; [done|].
    intros [_ Hf']%elem_of_List_filter. congruence.
Qed.



Lemma model_hides_context_keys (this : APIFunction) (n : string) :
  matchesContextKey (contextKeys this) n →
  properties (parameters (getModelFunction this)) !! n = None
  ∧ n ∉ required (parameters (getModelFunction this)).
Proof.
  intros Hn%getFieldFilter_false. simpl. split.
  - by rewrite filterObjectKeys_lookup, Hn.
  - intros [_ Hf]%elem_of_List_filter. congruence.
Qed.

Lemma model_keeps_other_names (this : APIFunction) (n : string) :
  ¬ matchesContextKey (contextKeys this) n →
  properties (parameters (getModelFunction this)) !! n
    = properties (parameters (function this)) !! n
  ∧ (n ∈ required (parameters (getModelFunction this))
     ↔ n ∈ required (parameters (function this))).
Proof.
  intros Hn%getFieldFilter_true. simpl. split.
  - by rewrite filterObjectKeys_lookup, Hn.
  - rewrite elem_of_List_filter. split; [by intros [? _]|by intros ?].
Qed.


(* --------------------------------------------------------------------- *)
(** ** Validation sees the model-facing definition *)
(* --------------------------------------------------------------------- *)

(** Two tools whose full definitions differ only in context-key parameters
    show the same definition to the model. *)
Lemma getModelFunction_ext (this other : APIFunction) :
  contextKeys other = contextKeys this →
  name (function other) = name (function this) →
  description (function other) = description (function this) →
  params_type (parameters (function other))
    = params_type (parameters (function this)) →
  (∀ n, ¬ matchesContextKey (contextKeys this) n →
        properties (parameters (function other)) !! n
          = properties (parameters (function this)) !! n) →
  List.filter (getFieldFilter (contextKeys this))
              (required (parameters (function other)))
    = List.filter (getFieldFilter (contextKeys this))
                  (required (parameters (function this))) →
  getModelFunction other = getModelFunction this.
Proof.
  intros HK Hname Hdesc Htype Hprops Hreq. unfold getModelFunction.
  rewrite HK, Hname, Hdesc, Htype, Hreq. do 2 f_equal.
  apply map_eq. intros n. rewrite !filterObjectKeys_lookup.
  destruct (getFieldFilter (contextKeys this) n) eqn:Hn; [|done].
  by apply Hprops, getFieldFilter_true.
Qed.

(** C9.  [validate] passes the executor the model-facing definition of
    [getModelFunction], which has no context-key parameter; so does
    [validateAndExecute].  Hence tools that differ only in their context-key
    parameters validate alike, and with an executor that accepts arguments
    holding every required name of the definition it is shown, arguments
    that hold the required names other than context keys are valid, whether
    or not they hold a required context key. *)
Theorem validation_uses_model_definition (this : APIFunction)
    (args : gmap string Value) :
  validate this args
    = validate_arguments (apiExecutor this) (getModelFunction this) args
  ∧ (∀ n, matchesContextKey (contextKeys this) n →
          properties (parameters (getModelFunction this)) !! n = None
          ∧ n ∉ required (parameters (getModelFunction this)))
  ∧ (∀ context,
       validateAndExecute this args context
         = if isValid (validate_arguments (apiExecutor this)
                                          (getModelFunction this) args)
           then execute this args context
           else Ok (createInvalidCallMessage
                      (name (function this))
                      (errorMessage
                         (validate_arguments (apiExecutor this)
                                             (getModelFunction this) args))))
  ∧ (∀ other,
       apiExecutor other = apiExecutor this →
       contextKeys other = contextKeys this →
       name (function other) = name (function this) →
       description (function other) = description (function this) →
       params_type (parameters (function other))
         = params_type (parameters (function this)) →
       (∀ n, ¬ matchesContextKey (contextKeys this) n →
             properties (parameters (function other)) !! n
               = properties (parameters (function this)) !! n) →
       List.filter (getFieldFilter (contextKeys this))
                   (required (parameters (function other)))
         = List.filter (getFieldFilter (contextKeys this))
                       (required (parameters (function this))) →
       validate other args = validate this args)
  ∧ ((∀ def a,
        (∀ n, n ∈ required (parameters def) → is_Some (a !! n)) →
        isValid (validate_arguments (apiExecutor this) def a) = true) →
     (∀ n, n ∈ required (parameters (function this)) →
           ¬ matchesContextKey (contextKeys this) n → is_Some (args !! n)) →
     isValid (validate this args) = true).
Proof.
  split; [done|]. split; [apply model_hides_context_keys|].
  split; [done|]. split.
  - intros other Hex HK Hname Hdesc Htype Hprops Hreq. unfold validate.
    rewrite Hex. f_equal. by apply getModelFunction_ext.
  - intros Hexec Hargs. unfold validate. apply Hexec.
    intros n Hn.
    destruct (decide (getFieldFilter (contextKeys this) n = true))
      as [Hf|Hf].
    + apply getFieldFilter_true in Hf.
      apply Hargs; [|done]. by apply (model_keeps_other_names this n Hf).
    + apply elem_of_List_filter in Hn as [_ Hn]. done.
Qed.

(* --------------------------------------------------------------------- *)
(** ** Calling a tool with argument text *)
(* --------------------------------------------------------------------- *)

Lemma append_assoc (a b c : string) : (a +:+ b) +:+ c = a +:+ b +:+ c.
Proof.
  induction a as [|x a IH]; [done|]. by rewrite !append_cons, IH.
Qed.

Lemma createInvalidCallMessage_contains_name (functionName : string)
    (e : option string) :
  contains (createInvalidCallMessage functionName e) functionName.
Proof.
  unfold createInvalidCallMessage.
  by exists "It looks like you tried to call function `", ("`, "
    +:+ "but this has failed with the following error: "
    +:+ interpolate e +:+ ". "
    +:+ "Please retry to call the function again. "
    +:+ "Send ONLY the JSON as a response.").
Qed.

Lemma createInvalidCallMessage_contains_error (functionName e : string) :
  contains (createInvalidCallMessage functionName (Some e)) e.
Proof.
  unfold createInvalidCallMessage.
  exists ("It looks like you tried to call function `" +:+ functionName
          +:+ "`, " +:+ "but this has failed with the following error: "),
         (". " +:+ "Please retry to call the function again. "
          +:+ "Send ONLY the JSON as a response.").
  simpl. by rewrite !append_assoc.
Qed.

Lemma contains_trans (s t u : string) :
  contains s t → contains t u → contains s u.
Proof.
  intros (p1 & q1 & ->) (p2 & q2 & ->).
  exists (p1 +:+ p2), (q2 +:+ q1). by rewrite !append_assoc.
Qed.

(** C7 (as amended).  [validateAndExecuteFromString] returns the retry
    message, and does not throw, for argument text that is not well-formed
    JSON (the message then holds the tool's name and the words
    "Malformed JSON") and for well-formed arguments that fail validation
    (the message then holds the tool's name and embeds the validation
    error).  For well-formed, valid arguments it settles as the executor's
    [executeQuery] does on the merged arguments. *)
Theorem validateAndExecuteFromString_outcomes (this : APIFunction)
    (argsJson : string) (context : Context) :
  (∀ e, JSON_parse argsJson = Throw e →
        validateAndExecuteFromString this argsJson context
          = Ok (createInvalidCallMessage (name (function this))
                  (Some ("Malformed JSON: " +:+ e)))
        ∧ contains (createInvalidCallMessage (name (function this))
                      (Some ("Malformed JSON: " +:+ e)))
                   (name (function this))
        ∧ contains (createInvalidCallMessage (name (function this))
                      (Some ("Malformed JSON: " +:+ e)))
                   "Malformed JSON")
  ∧ (∀ args, JSON_parse argsJson = Ok args →
             isValid (validate this args) = false →
             validateAndExecuteFromString this argsJson context
               = Ok (createInvalidCallMessage (name (function this))
                       (errorMessage (validate this args)))
             ∧ contains (createInvalidCallMessage (name (function this))
                           (errorMessage (validate this args)))
                        (name (function this))
             ∧ contains (createInvalidCallMessage (name (function this))
                           (errorMessage (validate this args)))
                        (interpolate (errorMessage (validate this args))))
  ∧ (∀ args, JSON_parse argsJson = Ok args →
             isValid (validate this args) = true →
             validateAndExecuteFromString this argsJson context
               = executeQuery (apiExecutor this) (apiQuery this)
                   (addOrOverrideFromContext args (contextKeys this)
                                             context)).
Proof.
  unfold validateAndExecuteFromString, validateAndExecute.
  split; [|split].
  - intros e ->. split; [done|]. split.
    + apply createInvalidCallMessage_contains_name.
    + eapply contains_trans;
        [apply createInvalidCallMessage_contains_error|].
      by exists "", (": " +:+ e).
  - intros args -> ->. split; [done|]. split.
    + apply createInvalidCallMessage_contains_name.
    + destruct (errorMessage (validate this args)) as [e|].
      * apply createInvalidCallMessage_contains_error.
      * pose proof (createInvalidCallMessage_contains_error
                      (name (function this)) "undefined") as H.
        exact H.
  - by intros args -> ->.
Qed.

(* --------------------------------------------------------------------- *)
(** ** Executing tool calls *)
(* --------------------------------------------------------------------- *)

Lemma toolsMap_lookup_None (toolDefinitions : list APIFunction)
    (n : string) :
  toolsMap toolDefinitions !! n = None
  ↔ ∀ t, t ∈ toolDefinitions → getName t ≠ n.
Proof.
  unfold toolsMap.
  assert (∀ l (m : gmap string APIFunction),
            foldl (λ m t, <[getName t := t]> m) m l !! n = None
            ↔ m !! n = None ∧ ∀ t, t ∈ l → getName t ≠ n) as H.
  { induction l as [|t l IH]; intros m; cbn [foldl].
    - split; [|by intros [? _]]. intros Hm. split; [done|].
      intros t Ht. by apply elem_of_nil in Ht.
    - rewrite IH, lookup_insert_None. split.
      + intros [[Hm Hne] Hl]. split; [done|].
        intros t' [->|Ht']%elem_of_cons; [done|by apply Hl].
      + intros [Hm Hl]. split; [split; [done|]|].
        * apply Hl. left.
        * intros t' Ht'. apply Hl. by right. }
  rewrite H, lookup_empty. split; [by intros [_ ?]|by intros ?].
Qed.

Lemma executeTools_OneCall (call : ToolCall)
    (toolDefinitions : list APIFunction) (res : string) :
  executeTools (OneCall call) toolDefinitions = Ok (OneResult res)
  ↔ executeTool call toolDefinitions = Ok res.
Proof.
  simpl. destruct (executeTool call toolDefinitions); simpl;
    split; intros [=]; by subst.
Qed.

(** C10.  [executeTools] given one call whose name is that of no tool of
    the definitions resolves to the empty string.  Given an array it
    resolves to an array exactly when every call, made on its own, resolves,
    and the results are those of the calls, in the order of the calls. *)
Theorem executeTools_unknown_tool_and_order
    (toolDefinitions : list APIFunction) :
  (∀ call,
     (∀ t, t ∈ toolDefinitions → getName t ≠ call_name call) →
     executeTools (OneCall call) toolDefinitions = Ok (OneResult ""))
  ∧ (∀ calls results,
       executeTools (ManyCalls calls) toolDefinitions
         = Ok (ManyResults results)
       ↔ Forall2 (λ call res,
                    executeTools (OneCall call) toolDefinitions
                      = Ok (OneResult res))
                 calls results)
  ∧ (∀ calls res,
       executeTools (ManyCalls calls) toolDefinitions ≠ Ok (OneResult res)).
Proof.
  split; [|split].
  - intros call Hnone. apply executeTools_OneCall. unfold executeTool.
    by rewrite (proj2 (toolsMap_lookup_None _ _) Hnone).
  - intros calls results.
    transitivity (mapM (λ toolCall, executeTool toolCall toolDefinitions)
                       calls = Ok results).
    + simpl. destruct (mapM _ calls); simpl; split; intros [=]; by subst.
    + rewrite mapM_Ok_Forall2. split; intros H;
        (eapply Forall2_impl; [exact H|]); intros call res;
        apply executeTools_OneCall.
  - intros calls res. simpl. by destruct (mapM _ calls).
Qed.

(* --------------------------------------------------------------------- *)
(** ** The type mapper *)
(* --------------------------------------------------------------------- *)

Lemma scalarTypeMap_lookup (n k : string) :
  scalarTypeMap !! n = Some k →
  (n, k) ∈ [("Int", "integer"); ("Float", "number"); ("String", "string");
            ("Boolean", "boolean"); ("ID", "string")].
Proof. apply elem_of_list_to_map_2. Qed.

(** The three cases of indexing the scalar table: an entry gives its
    kind, an inherited name gives the inherited member, and only a name
    that is neither gives the default. *)
Lemma scalarKind_cases (n : string) :
  (∀ k, scalarTypeMap !! n = Some k → scalarKind n = TypeString k)
  ∧ (n ∈ objectPrototypeKeys → scalarKind n = PrototypeMember n)
  ∧ (scalarTypeMap !! n = None → n ∉ objectPrototypeKeys →
     scalarKind n = TypeString "string").
Proof.
  unfold scalarKind. split; [|split].
  - intros k Hk. rewrite Hk. apply scalarTypeMap_lookup in Hk.
    repeat (apply elem_of_cons in Hk as [[= -> ->]|Hk]; [done|]).
    by apply elem_of_nil in Hk.
  - intros Hn. destruct (scalarTypeMap !! n) as [k|] eqn:Hk.
    + apply scalarTypeMap_lookup in Hk. exfalso.
      repeat (apply elem_of_cons in Hk as [[= -> ->]|Hk];
              [revert Hn; apply (proj1 (bool_decide_eq_false _));
               by vm_compute|]).
      by apply elem_of_nil in Hk.
    + by rewrite bool_decide_eq_true_2.
  - intros -> Hn. by rewrite bool_decide_eq_false_2.
Qed.

(** What [convertToArgument] does, case by case: a scalar type is mapped to
    what indexing the scalar table by its name gives (Int to integer, Float
    to number, String and ID to string, Boolean to boolean, a name that
    [Object.prototype] defines to the inherited member, any other name to
    string); an enum type to string with the set of its value names; a list
    type to an array whose items are the mapping of the element type with
    one non-null wrapper stripped; and it throws "Unsupported type: "
    followed by the type for an input-object type. *)
Lemma convertToArgument_cases (this : GraphQLSchemaConverter) :
  (∀ n, typeMap (schema this) !! n = Some GraphQLScalarType →
        convertToArgument this (GraphQLNamed n)
          = Ok (mkArgument (scalarKind n) None None None))
  ∧ (scalarKind "Int" = TypeString "integer"
     ∧ scalarKind "Float" = TypeString "number"
     ∧ scalarKind "String" = TypeString "string"
     ∧ scalarKind "Boolean" = TypeString "boolean"
     ∧ scalarKind "ID" = TypeString "string"
     ∧ (∀ n, n ∈ objectPrototypeKeys → scalarKind n = PrototypeMember n)
     ∧ ∀ n, n ∉ ["Int"; "Float"; "String"; "Boolean"; "ID"] →
            n ∉ objectPrototypeKeys →
            scalarKind n = TypeString "string")
  ∧ (∀ n values,
       typeMap (schema this) !! n = Some (GraphQLEnumType values) →
       ∃ names : gset string,
         convertToArgument this (GraphQLNamed n)
           = Ok (mkArgument "string" None None (Some names))
         ∧ ∀ v, v ∈ names ↔ v ∈ values)
  ∧ (∀ ofType,
       convertToArgument this (GraphQLList ofType)
         = items ← convertToArgument this
                     (unwrapped_type (convertRequired ofType));
           Ok (mkArgument "array" None (Some items) None))
  ∧ (∀ n fields loc,
       typeMap (schema this) !! n = Some (GraphQLInputObjectType fields loc) →
       convertToArgument this (GraphQLNamed n)
         = Throw ("Unsupported type: " +:+ n)).
Proof.
  split; [|split; [|split; [|split]]].
  - intros n Hn. simpl. by rewrite Hn.
  - do 5 (split; [by vm_compute|]).
    split; [intros n; apply scalarKind_cases|].
    intros n Hn Hproto. apply scalarKind_cases; [|done].
    destruct (scalarTypeMap !! n) as [k|] eqn:Hk; [|done].
    apply scalarTypeMap_lookup in Hk. exfalso. apply Hn.
    repeat (apply elem_of_cons in Hk as [[= -> ->]|Hk];
            [repeat constructor|]).
    by apply elem_of_nil in Hk.
  - intros n values Hn. exists (list_to_set values). simpl. rewrite Hn.
    split; [done|]. intros v. apply elem_of_list_to_set.
  - intros ofType. by destruct ofType.
  - intros n fields loc Hn. simpl. by rewrite Hn.
Qed.

(* --------------------------------------------------------------------- *)
(** ** Punctuation of the fragments *)
(* --------------------------------------------------------------------- *)

(** What [processField] emits: the body binding is preceded by a comma when
    the running count of this activation is positive, the header gets a
    comma when the count inherited through the context plus the running
    count is positive. *)
Lemma processField_punctuation (this : GraphQLSchemaConverter)
    (params : FunctionDefinitionParameters) (ctx : VisitContext) (n : nat)
    (unwrappedType : UnwrappedType) (argName originalName : string)
    (d : option string) (pd : ProcessedData)
    (params' : FunctionDefinitionParameters) :
  processField this params ctx n unwrappedType argName originalName d
    = Ok (pd, params') →
  pd_argName pd = "$" +:+ argName
  ∧ pd_queryBody pd
    = (if (0 <? n)%nat then ", " else "")
      +:+ originalName +:+ ": " +:+ "$" +:+ argName
  ∧ pd_queryHeader pd = (if (0 <? numArgs ctx + n)%nat then ", " else "").
Proof.
  unfold processField. intros H. inv_bind H. by injection H as <- _.
Qed.

(** Inside a flattened input object every field processed when the running
    count is positive, which is the case of every field after the first, is
    bound after a comma; the later revision drops that comma for the first
    field only. *)
Lemma visitNestedField_punctuation (this : GraphQLSchemaConverter)
    (context : VisitContext) (loc : option nat) (j : nat)
    (nestedField : GraphQLInputField) (st st' : VisitState) :
  visitNestedField this context loc j nestedField st = Ok st' →
  st_numArgs st' = Datatypes.S (st_numArgs st)
  ∧ ((0 < st_numArgs st)%nat →
     revision this = Rev1 ∨ j ≠ 0%nat →
     st_queryBody st'
       = st_queryBody st +:+ ", " +:+ arg_name nestedField +:+ ": " +:+ "$"
         +:+ combineStrings (prefix context) (arg_name nestedField)).
Proof.
  unfold visitNestedField. intros H. inv_bind H. destruct a as [pd params'].
  apply processField_punctuation in Hstep as (_ & Hbody & _).
  injection H as <-. split; [done|]. intros Hpos Hlater. simpl.
  rewrite Hbody. apply Nat.ltb_lt in Hpos. rewrite Hpos.
  assert (match revision this with
          | Rev1 => false
          | Rev2 => (j =? 0)%nat
          end = false) as ->; [|done].
  destruct (revision this); [done|].
  destruct Hlater as [?|Hj]; [done|]. by apply Nat.eqb_neq.
Qed.

Lemma appendDeclared_app (n : nat) (xs ys : list string) :
  appendDeclared n (xs ++ ys)
    = appendDeclared n xs +:+ appendDeclared (n + length xs) ys.
Proof.
  revert n. induction xs as [|x xs IH]; intros n; simpl.
  - by rewrite Nat.add_0_r.
  - by rewrite IH, !append_assoc, Nat.add_succ_r.
Qed.

Lemma appendDeclared_succ (n : nat) (xs : list string) :
  appendDeclared (Datatypes.S n) xs = appendDeclared 1 xs.
Proof. revert n. induction xs as [|x xs IH]; intros n; simpl; [done|].
  by rewrite (IH (Datatypes.S n)), (IH 1%nat). Qed.

(** Appended to an empty list, the items come out comma-separated. *)
Lemma appendDeclared_0 (xs : list string) :
  appendDeclared 0 xs = commaSeparated xs.
Proof.
  destruct xs as [|x xs]; [done|]. unfold commaSeparated. simpl.
  revert x. induction xs as [|y ys IH]; intros x; simpl.
  - by rewrite append_empty_r.
  - rewrite <- IH. by rewrite (appendDeclared_succ 1).
Qed.

Lemma splice_header (context : VisitContext) (n : nat) (st : VisitState)
    (stripComma : bool) (pd : ProcessedData)
    (params : FunctionDefinitionParameters) (typeString : string)
    (node : GraphQLArgument) :
  pd_argName pd = "$" +:+ combineStrings (prefix context) (arg_name node) →
  pd_queryHeader pd = (if (0 <? n)%nat then ", " else "") →
  st_queryParams (splice st stripComma (pd, params) typeString)
    = st_queryParams st
      +:+ appendDeclared n [declaration context typeString node]
  ∧ st_numArgs (splice st stripComma (pd, params) typeString)
    = Datatypes.S (st_numArgs st).
Proof.
  intros Hname Hheader. unfold splice. simpl. rewrite Hname, Hheader.
  unfold declaration. by rewrite !append_assoc, append_empty_r.
Qed.

Lemma visitNestedFields_header (this : GraphQLSchemaConverter)
    (context : VisitContext) (loc : option nat)
    (nestedFields : list GraphQLInputField) :
  ∀ j st st',
    forOf (visitNestedField this context loc) j nestedFields st = Ok st' →
    st_queryParams st'
      = st_queryParams st
        +:+ appendDeclared (numArgs context + st_numArgs st)
              (map (λ f, declaration context (printFieldType f) f)
                   nestedFields)
    ∧ st_numArgs st' = (st_numArgs st + length nestedFields)%nat.
Proof.
  induction nestedFields as [|f fs IH]; intros j st st' H;
    cbn [forOf] in H.
  - injection H as <-. simpl. by rewrite append_empty_r, Nat.add_0_r.
  - inv_bind H. rename a into st1. apply IH in H as [Hq Hn].
    unfold visitNestedField in Hstep. inv_bind Hstep.
    destruct a as [pd params']. apply Ok_inj in Hstep as Hst1.
    apply processField_punctuation in Hstep0 as (Hname & _ & Hheader).
    destruct (splice_header context (numArgs context + st_numArgs st) st
                match revision this with
                | Rev1 => false
                | Rev2 => (j =? 0)%nat
                end pd params' (printFieldType f) f Hname Hheader)
      as [Hq1 Hn1].
    rewrite Hst1 in Hq1, Hn1.
    rewrite Hq, Hn, Hq1, Hn1. split; [|simpl; lia].
    cbn [map appendDeclared]. rewrite append_empty_r, !append_assoc.
    by rewrite Nat.add_succ_r.
Qed.

Lemma visitArgument_header (this : GraphQLSchemaConverter)
    (field : GraphQLField) (context : VisitContext)
    (args : list GraphQLArgument) :
  ∀ i st st',
    forOf (visitArgument this field context) i args st = Ok st' →
    ∃ items,
      items = flat_map
                (λ arg,
                   match asInputObjectType this
                           (unwrapped_type (convertRequired (arg_type arg)))
                   with
                   | Some (nestedFields, _) =>
                       map (λ f, declaration context (printFieldType f) f)
                           nestedFields
                   | None => [declaration context (printArgumentType arg) arg]
                   end) args
      ∧ st_queryParams st'
        = st_queryParams st
          +:+ appendDeclared (numArgs context + st_numArgs st) items
      ∧ st_numArgs st' = (st_numArgs st + length items)%nat.
Proof.
  induction args as [|arg args IH]; intros i st st' H; cbn [forOf] in H.
  - injection H as <-. eexists. split; [done|]. simpl.
    by rewrite append_empty_r, Nat.add_0_r.
  - inv_bind H. rename a into st1.
    apply IH in H as (items & -> & Hq & Hn).
    eexists. split; [done|]. cbn [flat_map].
    rewrite appendDeclared_app, length_app, Hq, Hn.
    unfold visitArgument in Hstep.
    destruct (asInputObjectType this _) as [[nestedFields loc]|].
    + inv_bind Hstep. apply Ok_inj in Hstep as Hst1.
      apply visitNestedFields_header in Hstep0 as [Hq1 Hn1].
      rewrite <- Hst1. cbn [appendBody st_queryParams st_numArgs] in *.
      rewrite Hq1, Hn1, length_map, !append_assoc.
      split; [|lia]. by rewrite Nat.add_assoc.
    + inv_bind Hstep. destruct a as [pd params'].
      apply Ok_inj in Hstep as Hst1.
      apply processField_punctuation in Hstep0 as (Hname & _ & Hheader).
      destruct (splice_header context (numArgs context + st_numArgs st) st
                  false pd params' (printArgumentType arg) arg Hname Hheader)
        as [Hq1 Hn1].
      rewrite Hst1 in Hq1, Hn1.
      rewrite Hq1, Hn1, !append_assoc. split; [|simpl; lia].
      simpl. by rewrite Nat.add_succ_r, Nat.add_1_r.
Qed.

(** The header one activation contributes for its own arguments: its
    declarations, the first of them after a comma exactly when the context
    counts an argument already.  At the root nothing is counted and the
    declarations are comma-separated. *)
Lemma visitArguments_header (this : GraphQLSchemaConverter)
    (field : GraphQLField) (context : VisitContext)
    (params : FunctionDefinitionParameters) (st : VisitState) :
  visitArguments this field context params = Ok st →
  st_queryParams st
    = appendDeclared (numArgs context) (declarations this context field)
  ∧ st_numArgs st = length (declarations this context field)
  ∧ (numArgs context = 0%nat →
     st_queryParams st = commaSeparated (declarations this context field)).
Proof.
  unfold visitArguments. intros H.
  assert (st_queryParams st
            = appendDeclared (numArgs context)
                (declarations this context field)
          ∧ st_numArgs st = length (declarations this context field))
    as [Hq Hn].
  { destruct (0 <? length (field_args field))%nat eqn:Hlen.
    - inv_bind H. apply Ok_inj in H as <-.
      apply visitArgument_header in Hstep as (items & -> & Hq & Hn).
      cbn [appendBody st_queryParams st_numArgs] in *.
      rewrite Nat.add_0_r in Hq. by rewrite Hq, Hn.
    - apply Ok_inj in H as <-.
      unfold declarations.
      destruct (field_args field); [done|discriminate Hlen]. }
  split; [done|]. split; [done|]. intros Hroot.
  by rewrite Hq, Hroot, appendDeclared_0.
Qed.

(* --------------------------------------------------------------------- *)
(** ** The traversal only appends *)
(* --------------------------------------------------------------------- *)

Lemma textExtends_refl (s : string) : textExtends s s.
Proof. exists "". by rewrite append_empty_r. Qed.

Lemma textExtends_trans (s t u : string) :
  textExtends s t → textExtends t u → textExtends s u.
Proof.
  intros [r ->] [r' ->]. exists (r +:+ r'). by rewrite append_assoc.
Qed.

Lemma textExtends_append (s r : string) : textExtends s (s +:+ r).
Proof. by exists r. Qed.

Lemma parametersExtend_refl (p : FunctionDefinitionParameters) :
  parametersExtend p p.
Proof. by repeat split. Qed.

Lemma parametersExtend_trans (p q r : FunctionDefinitionParameters) :
  parametersExtend p q → parametersExtend q r → parametersExtend p r.
Proof.
  intros (Ht & Hk & Hr) (Ht' & Hk' & Hr'). split; [congruence|].
  split; [intros n Hn; by apply Hk', Hk|]. by etrans.
Qed.

Lemma addParameter_extends (params : FunctionDefinitionParameters)
    (r : bool) (argName : string) (argDef : FunctionDefinitionArgument) :
  parametersExtend params (addParameter params r argName argDef).
Proof.
  unfold addParameter. split; [done|]. simpl. split.
  - intros n Hn. by apply setProperty_lookup_is_Some.
  - destruct r; [by apply prefix_app_r|done].
Qed.

Lemma stateGrows_refl (st : VisitState) : stateGrows st st.
Proof.
  repeat split; try done; try apply textExtends_refl.
Qed.

Lemma stateGrows_trans (s t u : VisitState) :
  stateGrows s t → stateGrows t u → stateGrows s u.
Proof.
  intros (H1 & H2 & H3 & H4) (H1' & H2' & H3' & H4').
  split; [by eapply textExtends_trans|].
  split; [by eapply textExtends_trans|].
  split; [lia|]. by eapply parametersExtend_trans.
Qed.

Lemma appendBody_grows (st : VisitState) (s : string) :
  stateGrows st (appendBody st s).
Proof.
  unfold appendBody. split; [apply textExtends_refl|].
  split; [apply textExtends_append|]. split; [done|].
  apply parametersExtend_refl.
Qed.

(** What [processField] does to the schema: it adds the one parameter. *)
Lemma processField_params (this : GraphQLSchemaConverter)
    (params : FunctionDefinitionParameters) (ctx : VisitContext) (n : nat)
    (unwrappedType : UnwrappedType) (argName originalName : string)
    (d : option string) (pd : ProcessedData)
    (params' : FunctionDefinitionParameters) :
  processField this params ctx n unwrappedType argName originalName d
    = Ok (pd, params') →
  ∃ argDef,
    convertToArgument this (unwrapped_type unwrappedType) = Ok argDef
    ∧ params' = addParameter params (unwrapped_required unwrappedType)
                             argName (set_description argDef d).
Proof.
  unfold processField. intros H. inv_bind H.
  apply Ok_inj in H. injection H as _ <-. by exists a.
Qed.

Lemma splice_grows (this : GraphQLSchemaConverter) (st : VisitState)
    (ctx : VisitContext) (unwrappedType : UnwrappedType)
    (argName originalName : string) (d : option string)
    (stripComma : bool) (processed : ProcessedData * FunctionDefinitionParameters)
    (typeString : string) :
  processField this (st_params st) ctx (st_numArgs st) unwrappedType
               argName originalName d = Ok processed →
  stateGrows st (splice st stripComma processed typeString).
Proof.
  destruct processed as [pd params']. intros H.
  apply processField_params in H as (argDef & _ & ->).
  unfold splice. split; [apply textExtends_append|].
  split; [apply textExtends_append|]. split; [simpl; lia|].
  apply addParameter_extends.
Qed.

Lemma visitNestedField_grows (this : GraphQLSchemaConverter)
    (context : VisitContext) (loc : option nat) (j : nat)
    (nestedField : GraphQLInputField) (st st' : VisitState) :
  visitNestedField this context loc j nestedField st = Ok st' →
  stateGrows st st'.
Proof.
  unfold visitNestedField. intros H. inv_bind H. apply Ok_inj in H as <-.
  by eapply splice_grows.
Qed.

Lemma forOf_grows {A} (body : nat -> A -> VisitState -> Outcome VisitState)
    (xs : list A) :
  (∀ i x s s', body i x s = Ok s' → stateGrows s s') →
  ∀ i st st', forOf body i xs st = Ok st' → stateGrows st st'.
Proof.
  intros Hbody i st st' H.
  eapply (forOf_invariant (λ s, stateGrows st s)); [| |exact H].
  - intros j x s s' _ Hs Hstep. eapply stateGrows_trans; [exact Hs|].
    by eapply Hbody.
  - apply stateGrows_refl.
Qed.

Lemma visitArgument_grows (this : GraphQLSchemaConverter)
    (field : GraphQLField) (context : VisitContext) (i : nat)
    (arg : GraphQLArgument) (st st' : VisitState) :
  visitArgument this field context i arg st = Ok st' → stateGrows st st'.
Proof.
  unfold visitArgument. intros H.
  destruct (asInputObjectType this _) as [[nestedFields loc]|].
  - inv_bind H. apply Ok_inj in H as <-.
    eapply stateGrows_trans; [apply appendBody_grows|].
    eapply stateGrows_trans; [|apply appendBody_grows].
    eapply forOf_grows; [|exact Hstep].
    intros j x s s'. apply visitNestedField_grows.
  - inv_bind H. apply Ok_inj in H as <-. by eapply splice_grows.
Qed.

Lemma visitArguments_grows (this : GraphQLSchemaConverter)
    (field : GraphQLField) (context : VisitContext)
    (params : FunctionDefinitionParameters) (st : VisitState) :
  visitArguments this field context params = Ok st →
  stateGrows {| st_queryParams := ""; st_queryBody := field_name field;
                st_numArgs := 0; st_params := params |} st.
Proof.
  unfold visitArguments. intros H.
  destruct (0 <? length (field_args field))%nat.
  - inv_bind H. apply Ok_inj in H as <-.
    eapply stateGrows_trans; [apply appendBody_grows|].
    eapply stateGrows_trans; [|apply appendBody_grows].
    eapply forOf_grows; [|exact Hstep].
    intros j x s s'. apply visitArgument_grows.
  - apply Ok_inj in H as <-. apply stateGrows_refl.
Qed.

Lemma visit_extends (this : GraphQLSchemaConverter) (fuel : nat)
    (field : GraphQLField) (params : FunctionDefinitionParameters)
    (context : VisitContext) (res : VisitResult)
    (params' : FunctionDefinitionParameters) :
  visit fuel this field params context = Ok (res, params') →
  parametersExtend params params'.
Proof.
  revert field params context res params'.
  induction fuel as [|fuel IH]; intros field params context res params' H;
    [discriminate|].
  simpl in H. destruct (guardCuts this field context).
  { apply Ok_inj in H. injection H as _ <-. apply parametersExtend_refl. }
  inv_bind H. rename a into st.
  apply visitArguments_grows in Hstep as (_ & _ & _ & Hargs).
  simpl in Hargs. inv_bind H. apply Ok_inj in H. injection H as _ <-.
  rename a into st2. eapply parametersExtend_trans; [exact Hargs|].
  destruct (asObjectType this _) as [fields|].
  - inv_bind Hstep. destruct a as [st' atLeastOneField].
    destruct (negb atLeastOneField); [discriminate|].
    apply Ok_inj in Hstep as <-. simpl.
    eapply (forOf_invariant
              (λ acc, parametersExtend (st_params st) (st_params (fst acc))))
      in Hstep0; [exact Hstep0| |apply parametersExtend_refl].
    intros j child [s b] [s' b'] _ Hs Hbody. unfold visitChild in Hbody.
    inv_bind Hbody. destruct a as [r p]. apply Ok_inj in Hbody.
    injection Hbody as <- _. simpl in *.
    eapply parametersExtend_trans; [exact Hs|]. by eapply IH.
  - apply Ok_inj in Hstep as <-. apply parametersExtend_refl.
Qed.

(** X1.  [visit] only appends to the parameter schema it is handed: the
    kind is kept, no property key is removed, and the [required] list it
    returns starts with the one it received.  (A descriptor may be replaced
    when two arguments flatten to the same name.) *)
Theorem visit_appends_only (this : GraphQLSchemaConverter) (fuel : nat)
    (field : GraphQLField) (params : FunctionDefinitionParameters)
    (context : VisitContext) (res : VisitResult)
    (params' : FunctionDefinitionParameters) :
  visit fuel this field params context = Ok (res, params') →
  parametersExtend params params'.
Proof. apply visit_extends. Qed.

(** X2.  What [visit] returns tells whether the guard cut the field:
    [success] is false exactly when it did, and then both fragments are
    empty and the schema is the one received; otherwise the body starts with
    the name of the field and ends with a line feed. *)
Theorem visit_success_iff_not_cut (this : GraphQLSchemaConverter)
    (fuel : nat) (field : GraphQLField)
    (params : FunctionDefinitionParameters) (context : VisitContext)
    (res : VisitResult) (params' : FunctionDefinitionParameters) :
  visit fuel this field params context = Ok (res, params') →
  success res = negb (guardCuts this field context)
  ∧ (guardCuts this field context = true →
     queryParams res = "" ∧ queryBody res = "" ∧ params' = params)
  ∧ (guardCuts this field context = false →
     ∃ rest, queryBody res = field_name field +:+ rest +:+ LF).
Proof.
  intros H. destruct fuel as [|fuel]; [discriminate|]. simpl in H.
  destruct (guardCuts this field context).
  { apply Ok_inj in H. injection H as <- <-. by repeat split. }
  inv_bind H. rename a into st.
  apply visitArguments_grows in Hstep as (_ & [r Hbody] & _ & _).
  simpl in Hbody. inv_bind H. apply Ok_inj in H. injection H as <- _.
  rename a into st2. split; [done|]. split; [done|]. intros _. simpl.
  assert (textExtends (st_queryBody st) (st_queryBody st2)) as [r2 Hr2].
  { destruct (asObjectType this _) as [fields|].
    - inv_bind Hstep. destruct a as [st' atLeastOneField].
      destruct (negb atLeastOneField); [discriminate|].
      apply Ok_inj in Hstep as <-. simpl.
      eapply textExtends_trans; [|apply textExtends_append].
      eapply (forOf_invariant
                (λ acc, textExtends (st_queryBody st)
                                    (st_queryBody (fst acc))))
        in Hstep0; [exact Hstep0| |apply textExtends_append].
      intros j child [s b] [s' b'] _ Hs Hstep1. unfold visitChild in Hstep1.
      inv_bind Hstep1. destruct a as [r' p]. apply Ok_inj in Hstep1.
      injection Hstep1 as <- _. simpl in *.
      eapply textExtends_trans; [exact Hs|apply textExtends_append].
    - apply Ok_inj in Hstep as <-. apply textExtends_refl. }
  exists (r +:+ r2). by rewrite Hr2, Hbody, !append_assoc.
Qed.

(* --------------------------------------------------------------------- *)
(** ** The parameters one activation registers *)
(* --------------------------------------------------------------------- *)

Lemma addParameter_dom (params : FunctionDefinitionParameters) (r : bool)
    (argName : string) (argDef : FunctionDefinitionArgument) :
  dom (properties (addParameter params r argName argDef))
    = dom (properties params) ∪ ownKeys [argName]
  ∧ required (addParameter params r argName argDef)
    = required params ++ (if r then [argName] else []).
Proof.
  unfold addParameter. simpl. split.
  - apply setProperty_dom.
  - destruct r; [done|by rewrite app_nil_r].
Qed.

Lemma processNode_registers (this : GraphQLSchemaConverter)
    (context : VisitContext) (st : VisitState) (node : GraphQLArgument)
    (d : option string) (stripComma : bool)
    (processed : ProcessedData * FunctionDefinitionParameters)
    (typeString : string) :
  processField this (st_params st) context (st_numArgs st)
               (convertRequired (arg_type node)) (flatName context node)
               (arg_name node) d = Ok processed →
  dom (properties (st_params (splice st stripComma processed typeString)))
    = dom (properties (st_params st)) ∪ ownKeys [flatName context node]
  ∧ required (st_params (splice st stripComma processed typeString))
    = required (st_params st)
      ++ map (flatName context)
             (List.filter
                (λ n, unwrapped_required (convertRequired (arg_type n)))
                [node]).
Proof.
  destruct processed as [pd params']. intros H.
  apply processField_params in H as (argDef & _ & ->).
  unfold splice. cbn [st_params].
  destruct (addParameter_dom (st_params st)
              (unwrapped_required (convertRequired (arg_type node)))
              (flatName context node) (set_description argDef d))
    as [-> ->].
  split; [done|]. simpl.
  by destruct (unwrapped_required (convertRequired (arg_type node))).
Qed.

Lemma visitNestedFields_registers (this : GraphQLSchemaConverter)
    (context : VisitContext) (loc : option nat)
    (nestedFields : list GraphQLInputField) :
  ∀ j st st',
    forOf (visitNestedField this context loc) j nestedFields st = Ok st' →
    dom (properties (st_params st'))
      = dom (properties (st_params st))
        ∪ ownKeys (map (flatName context) nestedFields)
    ∧ required (st_params st')
      = required (st_params st)
        ++ map (flatName context)
               (List.filter
                  (λ n, unwrapped_required (convertRequired (arg_type n)))
                  nestedFields).
Proof.
  induction nestedFields as [|f fs IH]; intros j st st' H;
    cbn [forOf] in H.
  - apply Ok_inj in H as <-. split; [|simpl; by rewrite app_nil_r].
    apply set_eq. intros x. rewrite elem_of_union, elem_of_ownKeys. simpl.
    rewrite elem_of_nil. tauto.
  - inv_bind H. rename a into st1. apply IH in H as [Hd Hr].
    unfold visitNestedField in Hstep. inv_bind Hstep.
    apply Ok_inj in Hstep as Hst1.
    eapply processNode_registers in Hstep0 as [Hd1 Hr1].
    rewrite Hst1 in Hd1, Hr1. rewrite Hd, Hr, Hd1, Hr1. split.
    + cbn [map]. rewrite (ownKeys_cons _ (map _ fs)). apply set_eq.
      intros x. rewrite !elem_of_union. tauto.
    + rewrite <- app_assoc, <- map_app, <- List.filter_app. done.
Qed.

Lemma visitArgument_registers (this : GraphQLSchemaConverter)
    (field : GraphQLField) (context : VisitContext)
    (args : list GraphQLArgument) :
  ∀ i st st',
    forOf (visitArgument this field context) i args st = Ok st' →
    dom (properties (st_params st'))
      = dom (properties (st_params st))
        ∪ ownKeys (map (flatName context) (flattenArguments this args))
    ∧ required (st_params st')
      = required (st_params st)
        ++ map (flatName context)
             (List.filter
                (λ n, unwrapped_required (convertRequired (arg_type n)))
                (flattenArguments this args)).
Proof.
  induction args as [|arg args IH]; intros i st st' H; cbn [forOf] in H.
  - apply Ok_inj in H as <-. split; [|simpl; by rewrite app_nil_r].
    apply set_eq. intros x. rewrite elem_of_union, elem_of_ownKeys. simpl.
    rewrite elem_of_nil. tauto.
  - inv_bind H. rename a into st1. apply IH in H as [Hd Hr].
    rewrite Hd, Hr. unfold flattenArguments. cbn [flat_map].
    rewrite List.filter_app, !map_app, ownKeys_app.
    fold (flattenArguments this args).
    unfold visitArgument in Hstep.
    destruct (asInputObjectType this _) as [[nestedFields loc]|].
    + inv_bind Hstep. apply Ok_inj in Hstep as Hst1.
      apply visitNestedFields_registers in Hstep0 as [Hd1 Hr1].
      rewrite <- Hst1. cbn [appendBody st_params] in *.
      rewrite Hd1, Hr1. split; [|by rewrite app_assoc].
      apply set_eq. intros x. rewrite !elem_of_union. tauto.
    + inv_bind Hstep. apply Ok_inj in Hstep as Hst1.
      eapply processNode_registers in Hstep0 as [Hd1 Hr1].
      rewrite Hst1 in Hd1, Hr1. rewrite Hd1, Hr1.
      split; [|by rewrite app_assoc].
      cbn [map]. apply set_eq. intros x.
      rewrite !elem_of_union. tauto.
Qed.

Lemma visitArguments_names (this : GraphQLSchemaConverter)
    (field : GraphQLField) (context : VisitContext)
    (params : FunctionDefinitionParameters) (st : VisitState) :
  visitArguments this field context params = Ok st →
  dom (properties (st_params st))
    = dom (properties params)
      ∪ ownKeys (parameterNames this context field)
  ∧ required (st_params st)
    = required params ++ requiredNames this context field
  ∧ st_numArgs st = length (parameterNames this context field).
Proof.
  intros H. split; [|split].
  - revert H. unfold visitArguments, parameterNames, processedArguments.
    destruct (0 <? length (field_args field))%nat eqn:Hlen; intros H.
    + inv_bind H. apply Ok_inj in H as <-.
      by apply visitArgument_registers in Hstep as [Hd _].
    + apply Ok_inj in H as <-. destruct (field_args field);
        [|discriminate Hlen].
      apply set_eq. intros x. rewrite elem_of_union, elem_of_ownKeys. simpl.
      rewrite elem_of_nil. tauto.
  - revert H. unfold visitArguments, requiredNames, processedArguments.
    destruct (0 <? length (field_args field))%nat eqn:Hlen; intros H.
    + inv_bind H. apply Ok_inj in H as <-.
      by apply visitArgument_registers in Hstep as [_ Hr].
    + apply Ok_inj in H as <-. destruct (field_args field);
        [|discriminate Hlen]. simpl. by rewrite app_nil_r.
  - apply visitArguments_header in H as (_ & Hn & _). rewrite Hn.
    unfold declarations, parameterNames, processedArguments,
      flattenArguments.
    rewrite length_map. induction (field_args field) as [|arg args IH];
      [done|]. cbn [flat_map]. rewrite !length_app, IH. f_equal.
    destruct (asInputObjectType this _) as [[nestedFields loc]|];
      [by rewrite length_map|done].
Qed.

(** X3.  What one activation of [visit] registers for the arguments of its
    field: the property keys afterwards are the keys before together with
    the flat names of the processed arguments (the fields of a flattened
    input object, or the argument itself) other than [__proto__], under
    which an assignment creates no key; [required] is extended by the flat
    names of those whose type is non-null, [__proto__] included, in
    processing order; and the running count is the number of processed
    arguments. *)
Theorem visitArguments_registers (this : GraphQLSchemaConverter)
    (field : GraphQLField) (context : VisitContext)
    (params : FunctionDefinitionParameters) (st : VisitState) :
  visitArguments this field context params = Ok st →
  dom (properties (st_params st))
    = dom (properties params)
      ∪ ownKeys (parameterNames this context field)
  ∧ required (st_params st)
    = required params ++ requiredNames this context field
  ∧ st_numArgs st = length (parameterNames this context field).
Proof. apply visitArguments_names. Qed.

(* --------------------------------------------------------------------- *)
(** ** The shape of the descriptors *)
(* --------------------------------------------------------------------- *)

Lemma scalarKind_not_array (n : string) : scalarKind n ≠ "array".
Proof.
  unfold scalarKind.
  destruct (scalarTypeMap !! n) as [k|] eqn:Hk;
    [|case_bool_decide; discriminate].
  apply scalarTypeMap_lookup in Hk.
  repeat (apply elem_of_cons in Hk as [[= -> ->]|Hk]; [discriminate|]).
  by apply elem_of_nil in Hk.
Qed.

Lemma convertToArgument_wellFormed (this : GraphQLSchemaConverter)
    (type : GraphQLType) (a : FunctionDefinitionArgument) :
  convertToArgument this type = Ok a →
  wellFormedArgument a ∧ argument_description a = None.
Proof.
  assert (∀ t,
            (∀ a, convertToArgument this t = Ok a →
                  wellFormedArgument a ∧ argument_description a = None)
            ∧ ∀ t', t = GraphQLNonNull t' →
                    ∀ a, convertToArgument this t' = Ok a →
                         wellFormedArgument a
                         ∧ argument_description a = None) as H.
  { induction t as [n|t [IH1 IH2]|t [IH1 IH2]]; simpl.
    - split; [|discriminate]. intros b.
      destruct (typeMap (schema this) !! n) as [[]|]; try discriminate.
      + intros [= <-]. split; [|done]. simpl.
        split; [apply scalarKind_not_array|]. by intros [? [=]].
      + intros [= <-]. split; [|done]. simpl. split; [discriminate|done].
    - split; [|discriminate]. intros b Hb. inv_bind Hb.
      apply Ok_inj in Hb as <-. split; [|done]. simpl.
      split; [done|]. split; [done|].
      destruct t; try (by apply IH1). by eapply IH2.
    - split; [discriminate|]. intros t' [= <-]. exact IH1. }
  apply H.
Qed.

Lemma convertType_wellFormed (type : TypeNode)
    (a : FunctionDefinitionArgument) :
  convertType type = Ok a →
  wellFormedArgument a ∧ argument_description a = None.
Proof.
  revert a. induction type as [n|t IH|t IH]; simpl; intros a H.
  - apply Ok_inj in H as <-. split; [|done]. simpl.
    split; [apply scalarKind_not_array|]. by intros [? [=]].
  - inv_bind H. apply Ok_inj in H as <-. split; [|done]. simpl.
    split; [done|]. split; [done|]. by apply IH.
  - discriminate.
Qed.

Lemma set_description_wellFormed (a : FunctionDefinitionArgument)
    (d : option string) :
  wellFormedArgument a → wellFormedArgument (set_description a d).
Proof. by destruct a. Qed.

Lemma addParameter_wellFormed (params : FunctionDefinitionParameters)
    (r : bool) (n : string) (a : FunctionDefinitionArgument) :
  wellFormedParameters params → wellFormedArgument a →
  wellFormedParameters (addParameter params r n a).
Proof.
  intros Hp Ha k b. unfold addParameter. simpl.
  intros [Hb| ->]%setProperty_lookup_Some; [by eapply Hp|done].
Qed.

(** A property of the parameter schema that adding a mapped argument
    keeps is kept by the whole traversal. *)
Lemma visit_preserves (this : GraphQLSchemaConverter)
    (P : FunctionDefinitionParameters -> Prop) :
  (∀ p r n t d a, P p → convertToArgument this t = Ok a →
                  P (addParameter p r n (set_description a d))) →
  ∀ fuel field params context res params',
    P params →
    visit fuel this field params context = Ok (res, params') →
    P params'.
Proof.
  intros Hadd.
  assert (∀ st ctx ut an on d b processed ts,
            P (st_params st) →
            processField this (st_params st) ctx (st_numArgs st) ut an on d
              = Ok processed →
            P (st_params (splice st b processed ts))) as Hsplice.
  { intros st ctx ut an on d b [pd p'] ts Hst H.
    apply processField_params in H as (argDef & Hconv & ->).
    unfold splice. cbn [st_params]. by eapply Hadd. }
  assert (∀ field context params st,
            P params → visitArguments this field context params = Ok st →
            P (st_params st)) as Hargs.
  { intros field context params st Hp H. unfold visitArguments in H.
    destruct (0 <? length (field_args field))%nat;
      [|by apply Ok_inj in H as <-].
    inv_bind H. apply Ok_inj in H as <-. simpl.
    eapply (forOf_invariant (λ s, P (st_params s))); [| |exact Hstep];
      [|exact Hp].
    intros i arg s s' _ Hs Harg. unfold visitArgument in Harg.
    destruct (asInputObjectType this _) as [[nestedFields loc]|].
    - inv_bind Harg. apply Ok_inj in Harg as <-. simpl.
      eapply (forOf_invariant (λ s, P (st_params s))); [| |exact Hstep0];
        [|exact Hs].
      intros j f s1 s2 _ Hs1 Hf. unfold visitNestedField in Hf.
      inv_bind Hf. apply Ok_inj in Hf as <-. by eapply Hsplice.
    - inv_bind Harg. apply Ok_inj in Harg as <-. by eapply Hsplice. }
  induction fuel as [|fuel IH]; intros field params context res params'
    Hp H; [discriminate|].
  simpl in H. destruct (guardCuts this field context).
  { apply Ok_inj in H. by injection H as _ <-. }
  inv_bind H. rename a into st. apply Hargs in Hstep; [|exact Hp].
  inv_bind H. apply Ok_inj in H. injection H as _ <-. rename a into st2.
  destruct (asObjectType this _) as [fields|];
    [|by apply Ok_inj in Hstep0 as <-].
  inv_bind Hstep0. destruct a as [st' atLeastOneField].
  destruct (negb atLeastOneField); [discriminate|].
  apply Ok_inj in Hstep0 as <-. simpl.
  eapply (forOf_invariant (λ acc, P (st_params (fst acc)))) in Hstep1;
    [exact Hstep1| |exact Hstep].
  intros j child [s b] [s' b'] _ Hs Hbody. unfold visitChild in Hbody.
  inv_bind Hbody. destruct a as [r p]. apply Ok_inj in Hbody.
  injection Hbody as <- _. simpl in *. by eapply IH.
Qed.

Lemma empty_parameters_wellFormed :
  wellFormedParameters
    {| params_type := "object"; properties := ∅; required := [] |}.
Proof. intros n a. simpl. by rewrite lookup_empty. Qed.

Lemma convertToApiFunction_wellFormed (this : GraphQLSchemaConverter)
    (kind : string) (field : GraphQLField) (f : APIFunction) :
  convertToApiFunction this kind field = Ok f →
  wellFormedParameters (parameters (function f)).
Proof.
  unfold convertToApiFunction. intros H. inv_bind H.
  destruct a as [res params]. apply create_function in H as (-> & _).
  simpl. eapply (visit_preserves this wellFormedParameters);
    [| |exact Hstep]; [|apply empty_parameters_wellFormed].
  intros p r n t d a Hp Ha. apply addParameter_wellFormed; [done|].
  apply set_description_wellFormed. by eapply convertToArgument_wellFormed.
Qed.

Lemma convertSchema_tools (this : GraphQLSchemaConverter)
    (tools : list APIFunction) (lines : list ErrorLine) (f : APIFunction) :
  convertSchema this = Ok (tools, lines) → f ∈ tools →
  ∃ kind field,
    (kind = "query"
     ∧ field ∈ rootFields (schema this) (queryTypeName (schema this))
     ∨ kind = "mutation"
       ∧ field ∈ rootFields (schema this) (mutationTypeName (schema this)))
    ∧ operationFilter (config this) kind (field_name field) = true
    ∧ convertToApiFunction this kind field = Ok f.
Proof.
  unfold convertSchema. intros H Hf. inv_bind H. inv_bind H.
  apply Ok_inj in H. injection H as <- _.
  assert (∀ kind fields res,
            mapM (createApiFunctionFromGraphQLOperation this kind) fields
              = Ok res →
            f ∈ filterBoolean (fst <$> res) →
            ∃ field, field ∈ fields
              ∧ operationFilter (config this) kind (field_name field) = true
              ∧ convertToApiFunction this kind field = Ok f) as Hone.
  { intros kind fields res Hmap Hin. apply mapM_Ok_Forall2 in Hmap.
    apply elem_of_filterBoolean in Hin.
    apply list_elem_of_fmap in Hin as ([o ls] & Ho & Hin). simpl in Ho.
    subst o. apply list_elem_of_lookup in Hin as [i Hi].
    destruct (Forall2_lookup_r _ _ _ _ _ Hmap Hi) as (field & Hfi & Hfield).
    apply createApiFunction_Some in Hfield as [Hfilter Hconv].
    exists field. split; [|done]. by eapply list_elem_of_lookup_2. }
  apply elem_of_app in Hf as [Hf|Hf].
  - destruct (Hone _ _ _ Hstep Hf) as (field & Hin & Hfilter & Hconv).
    exists "query", field. split; [by left|done].
  - destruct (Hone _ _ _ Hstep0 Hf) as (field & Hin & Hfilter & Hconv).
    exists "mutation", field. split; [by right|done].
Qed.

Lemma convertOperations_tools (this : GraphQLSchemaConverter)
    (text : string) (tools : list APIFunction) (f : APIFunction) :
  convertOperations this text = Ok tools → f ∈ tools →
  ∃ node prevEnd funcDef,
    convertOperationDefinition node text prevEnd = Ok funcDef
    ∧ create (functionFactory this) funcDef
             (extractOperation text (operation_loc node)) = Ok f.
Proof.
  unfold convertOperations. intros H Hf. inv_bind H.
  rename a into definitions.
  destruct (length definitions =? 0)%nat; [discriminate|].
  revert f Hf.
  eapply (forOf_invariant
            (λ fs : list APIFunction,
               ∀ f, f ∈ fs →
                 ∃ node prevEnd funcDef,
                   convertOperationDefinition node text prevEnd = Ok funcDef
                   ∧ create (functionFactory this) funcDef
                       (extractOperation text (operation_loc node)) = Ok f));
    [| |exact H].
  - intros idx definition fs fs' _ Hfs Hbody f Hf.
    unfold convertDefinition in Hbody.
    destruct definition as [node|kind loc]; [|discriminate].
    inv_bind Hbody. inv_bind Hbody. apply Ok_inj in Hbody as <-.
    apply elem_of_app in Hf as [Hf|Hf]; [by apply Hfs|].
    apply list_elem_of_singleton in Hf as ->. eauto.
  - intros f Hf. by apply elem_of_nil in Hf.
Qed.

Lemma convertOperationDefinition_wellFormed (node : OperationDefinitionNode)
    (text : string) (prevEnd : option nat) (def : FunctionDefinition) :
  convertOperationDefinition node text prevEnd = Ok def →
  wellFormedParameters (parameters def).
Proof.
  unfold convertOperationDefinition. intros H.
  assert (∀ params,
    forOf (convertVariableDefinition text node) 0
          (variableDefinitions node)
          {| params_type := "object"; properties := ∅; required := [] |}
      = Ok params → wellFormedParameters params) as Hloop.
  { intros params Hrun.
    eapply (forOf_invariant wellFormedParameters); [| |exact Hrun].
    - intros i x s s' _ Hs Hbody. unfold convertVariableDefinition in Hbody.
      inv_bind Hbody. apply Ok_inj in Hbody as <-.
      apply addParameter_wellFormed; [done|].
      apply set_description_wellFormed. by eapply convertType_wellFormed.
    - apply empty_parameters_wellFormed. }
  destruct (operation node); try discriminate;
    inv_bind H; apply Ok_inj in H as <-; simpl; by apply Hloop.
Qed.

(** X4.  Every type descriptor of every tool is well formed: a descriptor
    of kind array carries its items, which are well formed, and no
    enumeration; any other descriptor carries no items, and carries an
    enumeration only when its kind is string.  This holds for the tools of
    [convertSchema] and of [convertOperations], and for what the two type
    mappers return, whose descriptors have no description yet. *)
Theorem descriptors_are_well_formed (this : GraphQLSchemaConverter) :
  (∀ tools lines f, convertSchema this = Ok (tools, lines) → f ∈ tools →
     wellFormedParameters (parameters (function f)))
  ∧ (∀ text tools f, convertOperations this text = Ok tools → f ∈ tools →
       wellFormedParameters (parameters (function f)))
  ∧ (∀ type a, convertToArgument this type = Ok a →
       wellFormedArgument a ∧ argument_description a = None)
  ∧ (∀ type a, convertType type = Ok a →
       wellFormedArgument a ∧ argument_description a = None).
Proof.
  split; [|split; [|split]].
  - intros tools lines f H Hf.
    destruct (convertSchema_tools this tools lines f H Hf)
      as (kind & field & _ & _ & Hconv).
    by eapply convertToApiFunction_wellFormed.
  - intros text tools f H Hf.
    destruct (convertOperations_tools this text tools f H Hf)
      as (node & prevEnd & funcDef & Hdef & Hcreate).
    apply create_function in Hcreate as (-> & _).
    by eapply convertOperationDefinition_wellFormed.
  - apply convertToArgument_wellFormed.
  - apply convertType_wellFormed.
Qed.

(* --------------------------------------------------------------------- *)
(** ** The tools of a schema conversion *)
(* --------------------------------------------------------------------- *)

Lemma create_validated (factory : APIFunctionFactory)
    (functionDef : FunctionDefinition) (query : string) (f : APIFunction) :
  create factory functionDef query = Ok f →
  isValid (validate_definition (factory_apiExecutor factory) functionDef)
    = true.
Proof.
  unfold create, APIFunction_new.
  destruct (isValid _); [done|discriminate].
Qed.

Lemma convertToApiFunction_tool (this : GraphQLSchemaConverter)
    (kind : string) (field : GraphQLField) (f : APIFunction) :
  convertToApiFunction this kind field = Ok f →
  name (function f) = field_name field
  ∧ description (function f) = trim <$> field_description field
  ∧ params_type (parameters (function f)) = "object"
  ∧ textExtends (toLowerCase kind +:+ " " +:+ field_name field +:+ "(")
                (apiQuery f)
  ∧ contextKeys f = factory_contextKeys (functionFactory this)
  ∧ apiExecutor f = factory_apiExecutor (functionFactory this)
  ∧ isValid (validate_definition (apiExecutor f) (function f)) = true.
Proof.
  unfold convertToApiFunction. intros H. inv_bind H.
  destruct a as [res params].
  pose proof (create_validated _ _ _ _ H) as Hvalid.
  apply create_function in H as (Hf & HK & Hq & Hex).
  rewrite Hf, HK, Hq, Hex. simpl.
  apply visit_extends in Hstep as (Htype & _ & _). simpl in Htype.
  repeat split; try done. apply textExtends_append.
Qed.

(** X5.  Where a tool of [convertSchema] comes from: it is the conversion
    of a field of the query type (kind [query]) or of the mutation type
    (kind [mutation]) that the operation filter accepts; it bears the name
    of the field and its trimmed description, its parameters are of kind
    object, its query begins with the kind, the field name and an opening
    parenthesis, it is bound to the executor of the factory, and that
    executor accepts its definition. *)
Theorem convertSchema_tool_provenance (this : GraphQLSchemaConverter)
    (tools : list APIFunction) (lines : list ErrorLine) (f : APIFunction) :
  convertSchema this = Ok (tools, lines) → f ∈ tools →
  ∃ kind field,
    (kind = "query"
     ∧ field ∈ rootFields (schema this) (queryTypeName (schema this))
     ∨ kind = "mutation"
       ∧ field ∈ rootFields (schema this) (mutationTypeName (schema this)))
    ∧ operationFilter (config this) kind (field_name field) = true
    ∧ name (function f) = field_name field
    ∧ description (function f) = trim <$> field_description field
    ∧ params_type (parameters (function f)) = "object"
    ∧ textExtends (kind +:+ " " +:+ field_name field +:+ "(") (apiQuery f)
    ∧ apiExecutor f = factory_apiExecutor (functionFactory this)
    ∧ isValid (validate_definition (apiExecutor f) (function f)) = true.
Proof.
  intros H Hf.
  destruct (convertSchema_tools this tools lines f H Hf)
    as (kind & field & Hroot & Hfilter & Hconv).
  exists kind, field. split; [done|]. split; [done|].
  apply convertToApiFunction_tool in Hconv
    as (Hn & Hd & Ht & Hq & HK & Hex & Hv).
  repeat split; try done.
  by destruct Hroot as [[-> _]|[-> _]].
Qed.

Lemma convertSchema_value (this : GraphQLSchemaConverter) :
  convertSchema this
    = Ok (successfullyConverted this "query"
            (rootFields (schema this) (queryTypeName (schema this)))
          ++ successfullyConverted this "mutation"
               (rootFields (schema this) (mutationTypeName (schema this))),
          flat_map (logged this "query")
            (rootFields (schema this) (queryTypeName (schema this)))
          ++ flat_map (logged this "mutation")
               (rootFields (schema this) (mutationTypeName (schema this)))).
Proof.
  unfold convertSchema.
  rewrite !(mapM_total _ (λ field, (converted this _ field,
                                    logged this _ field)))
    by (intros; apply createApiFunction_total).
  simpl. by rewrite !filterBoolean_converted, !concat_logged.
Qed.

Lemma converted_name (this : GraphQLSchemaConverter) (kind : string)
    (field : GraphQLField) (f : APIFunction) :
  converted this kind field = Some f → getName f = field_name field.
Proof.
  unfold converted. destruct (operationFilter _ _ _); [|discriminate].
  destruct (convertToApiFunction this kind field) eqn:Hconv;
    try discriminate.
  intros [= <-]. by apply convertToApiFunction_tool in Hconv as (? & _).
Qed.

Lemma successfullyConverted_account (this : GraphQLSchemaConverter)
    (kind : string) (fields : list GraphQLField) :
  getName <$> successfullyConverted this kind fields
    `sublist_of` field_name <$> fields
  ∧ (length (successfullyConverted this kind fields)
     + length (flat_map (logged this kind) fields)
     = length (List.filter
                 (λ field, operationFilter (config this) kind
                                           (field_name field)) fields))%nat.
Proof.
  induction fields as [|field fields [IHs IHn]]; [by split|].
  cbn [successfullyConverted flat_map List.filter fmap list_fmap].
  rewrite length_app.
  pose proof (converted_name this kind field) as Hname.
  pose proof (convertToApiFunction_not_OutOfFuel this kind field) as Hfuel.
  unfold converted, logged in *.
  destruct (operationFilter _ _ _).
  - destruct (convertToApiFunction this kind field) as [f|e|]; [| |done].
    + split; [|simpl; lia]. cbn [fmap list_fmap].
      rewrite (Hname f eq_refl). by constructor.
    + split; [by constructor|simpl; lia].
  - split; [by constructor|simpl; lia].
Qed.

(** X6.  Every root field the operation filter accepts is accounted for
    exactly once: the number of tools returned plus the number of lines
    logged is the number of accepted fields of the query and mutation types.
    The names of the tools, in the order returned, are a subsequence of the
    field names of the query type followed by those of the mutation type. *)
Theorem convertSchema_accounts_for_every_field
    (this : GraphQLSchemaConverter) (tools : list APIFunction)
    (lines : list ErrorLine) :
  convertSchema this = Ok (tools, lines) →
  (length tools + length lines
   = length (List.filter
               (λ field, operationFilter (config this) "query"
                                         (field_name field))
               (rootFields (schema this) (queryTypeName (schema this))))
     + length (List.filter
                 (λ field, operationFilter (config this) "mutation"
                                           (field_name field))
                 (rootFields (schema this)
                             (mutationTypeName (schema this)))))%nat
  ∧ getName <$> tools
      `sublist_of`
      (field_name <$> rootFields (schema this) (queryTypeName (schema this)))
      ++ (field_name <$> rootFields (schema this)
                                    (mutationTypeName (schema this))).
Proof.
  rewrite convertSchema_value. intros H. apply Ok_inj in H.
  injection H as <- <-.
  destruct (successfullyConverted_account this "query"
              (rootFields (schema this) (queryTypeName (schema this))))
    as [Hs1 Hn1].
  destruct (successfullyConverted_account this "mutation"
              (rootFields (schema this) (mutationTypeName (schema this))))
    as [Hs2 Hn2].
  split.
  - rewrite !length_app. lia.
  - rewrite fmap_app. by apply sublist_app.
Qed.

(** X7.  [convertToApiFunction] does not look at the [success] flag of the
    root activation: when [maxDepth] is below 1, a field that returns an
    object type is cut at the root, and the tool is built all the same, with
    no parameters and a query whose variable list and selection are
    empty. *)
Theorem convertToApiFunction_cut_at_root (this : GraphQLSchemaConverter)
    (kind : string) (field : GraphQLField) :
  maxDepth (config this) < 1 →
  is_Some (asObjectType this (unwrapType (field_type field))) →
  convertToApiFunction this kind field
    = create (functionFactory this)
        (initializeFunctionDefinition (field_name field)
                                      (trim <$> field_description field))
        (toLowerCase kind +:+ " " +:+ field_name field +:+ "(" +:+ ") {"
         +:+ LF +:+ LF +:+ "}").
Proof.
  intros Hdepth Hobj. unfold convertToApiFunction, visitFuel.
  rewrite visit_cut.
  - simpl. by rewrite !append_assoc.
  - apply guardCuts_true. split; [done|]. right. simpl. lia.
Qed.

(* --------------------------------------------------------------------- *)
(** ** The operation parser *)
(* --------------------------------------------------------------------- *)

Lemma convertType_characterisation (type : TypeNode) :
  (containsNonNull type = true →
   convertType type = Throw "Unexpected type: NonNullType")
  ∧ (containsNonNull type = false →
     ∃ a, convertType type = Ok a).
Proof.
  induction type as [n|t [IH1 IH2]|t _]; simpl.
  - split; [discriminate|]. intros _. eauto.
  - split.
    + intros H. by rewrite (IH1 H).
    + intros H. destruct (IH2 H) as [a ->]. simpl. eauto.
  - split; [done|discriminate].
Qed.

(** X8.  The type mapper of the operation parser accepts exactly the
    variable types without a non-null wrapper: any such wrapper, at any
    depth below lists, makes it throw "Unexpected type: NonNullType".
    (The caller strips one wrapper at the top only, so a variable of type
    [[Int!]] cannot be converted.) *)
Theorem convertType_rejects_inner_non_null (type : TypeNode) :
  (containsNonNull type = true →
   convertType type = Throw "Unexpected type: NonNullType")
  ∧ (containsNonNull type = false →
     ∃ a, convertType type = Ok a).
Proof. apply convertType_characterisation. Qed.

Lemma convertVariableDefinitions_registers (text : string)
    (node : OperationDefinitionNode)
    (varDefs : list VariableDefinitionNode) :
  ∀ i params params',
    forOf (convertVariableDefinition text node) i varDefs params
      = Ok params' →
    params_type params' = params_type params
    ∧ dom (properties params')
      = dom (properties params) ∪ ownKeys (variable_name <$> varDefs)
    ∧ required params'
      = required params
        ++ (variable_name
              <$> List.filter
                    (λ v, match variable_type v with
                          | NonNullTypeNode _ => true
                          | _ => false
                          end) varDefs)
    ∧ Forall (λ v, containsNonNull (stripNonNull (variable_type v)) = false)
             varDefs.
Proof.
  induction varDefs as [|v vs IH]; intros i params params' H;
    cbn [forOf] in H.
  - apply Ok_inj in H as <-. split; [done|].
    split; [|simpl; by rewrite app_nil_r].
    apply set_eq. intros x. rewrite elem_of_union, elem_of_ownKeys. simpl.
    rewrite elem_of_nil. tauto.
  - inv_bind H. rename a into p1. apply IH in H as (Ht & Hd & Hr & Hall).
    unfold convertVariableDefinition in Hstep. inv_bind Hstep.
    apply Ok_inj in Hstep as <-.
    destruct (addParameter_dom params
                match variable_type v with
                | NonNullTypeNode _ => true
                | _ => false
                end (variable_name v)
                (set_description a
                   (parseNodeDescription text (variable_loc_start v)
                                         (fst <$> operation_loc node))))
      as [Hd1 Hr1].
    rewrite Ht, Hd, Hr, Hd1, Hr1. split; [done|]. split; [|split].
    + cbn [fmap list_fmap]. rewrite (ownKeys_cons _ (list_fmap _ _ _ vs)).
      apply set_eq. intros x. rewrite !elem_of_union. tauto.
    + cbn [List.filter]. rewrite <- app_assoc.
      by destruct (variable_type v).
    + constructor; [|done].
      destruct (containsNonNull (stripNonNull (variable_type v))) eqn:Hc;
        [|done].
      apply (proj1 (convertType_characterisation _)) in Hc.
      unfold stripNonNull in Hc. congruence.
Qed.

Lemma convertOperationDefinition_shape
    (node : OperationDefinitionNode) (text : string)
    (prevEnd : option nat) (def : FunctionDefinition) :
  convertOperationDefinition node text prevEnd = Ok def →
  operation node ≠ SUBSCRIPTION
  ∧ name def = definitionName (OperationDefinition node)
  ∧ params_type (parameters def) = "object"
  ∧ dom (properties (parameters def))
    = ownKeys (variable_name <$> variableDefinitions node)
  ∧ required (parameters def)
    = variable_name
        <$> List.filter
              (λ v, match variable_type v with
                    | NonNullTypeNode _ => true
                    | _ => false
                    end) (variableDefinitions node)
  ∧ Forall (λ v, containsNonNull (stripNonNull (variable_type v)) = false)
           (variableDefinitions node).
Proof.
  unfold convertOperationDefinition. intros H.
  assert (∀ params,
    forOf (convertVariableDefinition text node) 0
          (variableDefinitions node)
          {| params_type := "object"; properties := ∅; required := [] |}
      = Ok params →
    params_type params = "object"
    ∧ dom (properties params)
      = ownKeys (variable_name <$> variableDefinitions node)
    ∧ required params
      = variable_name
          <$> List.filter
                (λ v, match variable_type v with
                      | NonNullTypeNode _ => true
                      | _ => false
                      end) (variableDefinitions node)
    ∧ Forall (λ v, containsNonNull (stripNonNull (variable_type v)) = false)
             (variableDefinitions node)) as Hloop.
  { intros params Hrun.
    apply convertVariableDefinitions_registers in Hrun
      as (Ht & Hd & Hr & Hall).
    simpl in Ht, Hd, Hr. rewrite dom_empty_L in Hd.
    rewrite Hd, Hr. repeat split; try done.
    apply set_eq. intros x. rewrite elem_of_union, elem_of_empty. tauto. }
  destruct (operation node) eqn:Hop; [| |discriminate];
    (split; [discriminate|]);
    inv_bind H; apply Ok_inj in H as <-; simpl;
    (split; [done|]); by apply Hloop.
Qed.

(** X9.  The definition the operation parser builds for a query or a
    mutation: it bears the name of the operation, or the empty name when
    the operation is anonymous; its property keys are the names of the
    declared variables other than [__proto__], under which an assignment
    creates no key; [required] lists the variables whose type is non-null
    at the top, [__proto__] included, in declaration order; and no variable
    type holds a non-null wrapper below the top.  A subscription is
    rejected. *)
Theorem convertOperationDefinition_registers
    (node : OperationDefinitionNode) (text : string)
    (prevEnd : option nat) (def : FunctionDefinition) :
  convertOperationDefinition node text prevEnd = Ok def →
  operation node ≠ SUBSCRIPTION
  ∧ name def = definitionName (OperationDefinition node)
  ∧ params_type (parameters def) = "object"
  ∧ dom (properties (parameters def))
    = ownKeys (variable_name <$> variableDefinitions node)
  ∧ required (parameters def)
    = variable_name
        <$> List.filter
              (λ v, match variable_type v with
                    | NonNullTypeNode _ => true
                    | _ => false
                    end) (variableDefinitions node)
  ∧ Forall (λ v, containsNonNull (stripNonNull (variable_type v)) = false)
           (variableDefinitions node).
Proof. apply convertOperationDefinition_shape. Qed.

(** A loop that pushes one element per iteration collects, in order, one
    element for each element of the array. *)
Lemma forOf_collect {A B} (R : A -> B -> Prop)
    (body : nat -> A -> list B -> Outcome (list B)) (xs : list A) :
  (∀ i x ys ys', x ∈ xs → body i x ys = Ok ys' →
                 ∃ y, ys' = ys ++ [y] ∧ R x y) →
  ∀ i ys ys', forOf body i xs ys = Ok ys' →
              ∃ zs, ys' = ys ++ zs ∧ Forall2 R xs zs.
Proof.
  induction xs as [|x xs IH]; intros Hbody i ys ys' H; cbn [forOf] in H.
  - apply Ok_inj in H as <-. exists []. by rewrite app_nil_r.
  - inv_bind H.
    destruct (Hbody i x ys a (list_elem_of_here _ _) Hstep)
      as (y & -> & Hy).
    apply IH in H as (zs & -> & Hzs).
    + exists (y :: zs). rewrite <- app_assoc. split; [done|].
      by constructor.
    + intros j z ws ws' Hz. apply Hbody. by right.
Qed.

Lemma convertOperations_shape
    (this : GraphQLSchemaConverter) (text : string)
    (tools : list APIFunction) :
  convertOperations this text = Ok tools →
  ∃ definitions,
    parse text = Ok definitions
    ∧ definitions ≠ []
    ∧ Forall2
        (λ definition f,
           isExecutableOperation definition = true
           ∧ name (function f) = definitionName definition
           ∧ apiQuery f = extractOperation text (definition_loc definition)
           ∧ apiExecutor f = factory_apiExecutor (functionFactory this)
           ∧ isValid (validate_definition (apiExecutor f) (function f))
             = true)
        definitions tools.
Proof.
  unfold convertOperations. intros H. inv_bind H.
  rename a into definitions. exists definitions. split; [done|].
  destruct definitions as [|d ds]; [discriminate|]. split; [done|].
  cbn [length Nat.eqb] in H.
  eapply forOf_collect in H as (zs & -> & Hzs); [exact Hzs|].
  intros idx definition fs fs' _ Hbody. unfold convertDefinition in Hbody.
  destruct definition as [node|kind loc]; [|discriminate].
  inv_bind Hbody. inv_bind Hbody. apply Ok_inj in Hbody as <-.
  eexists. split; [done|].
  match goal with
  | Hc : create _ _ _ = Ok _ |- _ =>
      pose proof (create_validated _ _ _ _ Hc) as Hvalid;
      apply create_function in Hc as (Hf & _ & Hq & Hex)
  end.
  match goal with
  | Hd : convertOperationDefinition _ _ _ = Ok _ |- _ =>
      apply convertOperationDefinition_shape in Hd as (Hop & Hn & _)
  end.
  rewrite Hf, Hq, Hex. simpl. repeat split; try done.
  by destruct (operation node).
Qed.

(** X10.  When [convertOperations] returns, the document is not empty,
    every definition of it is a query or a mutation, and the tools
    correspond one to one, in document order, to the definitions: each tool
    bears the name of its operation, its query is the text
    [extractOperation] cuts out at the location of the operation, and it is
    bound to the executor of the factory, which accepts its definition. *)
Theorem convertOperations_one_tool_per_operation
    (this : GraphQLSchemaConverter) (text : string)
    (tools : list APIFunction) :
  convertOperations this text = Ok tools →
  ∃ definitions,
    parse text = Ok definitions
    ∧ definitions ≠ []
    ∧ Forall2
        (λ definition f,
           isExecutableOperation definition = true
           ∧ name (function f) = definitionName definition
           ∧ apiQuery f = extractOperation text (definition_loc definition)
           ∧ apiExecutor f = factory_apiExecutor (functionFactory this)
           ∧ isValid (validate_definition (apiExecutor f) (function f))
             = true)
        definitions tools.
Proof. apply convertOperations_shape. Qed.

(** X11.  What makes [convertOperations] fail: an empty document makes it
    throw "Operation definition contains no definitions", and it does not
    return when the document holds a definition that is not an operation,
    a subscription, or an operation with a variable whose type has a
    non-null wrapper below the top. *)
Theorem convertOperations_failures (this : GraphQLSchemaConverter)
    (text : string) (definitions : list DefinitionNode) :
  parse text = Ok definitions →
  (definitions = [] →
   convertOperations this text
     = Throw "Operation definition contains no definitions")
  ∧ (∀ definition, definition ∈ definitions →
       isExecutableOperation definition = false →
       ∀ tools, convertOperations this text ≠ Ok tools)
  ∧ (∀ node v, OperationDefinition node ∈ definitions →
       v ∈ variableDefinitions node →
       containsNonNull (stripNonNull (variable_type v)) = true →
       ∀ tools, convertOperations this text ≠ Ok tools).
Proof.
  intros Hparse. split; [|split].
  - intros ->. unfold convertOperations. by rewrite Hparse.
  - intros definition Hin Hnot tools H.
    apply convertOperations_shape in H
      as (ds & Hds & _ & Hall).
    rewrite Hparse in Hds. apply Ok_inj in Hds as <-.
    apply list_elem_of_lookup in Hin as [i Hi].
    destruct (Forall2_lookup_l _ _ _ _ _ Hall Hi) as (f & _ & Hex & _).
    congruence.
  - intros node v Hin Hv Hnn tools H.
    unfold convertOperations in H. rewrite Hparse in H. simpl in H.
    destruct (length definitions =? 0)%nat; [discriminate|].
    apply list_elem_of_split in Hin as (before & after & ->).
    rewrite forOf_app in H. inv_bind H. cbn [forOf] in H. inv_bind H.
    unfold convertDefinition in Hstep0. inv_bind Hstep0.
    match goal with
    | Hd : convertOperationDefinition _ _ _ = Ok _ |- _ =>
        apply convertOperationDefinition_shape in Hd
          as (_ & _ & _ & _ & _ & Hall)
    end.
    rewrite Forall_forall in Hall. specialize (Hall v Hv). congruence.
Qed.

(* --------------------------------------------------------------------- *)
(** ** The model-facing definition as a projection *)
(* --------------------------------------------------------------------- *)






(* --------------------------------------------------------------------- *)
(** ** Routing of tool calls *)
(* --------------------------------------------------------------------- *)

Lemma toolsMap_snoc (toolDefinitions : list APIFunction) (t : APIFunction) :
  toolsMap (toolDefinitions ++ [t])
    = <[getName t := t]> (toolsMap toolDefinitions).
Proof. unfold toolsMap. by rewrite foldl_app. Qed.

Lemma toolsMap_lookup (toolDefinitions : list APIFunction) (n : string) :
  toolsMap toolDefinitions !! n = routedTool toolDefinitions n.
Proof.
  unfold routedTool.
  induction toolDefinitions as [|t l IH] using rev_ind.
  - unfold toolsMap. simpl. by rewrite lookup_empty.
  - rewrite toolsMap_snoc, List.filter_app. cbn [List.filter].
    rewrite lookup_insert. case_decide as Hn.
    + rewrite bool_decide_eq_true_2 by done. by rewrite last_snoc.
    + rewrite bool_decide_eq_false_2 by done. by rewrite app_nil_r.
Qed.

Lemma or_empty_string (m : Outcome string) :
  (res ← m; Ok (if truthy res then res else "")) = m.
Proof. destruct m as [[|c s]| |]; done. Qed.

(** X14.  A call is routed by name to the last definition of that name:
    [executeTools] on one call is [validateAndExecute] of that tool on the
    arguments of the call with the default context, and the empty string
    when no definition has the name.  In particular a definition added at
    the end takes over the calls of its name and no others. *)
Theorem executeTools_routes_to_last_definition
    (toolDefinitions : list APIFunction) (call : ToolCall) :
  executeTool call toolDefinitions
    = match routedTool toolDefinitions (call_name call) with
      | Some apiFunction =>
          validateAndExecute apiFunction (call_arguments call) DefaultContext
      | None => Ok ""
      end
  ∧ (∀ t, getName t = call_name call →
          executeTool call (toolDefinitions ++ [t])
            = validateAndExecute t (call_arguments call) DefaultContext)
  ∧ (∀ t, getName t ≠ call_name call →
          executeTool call (toolDefinitions ++ [t])
            = executeTool call toolDefinitions).
Proof.
  assert (∀ defs, executeTool call defs
            = match routedTool defs (call_name call) with
              | Some apiFunction =>
                  validateAndExecute apiFunction (call_arguments call)
                                     DefaultContext
              | None => Ok ""
              end) as Hroute.
  { intros defs. unfold executeTool. rewrite toolsMap_lookup.
    destruct (routedTool defs (call_name call)); [|done].
    apply or_empty_string. }
  split; [apply Hroute|]. split.
  - intros t Ht. rewrite Hroute. unfold routedTool.
    rewrite List.filter_app. cbn [List.filter].
    rewrite bool_decide_eq_true_2 by done. by rewrite last_snoc.
  - intros t Ht. rewrite !Hroute. unfold routedTool.
    rewrite List.filter_app. cbn [List.filter].
    rewrite bool_decide_eq_false_2 by done. by rewrite app_nil_r.
Qed.

(* --------------------------------------------------------------------- *)
(** ** The prefix filter *)
(* --------------------------------------------------------------------- *)

(** X15.  The operation filter built by [ignorePrefix]: it does not depend
    on the kind of operation; without prefixes it accepts every name; with
    two lists of prefixes it accepts what both lists accept; and a prefix
    that is empty once trimmed makes it reject every name. *)
Theorem ignorePrefix_properties (prefixes : list string) (name_ : string) :
  (∀ kind kind', ignorePrefix prefixes kind name_
                 = ignorePrefix prefixes kind' name_)
  ∧ (∀ kind, ignorePrefix [] kind name_ = true)
  ∧ (∀ kind more,
       ignorePrefix (prefixes ++ more) kind name_
         = ignorePrefix prefixes kind name_ && ignorePrefix more kind name_)
  ∧ (∀ kind p, p ∈ prefixes → toLowerCase (trim p) = "" →
               ignorePrefix prefixes kind name_ = false).
Proof.
  unfold ignorePrefix. split; [done|]. split; [done|]. split.
  - intros kind more. by rewrite map_app, existsb_app, negb_orb.
  - intros kind p Hp Hempty. apply negb_false_iff, existsb_exists.
    exists "". split.
    + rewrite <- Hempty.
      apply (in_map (λ p, toLowerCase (trim p))). by apply list_elem_of_In.
    + unfold startsWith. by destruct (toLowerCase (trim name_)).
Qed.

(* --------------------------------------------------------------------- *)
(** ** Contexts along a path of fields *)
(* --------------------------------------------------------------------- *)

Lemma combineStrings_empty (suffix : string) :
  combineStrings "" suffix = suffix.
Proof. done. Qed.

Lemma combineStrings_nonempty (prefix_ suffix : string) :
  truthy prefix_ = true →
  combineStrings prefix_ suffix = prefix_ +:+ "_" +:+ suffix
  ∧ truthy (combineStrings prefix_ suffix) = true.
Proof.
  unfold combineStrings. intros ->. split; [done|]. by destruct prefix_.
Qed.

Lemma concat_cons_appendEach (sep x : string) (xs : list string) :
  String.concat sep (x :: xs) = x +:+ appendEach sep xs.
Proof.
  revert x. induction xs as [|y ys IH]; intros x.
  - simpl. by rewrite append_empty_r.
  - change (String.concat sep (x :: y :: ys))
      with (x +:+ sep +:+ String.concat sep (y :: ys)).
    by rewrite IH.
Qed.

Lemma descend_prefix_nonempty (steps : list (string * string * nat)) :
  ∀ context,
    truthy (prefix context) = true →
    prefix (descend context steps)
      = prefix context +:+ appendEach "_" (map (λ s, s.1.1) steps)
    ∧ truthy (prefix (descend context steps)) = true.
Proof.
  induction steps as [|[[n t] k] steps IH]; intros context Hp.
  - simpl. by rewrite append_empty_r.
  - unfold descend. cbn [foldl]. fold (descend (nested context n t k) steps).
    destruct (combineStrings_nonempty (prefix context) n Hp) as [Hc Ht].
    destruct (IH (nested context n t k) Ht) as [-> Htr]. split; [|done].
    cbn [prefix nested map appendEach fst]. rewrite Hc.
    by rewrite !append_assoc.
Qed.

(** X16.  The context reached from the root of an operation through a path
    of fields: its path lists the object types passed, its count is the sum
    of the counts added, its operation name is the root's followed by the
    field names each after a dot, and, the field names being non-empty, its
    flat-name prefix is the field names joined by underscores. *)
Theorem descend_from_root (opName : string)
    (steps : list (string * string * nat)) :
  Forall (λ s, s.1.1 ≠ "") steps →
  let context := descend {| operationName := opName; prefix := "";
                            numArgs := 0; path := [] |} steps in
  path context = map (λ s, s.1.2) steps
  ∧ numArgs context = sum_list (map snd steps)
  ∧ operationName context
    = opName +:+ appendEach "." (map (λ s, s.1.1) steps)
  ∧ prefix context = String.concat "_" (map (λ s, s.1.1) steps).
Proof.
  intros Hnames. cbv zeta.
  assert (∀ steps context,
            path (descend context steps)
              = path context ++ map (λ s, s.1.2) steps
            ∧ numArgs (descend context steps)
              = (numArgs context + sum_list (map snd steps))%nat
            ∧ operationName (descend context steps)
              = operationName context
                +:+ appendEach "." (map (λ s, s.1.1) steps)) as Hgen.
  { clear. induction steps as [|[[n t] k] steps IH]; intros context.
    - simpl. by rewrite app_nil_r, Nat.add_0_r, append_empty_r.
    - unfold descend. cbn [foldl].
      fold (descend (nested context n t k) steps).
      destruct (IH (nested context n t k)) as (-> & -> & ->).
      cbn [path numArgs operationName nested map appendEach fst snd
           sum_list sum_list_with].
      rewrite <- app_assoc, !append_assoc. repeat split; try done.
      simpl. lia. }
  destruct (Hgen steps {| operationName := opName; prefix := "";
                          numArgs := 0; path := [] |}) as (Hp & Hn & Ho).
  split; [exact Hp|]. split; [exact Hn|]. split; [exact Ho|].
  destruct steps as [|[[n t] k] steps]; [done|].
  apply Forall_cons in Hnames as [Hn1 _]. simpl in Hn1.
  unfold descend. cbn [foldl].
  fold (descend (nested {| operationName := opName; prefix := "";
                           numArgs := 0; path := [] |} n t k) steps).
  destruct (descend_prefix_nonempty steps
              (nested {| operationName := opName; prefix := "";
                         numArgs := 0; path := [] |} n t k)) as [-> _].
  - simpl. by destruct n.
  - cbn [map fst]. rewrite concat_cons_appendEach. done.
Qed.

(* --------------------------------------------------------------------- *)
(** ** Operations whose nested fields declare no arguments *)
(* --------------------------------------------------------------------- *)

(** [inv_bind] with the names given. *)
Ltac inv_bind_as H a Ha :=
  apply bind_Ok_inv in H; destruct H as (a & Ha & H).

(** A field without arguments whose selection never meets a field with
    arguments contributes no variable declaration and no parameter. *)
Lemma visit_without_arguments (this : GraphQLSchemaConverter)
    (below : string -> Prop) :
  (∀ n fields child,
     below n → asObjectType this n = Some fields → child ∈ fields →
     field_args child = [] ∧ below (unwrapType (field_type child))) →
  ∀ fuel field params context res params',
    field_args field = [] → below (unwrapType (field_type field)) →
    visit fuel this field params context = Ok (res, params') →
    queryParams res = "" ∧ params' = params.
Proof.
  intros Hclosed.
  induction fuel as [|fuel IH]; intros field params context res params'
    Hnone Hbelow H; [discriminate|].
  simpl in H. destruct (guardCuts this field context).
  { apply Ok_inj in H. by injection H as <- <-. }
  unfold visitArguments in H. rewrite Hnone in H. simpl in H.
  inv_bind_as H st2 Hexp. apply Ok_inj in H. injection H as <- <-. simpl.
  destruct (asObjectType this _) as [fields|] eqn:Hobj;
    [|by apply Ok_inj in Hexp as <-].
  inv_bind_as Hexp acc Hloop. destruct acc as [st' atLeastOneField].
  destruct (negb atLeastOneField); [discriminate|].
  apply Ok_inj in Hexp as <-. simpl.
  eapply (forOf_invariant
            (λ acc, st_queryParams (fst acc) = ""
                    ∧ st_params (fst acc) = params)) in Hloop;
    [exact Hloop| |done].
  intros j child [s b] [s' b'] Hin [Hq Hp] Hbody. unfold visitChild in Hbody.
  inv_bind_as Hbody rp Hchild. destruct rp as [r p]. apply Ok_inj in Hbody.
  injection Hbody as <- _. simpl in *.
  destruct (Hclosed _ _ _ Hbelow Hobj Hin) as [Hargs Hb].
  rewrite Hp in Hchild.
  destruct (IH _ _ _ _ _ Hargs Hb Hchild) as [-> ->]. by rewrite Hq.
Qed.

(** X17.  When no field in the selection below an operation declares
    arguments, the operation's own arguments are all there is: the variable
    list is the declarations of the processed arguments, comma-separated
    when the context counts no argument yet (as at the root), the property
    keys added are their flat names other than [__proto__], under which an
    assignment creates no key, and [required] is extended by the flat names
    of the non-null ones. *)
Theorem visit_with_arguments_at_the_root_only
    (this : GraphQLSchemaConverter) (below : string -> Prop) (fuel : nat)
    (field : GraphQLField) (params : FunctionDefinitionParameters)
    (context : VisitContext) (res : VisitResult)
    (params' : FunctionDefinitionParameters) :
  (∀ n fields child,
     below n → asObjectType this n = Some fields → child ∈ fields →
     field_args child = [] ∧ below (unwrapType (field_type child))) →
  below (unwrapType (field_type field)) →
  guardCuts this field context = false →
  visit fuel this field params context = Ok (res, params') →
  queryParams res
    = appendDeclared (numArgs context) (declarations this context field)
  ∧ (numArgs context = 0%nat →
     queryParams res = commaSeparated (declarations this context field))
  ∧ dom (properties params')
    = dom (properties params)
      ∪ ownKeys (parameterNames this context field)
  ∧ required params' = required params ++ requiredNames this context field.
Proof.
  intros Hclosed Hbelow Hguard H.
  destruct fuel as [|fuel]; [discriminate|]. simpl in H. rewrite Hguard in H.
  inv_bind_as H st Hargs.
  destruct (visitArguments_header _ _ _ _ _ Hargs) as (Hq & _ & Hroot).
  destruct (visitArguments_names _ _ _ _ _ Hargs) as (Hd & Hr & _).
  inv_bind_as H st2 Hexp. apply Ok_inj in H. injection H as <- <-. simpl.
  assert (st_queryParams st2 = st_queryParams st
          ∧ st_params st2 = st_params st) as [-> ->].
  { destruct (asObjectType this _) as [fields|] eqn:Hobj;
      [|by apply Ok_inj in Hexp as <-].
    inv_bind_as Hexp acc Hloop. destruct acc as [st' atLeastOneField].
    destruct (negb atLeastOneField); [discriminate|].
    apply Ok_inj in Hexp as <-. simpl.
    eapply (forOf_invariant
              (λ acc, st_queryParams (fst acc) = st_queryParams st
                      ∧ st_params (fst acc) = st_params st)) in Hloop;
      [exact Hloop| |done].
    intros j child [s b] [s' b'] Hin [Hqs Hps] Hbody.
    unfold visitChild in Hbody. inv_bind_as Hbody rp Hchild.
    destruct rp as [r p].
    apply Ok_inj in Hbody. injection Hbody as <- _. simpl in *.
    destruct (Hclosed _ _ _ Hbelow Hobj Hin) as [Hnone Hb].
    destruct (visit_without_arguments this below Hclosed _ _ _ _ _ _
                Hnone Hb Hchild) as [-> ->].
    by rewrite append_empty_r. }
  done.
Qed.

(* --------------------------------------------------------------------- *)
(** ** The argument list in the later revision *)
(* --------------------------------------------------------------------- *)

Lemma bindingText_no_comma (context : VisitContext) (node : GraphQLArgument) :
  beginsWithComma (arg_name node) = false →
  startsWith (bindingText context node) ", " = false.
Proof.
  unfold bindingText, startsWith. destruct (arg_name node) as [|c s]; [done|].
  intros Hc. rewrite append_cons. cbn [String.prefix beginsWithComma] in *.
  destruct (ascii_dec "," c) as [<-|]; [discriminate|done].
Qed.

Lemma startsWith_comma (t : string) : startsWith (", " +:+ t) ", " = true.
Proof.
  unfold startsWith. rewrite !append_cons. cbn [String.prefix].
  destruct (ascii_dec "," ","); [|done].
  destruct (ascii_dec " " " "); [|done]. by destruct ("" +:+ t).
Qed.

Lemma substringFrom_comma (t : string) : substringFrom 2 (", " +:+ t) = t.
Proof. reflexivity. Qed.

Lemma processField_body (this : GraphQLSchemaConverter)
    (st : VisitState) (context : VisitContext) (node : GraphQLArgument)
    (d : option string) (pd : ProcessedData)
    (params' : FunctionDefinitionParameters) :
  processField this (st_params st) context (st_numArgs st)
               (convertRequired (arg_type node)) (flatName context node)
               (arg_name node) d = Ok (pd, params') →
  pd_queryBody pd
    = (if (0 <? st_numArgs st)%nat then ", " else "")
      +:+ bindingText context node.
Proof.
  intros H. by apply processField_punctuation in H as (_ & -> & _).
Qed.

(** The first field of a flattened input object, in the later revision: its
    binding is appended without a comma, whatever the running count. *)
Lemma visitNestedField_first (this : GraphQLSchemaConverter)
    (context : VisitContext) (loc : option nat)
    (nestedField : GraphQLInputField) (st st' : VisitState) :
  revision this = Rev2 →
  beginsWithComma (arg_name nestedField) = false →
  visitNestedField this context loc 0 nestedField st = Ok st' →
  st_queryBody st' = st_queryBody st +:+ bindingText context nestedField
  ∧ st_numArgs st' = Datatypes.S (st_numArgs st).
Proof.
  intros Hrev Hname H. unfold visitNestedField in H.
  inv_bind_as H processed Hp. destruct processed as [pd params'].
  apply processField_body in Hp. apply Ok_inj in H as <-.
  rewrite Hrev. unfold splice. cbn [st_queryBody st_numArgs Nat.eqb andb].
  split; [|done]. f_equal. rewrite Hp.
  destruct (0 <? st_numArgs st)%nat.
  - by rewrite startsWith_comma, substringFrom_comma.
  - change ("" +:+ bindingText context nestedField)
      with (bindingText context nestedField).
    by rewrite bindingText_no_comma.
Qed.

Lemma visitNestedFields_later (this : GraphQLSchemaConverter)
    (context : VisitContext) (loc : option nat)
    (nestedFields : list GraphQLInputField) :
  ∀ j st st',
    (0 < j)%nat → (0 < st_numArgs st)%nat →
    forOf (visitNestedField this context loc) j nestedFields st = Ok st' →
    st_queryBody st'
      = st_queryBody st
        +:+ appendEach ", " (map (bindingText context) nestedFields)
    ∧ (0 < st_numArgs st')%nat.
Proof.
  induction nestedFields as [|f fs IH]; intros j st st' Hj Hn H;
    cbn [forOf] in H.
  - apply Ok_inj in H as <-. simpl. by rewrite append_empty_r.
  - inv_bind_as H st1 Hf.
    apply visitNestedField_punctuation in Hf as [Hn1 Hb1].
    specialize (Hb1 Hn).
    apply IH in H as [-> Hpos]; [|lia|lia]. split; [|done].
    rewrite Hb1 by (right; lia).
    cbn [map appendEach]. unfold bindingText, flatName.
    by rewrite !append_assoc.
Qed.

Lemma visitNestedFields_body (this : GraphQLSchemaConverter)
    (context : VisitContext) (loc : option nat)
    (nestedFields : list GraphQLInputField) (st st' : VisitState) :
  revision this = Rev2 →
  nestedFields ≠ [] →
  Forall (λ f, beginsWithComma (arg_name f) = false) nestedFields →
  forOf (visitNestedField this context loc) 0 nestedFields st = Ok st' →
  st_queryBody st'
    = st_queryBody st
      +:+ commaSeparated (map (bindingText context) nestedFields)
  ∧ (0 < st_numArgs st')%nat.
Proof.
  intros Hrev Hne Hnames H. destruct nestedFields as [|f fs]; [done|].
  apply Forall_cons in Hnames as [Hf _]. cbn [forOf] in H.
  inv_bind_as H st1 Hfirst.
  apply visitNestedField_first in Hfirst as [Hb1 Hn1]; [|done|done].
  apply visitNestedFields_later in H as [-> Hpos]; [|lia|lia].
  split; [|done]. rewrite Hb1. unfold commaSeparated. cbn [map].
  by rewrite concat_cons_appendEach, !append_assoc.
Qed.

(** One argument, in the later revision, when the index and the running
    count are zero together. *)
Lemma visitArgument_body (this : GraphQLSchemaConverter)
    (field : GraphQLField) (context : VisitContext) (i : nat)
    (arg : GraphQLArgument) (st st' : VisitState) :
  revision this = Rev2 →
  flattensCleanly this arg →
  (i = 0%nat ↔ st_numArgs st = 0%nat) →
  visitArgument this field context i arg st = Ok st' →
  st_queryBody st'
    = st_queryBody st +:+ (if (i =? 0)%nat then "" else ", ")
      +:+ argumentText this context arg
  ∧ (0 < st_numArgs st')%nat.
Proof.
  intros Hrev Hclean Hlink H. unfold visitArgument in H.
  unfold flattensCleanly in Hclean. unfold argumentText.
  destruct (asInputObjectType this _) as [[nestedFields loc]|].
  - destruct Hclean as [Hne Hnames]. inv_bind_as H st1 Hloop.
    apply Ok_inj in H as <-.
    apply visitNestedFields_body in Hloop as [Hb Hpos]; try done.
    cbn [appendBody st_queryBody st_numArgs] in *. split; [|done].
    rewrite Hb, Hrev. by rewrite !append_assoc.
  - inv_bind_as H processed Hp. destruct processed as [pd params'].
    apply processField_body in Hp. apply Ok_inj in H as <-.
    unfold splice. cbn [st_queryBody st_numArgs andb]. split; [|lia].
    rewrite Hp. f_equal. f_equal.
    destruct i as [|i], (st_numArgs st) as [|n]; try done.
    + destruct Hlink as [Hl _]. by specialize (Hl eq_refl).
    + destruct Hlink as [_ Hl]. by specialize (Hl eq_refl).
Qed.

Lemma visitArgument_body_later (this : GraphQLSchemaConverter)
    (field : GraphQLField) (context : VisitContext)
    (args : list GraphQLArgument) :
  revision this = Rev2 →
  Forall (flattensCleanly this) args →
  ∀ i st st',
    (0 < i)%nat → (0 < st_numArgs st)%nat →
    forOf (visitArgument this field context) i args st = Ok st' →
    st_queryBody st'
      = st_queryBody st
        +:+ appendEach ", " (map (argumentText this context) args).
Proof.
  intros Hrev. induction args as [|arg args IH]; intros Hclean i st st' Hi Hn H;
    cbn [forOf] in H.
  - apply Ok_inj in H as <-. simpl. by rewrite append_empty_r.
  - apply Forall_cons in Hclean as [Harg Hrest]. inv_bind_as H st1 Hfirst.
    apply visitArgument_body in Hfirst as [Hb Hpos]; [|done|done|lia].
    apply IH in H as ->; [|done|lia|done].
    rewrite Hb. destruct i as [|i]; [lia|].
    cbn [Nat.eqb map appendEach]. by rewrite !append_assoc.
Qed.

(** X18.  The later revision punctuates the argument list of a field as
    intended: provided every flattened input object has a field and no name
    of such a field begins with a comma, the body an activation builds for
    its field is the field name, followed, when the field has arguments, by
    their texts comma-separated in parentheses, the text of an input object
    being its name and the comma-separated bindings of its fields in
    braces. *)
Theorem visitArguments_body_later_revision (this : GraphQLSchemaConverter)
    (field : GraphQLField) (context : VisitContext)
    (params : FunctionDefinitionParameters) (st : VisitState) :
  revision this = Rev2 →
  Forall (flattensCleanly this) (field_args field) →
  visitArguments this field context params = Ok st →
  st_queryBody st
    = field_name field
      +:+ match field_args field with
          | [] => ""
          | args =>
              "(" +:+ commaSeparated (map (argumentText this context) args)
              +:+ ")"
          end.
Proof.
  intros Hrev Hclean H. unfold visitArguments in H.
  destruct (field_args field) as [|arg args] eqn:Hargs.
  - simpl in H. apply Ok_inj in H as <-. simpl. by rewrite append_empty_r.
  - cbn [length Nat.ltb Nat.leb] in H. inv_bind_as H st1 Hloop.
    apply Ok_inj in H as <-. cbn [forOf] in Hloop.
    inv_bind_as Hloop st2 Hfirst.
    apply Forall_cons in Hclean as [Harg Hrest].
    apply visitArgument_body in Hfirst as [Hb Hpos]; [|done|done|done].
    apply visitArgument_body_later in Hloop as Hb2; [|done|done|lia|done].
    cbn [appendBody st_queryBody Nat.eqb] in *.
    rewrite Hb2, Hb. unfold commaSeparated. cbn [map].
    by rewrite concat_cons_appendEach, !append_assoc.
Qed.

(* --------------------------------------------------------------------- *)
(** ** The text helper of the operation parser *)
(* --------------------------------------------------------------------- *)

Lemma indexOf_app (c : ascii) (s t : string) :
  Source.indexOf c (s +:+ t) = None
  ↔ Source.indexOf c s = None ∧ Source.indexOf c t = None.
Proof.
  induction s as [|c' s IH].
  - change ("" +:+ t) with t. simpl. tauto.
  - rewrite append_cons. cbn [Source.indexOf].
    destruct (Ascii.eqb c' c).
    + split; [done|]. by intros [? _].
    + by rewrite !fmap_None.
Qed.

Lemma indexOf_contains (c : ascii) (s sub : string) :
  contains s sub → Source.indexOf c s = None → Source.indexOf c sub = None.
Proof.
  intros (pre & post & ->) H.
  apply indexOf_app in H as [_ H]. by apply indexOf_app in H as [H _].
Qed.

Lemma indexOf_Some (c : ascii) (s : string) (p : nat) :
  Source.indexOf c s = Some p →
  ∃ pre post,
    s = pre +:+ String c post ∧ String.length pre = p
    ∧ Source.indexOf c pre = None.
Proof.
  revert p. induction s as [|c' s IH]; intros p H; [done|].
  cbn [Source.indexOf] in H. destruct (Ascii.eqb_spec c' c) as [->|Hc].
  - apply (inj Some) in H as <-. by exists "", s.
  - destruct (Source.indexOf c s) as [q|] eqn:Hq; [|done].
    apply (inj Some) in H as <-.
    destruct (IH q eq_refl) as (pre & post & -> & <- & Hpre).
    exists (String c' pre), post. split; [done|]. split; [done|].
    cbn [Source.indexOf]. destruct (Ascii.eqb_spec c' c); [done|].
    by rewrite Hpre.
Qed.

Lemma String_substring_prefix (pre post : string) :
  String.substring 0 (String.length pre) (pre +:+ post) = pre.
Proof.
  induction pre as [|c pre IH].
  - by destruct ("" +:+ post).
  - rewrite append_cons. cbn [String.length String.substring]. by rewrite IH.
Qed.

Lemma length_append (s t : string) :
  String.length (s +:+ t) = (String.length s + String.length t)%nat.
Proof.
  induction s as [|c s IH]; [done|].
  rewrite append_cons. cbn [String.length]. by rewrite IH.
Qed.

(** [s.substring(0, p)] is the prefix of length [p]. *)
Lemma substring_prefix (pre post : string) :
  Source.substring (pre +:+ post) 0 (String.length pre) = pre.
Proof.
  unfold Source.substring. rewrite length_append.
  rewrite (Nat.min_l (String.length pre)) by lia.
  cbn [Nat.min Nat.max]. rewrite Nat.sub_0_r. apply String_substring_prefix.
Qed.

Lemma substring_whole (s : string) :
  Source.substring s 0 (String.length s) = s.
Proof.
  rewrite <- (append_empty_r s) at 1. apply substring_prefix.
Qed.

Lemma split_pieces (sep : ascii) (s : string) :
  Forall (λ piece, Source.indexOf sep piece = None) (Source.split sep s).
Proof.
  induction s as [|c s IH]; [by repeat constructor|].
  cbn [Source.split]. destruct (Ascii.eqb c sep) eqn:Hc.
  - by constructor.
  - destruct (Source.split sep s) as [|piece pieces].
    + repeat constructor. cbn [Source.indexOf]. by rewrite Hc.
    + apply Forall_cons in IH as [Hpiece Hpieces]. constructor; [|done].
      cbn [Source.indexOf]. by rewrite Hc, Hpiece.
Qed.

Lemma split_one (sep : ascii) (s : string) :
  Source.indexOf sep s = None → Source.split sep s = [s].
Proof.
  induction s as [|c s IH]; [done|]. cbn [Source.indexOf Source.split].
  destruct (Ascii.eqb c sep); [done|].
  destruct (Source.indexOf sep s); [done|]. intros _. by rewrite IH.
Qed.

Lemma split_append (sep : ascii) (s rest : string) :
  Source.indexOf sep s = None →
  Source.split sep (s +:+ String sep rest) = s :: Source.split sep rest.
Proof.
  induction s as [|c s IH].
  - intros _. change ("" +:+ String sep rest) with (String sep rest).
    cbn [Source.split]. by rewrite Ascii.eqb_refl.
  - rewrite append_cons. cbn [Source.indexOf Source.split].
    destruct (Ascii.eqb c sep); [done|].
    destruct (Source.indexOf sep s); [done|]. intros _. by rewrite IH.
Qed.

(** Splitting undoes joining, for pieces that hold no separator. *)
Lemma split_concat (sep : ascii) (pieces : list string) :
  pieces ≠ [] →
  Forall (λ piece, Source.indexOf sep piece = None) pieces →
  Source.split sep (String.concat (String sep "") pieces) = pieces.
Proof.
  induction pieces as [|piece pieces IH]; [done|]. intros _ Hall.
  apply Forall_cons in Hall as [Hpiece Hpieces].
  destruct pieces as [|piece' pieces].
  - by apply split_one.
  - change (String.concat (String sep "") (piece :: piece' :: pieces))
      with (piece +:+ String sep ""
            +:+ String.concat (String sep "") (piece' :: pieces)).
    rewrite append_cons.
    change ("" +:+ String.concat (String sep "") (piece' :: pieces))
      with (String.concat (String sep "") (piece' :: pieces)).
    rewrite split_append by done. by rewrite IH.
Qed.

Lemma indexOf_concat (c sep : ascii) (pieces : list string) :
  c ≠ sep →
  Forall (λ piece, Source.indexOf c piece = None) pieces →
  Source.indexOf c (String.concat (String sep "") pieces) = None.
Proof.
  intros Hc. induction pieces as [|piece pieces IH]; [done|]. intros Hall.
  apply Forall_cons in Hall as [Hpiece Hpieces].
  destruct pieces as [|piece' pieces]; [done|].
  change (String.concat (String sep "") (piece :: piece' :: pieces))
    with (piece +:+ String sep ""
          +:+ String.concat (String sep "") (piece' :: pieces)).
  apply indexOf_app. split; [done|]. apply indexOf_app. split; [|by apply IH].
  cbn [Source.indexOf]. by destruct (Ascii.eqb_spec sep c).
Qed.

(** A line that is cut and trimmed holds neither a ["#"] nor a line feed,
    provided [trim] returns a part of its argument. *)
Lemma stripComment_clean (line : string) :
  (∀ s, contains s (trim s)) →
  Source.indexOf Source.newline line = None →
  Source.indexOf "#" (Source.stripComment trim line) = None
  ∧ Source.indexOf Source.newline (Source.stripComment trim line) = None.
Proof.
  intros Htrim Hline. unfold Source.stripComment.
  destruct (Source.indexOf "#" line) as [p|] eqn:Hp; [|done].
  apply indexOf_Some in Hp as (pre & post & -> & <- & Hpre).
  rewrite substring_prefix. apply indexOf_app in Hline as [Hline _].
  split; eapply indexOf_contains; try apply Htrim; done.
Qed.

(** The lines [extractOperation] joins. *)
Lemma extractOperation_lines (text : string) (location : option (nat * nat)) :
  (∀ s, contains s (trim s)) →
  ∃ lines,
    Source.extractOperation trim text location = String.concat LF lines
    ∧ Forall (λ line, line ≠ ""
                      ∧ Source.indexOf "#" line = None
                      ∧ Source.indexOf Source.newline line = None) lines.
Proof.
  intros Htrim. unfold Source.extractOperation.
  set (queryString := Source.substring text _ _). clearbody queryString.
  eexists. split; [done|].
  pose proof (split_pieces Source.newline queryString) as Hpieces.
  induction (Source.split Source.newline queryString) as [|piece pieces IH];
    [done|].
  apply Forall_cons in Hpieces as [Hpiece Hpieces]. cbn [map List.filter].
  destruct (stripComment_clean piece Htrim Hpiece) as [Hhash Hfeed].
  destruct (truthy (Source.stripComment trim piece)) eqn:Htruthy;
    [|by apply IH].
  constructor; [|by apply IH].
  split; [|done]. intros Hempty. by rewrite Hempty in Htruthy.
Qed.

(** X19.  What [extractOperation] returns holds no ["#"], hence no comment,
    and no empty line: it is empty, or each of its lines is not.  This
    relies on [trim] returning a part of its argument. *)
Theorem extractOperation_strips_comments (text : string)
    (location : option (nat * nat)) :
  (∀ s, contains s (trim s)) →
  Source.indexOf "#" (Source.extractOperation trim text location) = None
  ∧ (Source.extractOperation trim text location = ""
     ∨ Forall (λ line, line ≠ "")
              (Source.split Source.newline
                            (Source.extractOperation trim text location))).
Proof.
  intros Htrim.
  destruct (extractOperation_lines text location Htrim) as (lines & -> & H).
  split.
  - apply (indexOf_concat "#" Source.newline); [done|].
    eapply Forall_impl; [exact H|]. by intros line (_ & ? & _).
  - destruct lines as [|line lines]; [by left|]. right.
    unfold LF. rewrite split_concat; [|done|].
    + eapply Forall_impl; [exact H|]. by intros ? (? & _).
    + eapply Forall_impl; [exact H|]. by intros ? (_ & _ & ?).
Qed.

(** X20.  [extractOperation] is idempotent: applied to its own result, with
    no location, it returns that result unchanged.  This relies on [trim]
    returning a part of its argument. *)
Theorem extractOperation_idempotent (text : string)
    (location : option (nat * nat)) :
  (∀ s, contains s (trim s)) →
  Source.extractOperation trim
    (Source.extractOperation trim text location) None
  = Source.extractOperation trim text location.
Proof.
  intros Htrim.
  destruct (extractOperation_lines text location Htrim) as (lines & -> & H).
  unfold Source.extractOperation at 1. rewrite substring_whole.
  destruct lines as [|line lines]; [done|].
  unfold LF. rewrite split_concat; [|done|].
  - f_equal. clear -H. induction H as [|l ls (Hne & Hhash & _) _ IH]; [done|].
    cbn [map List.filter].
    assert (Source.stripComment trim l = l) as ->
      by (unfold Source.stripComment; by rewrite Hhash).
    destruct l; [done|]. cbn [truthy]. by rewrite IH.
  - eapply Forall_impl; [exact H|]. by intros ? (_ & _ & ?).
Qed.

(** X21.  With a host whose [extractOperation] is the one of the converter,
    no tool [convertOperations] builds carries a ["#"] in its query: the
    comments of the document do not reach the backend. *)
Theorem convertOperations_queries_without_comments
    (this : GraphQLSchemaConverter) (text : string)
    (tools : list APIFunction) :
  (∀ t location, extractOperation t location
                 = Source.extractOperation trim t location) →
  (∀ s, contains s (trim s)) →
  convertOperations this text = Ok tools →
  Forall (λ f, Source.indexOf "#" (apiQuery f) = None) tools.
Proof.
  intros Hhost Htrim H.
  apply convertOperations_shape in H as (definitions & _ & _ & Hall).
  induction Hall as [|definition f definitions tools Hf _ IH];
    constructor; [|done].
  destruct Hf as (_ & _ & -> & _). rewrite Hhost.
  destruct (extractOperation_lines text (definition_loc definition) Htrim)
    as (lines & -> & Hlines).
  apply (indexOf_concat "#" Source.newline); [done|].
  eapply Forall_impl; [exact Hlines|]. by intros line (_ & ? & _).
Qed.
End Properties.

(* ===================================================================== *)
(** * The properties on concrete schemas and tools *)
(* ===================================================================== *)

#[local] Existing Instance Examples.host.
Import Examples.

Lemma convertSchema_orders :
  convertSchema ordersConverter = Ok ([ordersTool], []).
Proof. vm_compute. reflexivity. Qed.

(** The tool built for [orders] satisfies the Parameter Schema invariant. *)
Example orders_required_names :
  required_in_properties (parameters (function ordersTool)).
Proof. apply required_in_propertiesb_spec. vm_compute. reflexivity. Qed.

(** C1.  The Parameter Schema invariant fails for a parameter whose flat
    name is [__proto__]: the name is pushed onto [required], and the
    assignment [properties["__proto__"] = argDef] creates no key.  In the
    traversal this is the argument [proto__] of a field [_] below the
    operation, in either revision; in the operation parser it is the
    variable [$__proto__]. *)
Theorem required_name_without_property :
  (∀ rev,
     ∃ tool,
       convertSchema (mkConverter rev protoSchema 3 []) = Ok ([tool], [])
       ∧ required (parameters (function tool)) = ["__proto__"]
       ∧ properties (parameters (function tool)) = ∅
       ∧ ¬ required_in_properties (parameters (function tool)))
  ∧ (∃ def,
       convertOperationDefinition protoOperation
                                  "query Q($__proto__: Int!) { f }" None
         = Ok def
       ∧ required (parameters def) = ["__proto__"]
       ∧ properties (parameters def) = ∅
       ∧ ¬ required_in_properties (parameters def)).
Proof.
  assert (∀ p, required p = ["__proto__"] → properties p = ∅ →
               ¬ required_in_properties p) as Hfails.
  { intros p Hr Hp Hinv. destruct (Hinv "__proto__") as [a Ha].
    - rewrite Hr. apply list_elem_of_here.
    - rewrite Hp in Ha. by rewrite lookup_empty in Ha. }
  split.
  - intros rev. eexists. split; [destruct rev; vm_compute; reflexivity|].
    split; [reflexivity|]. split; [reflexivity|]. by apply Hfails.
  - eexists. split; [vm_compute; reflexivity|].
    split; [reflexivity|]. split; [reflexivity|]. by apply Hfails.
Qed.

(** The operation built for that schema, which binds the variable. *)
Example convertSchema_proto_query :
  fmap (M := Outcome) (λ r, apiQuery <$> r.1)
       (convertSchema (mkConverter Rev1 protoSchema 3 []))
    = Ok ["query a($__proto__: Int!) {" +:+ LF +:+ "a {" +:+ LF
          +:+ "_(proto__: $__proto__)" +:+ LF +:+ "}" +:+ LF +:+ LF +:+ "}"].
Proof. vm_compute. reflexivity. Qed.

(** The field [next : Node] visited below [node] in the self-referential
    schema: three units of fuel are one more than the two levels that are
    left, and the guard cuts the field because [Node] is on the path. *)
Lemma visit_terminates_witness :
  visit 3 (mkConverter Rev1 selfSchema 3 [])
        (mkField "next" (scalar "Node") []) emptyParams
        (nested (rootContext "query.node") "next" "Node" 0)
    = Ok ({| success := false; queryParams := ""; queryBody := "" |},
          emptyParams).
Proof.
  refine (proj2 (proj1 (proj2 (proj2
    (visit_terminates (mkConverter Rev1 selfSchema 3 [])
       (mkField "next" (scalar "Node") []) emptyParams
       (nested (rootContext "query.node") "next" "Node" 0) 3 _))) _ _)).
  - vm_compute. lia.
  - vm_compute. eexists. reflexivity.
  - left. vm_compute. apply list_elem_of_here.
Defined.

(** C2, as stated, fails for a field whose return type is not an object
    type: with [maxDepth] 2, the field [x : Int] is visited below [a] and
    [b] with a path of two entries, so the path extended by one exceeds
    [maxDepth]; the field is rendered and [success] is true. *)
Lemma visit_leaf_beyond_depth :
  Z.of_nat (length (path xContext)) + 1
    > maxDepth (config (mkConverter Rev1 deepSchema 2 []))
  ∧ visit (visitFuel (mkConverter Rev1 deepSchema 2 []))
          (mkConverter Rev1 deepSchema 2 []) xField emptyParams xContext
    = Ok ({| success := true; queryParams := ""; queryBody := "x" +:+ LF |},
          emptyParams).
Proof. split; [vm_compute; reflexivity|vm_compute; reflexivity]. Qed.

(** The operation in which that activation occurs. *)
Example visit_depth_two :
  fragments (visit (visitFuel (mkConverter Rev1 deepSchema 2 []))
                   (mkConverter Rev1 deepSchema 2 []) aField emptyParams
                   (rootContext "query.a"))
    = Some ("", "a {" +:+ LF +:+ "b {" +:+ LF +:+ "x" +:+ LF +:+ "}" +:+ LF
                +:+ "}" +:+ LF).
Proof. vm_compute. reflexivity. Qed.

(** The whole self-referential operation converts, the cyclic branch being
    left out. *)
Example visit_self_referential :
  fragments (visit (visitFuel (mkConverter Rev1 selfSchema 3 []))
                   (mkConverter Rev1 selfSchema 3 []) nodeField emptyParams
                   (rootContext "query.node"))
    = Some ("", "node {" +:+ LF +:+ "id" +:+ LF +:+ "}" +:+ LF).
Proof. vm_compute. reflexivity. Qed.

(** C3.  The comma placement the specification promises fails on two
    inputs.  Sibling fields that each declare an argument, below a field
    without arguments: both revisions emit the two variable declarations
    without a comma between them.  An input-object argument that is not the
    first argument: revision [Rev1] emits no comma before the argument and
    a comma in front of the first field inside the braces; revision [Rev2]
    emits the commas as promised. *)
Theorem comma_placement_failures :
  (∀ rev,
     fragments (visit 4 (mkConverter rev siblingsSchema 3 []) parentField
                      emptyParams (rootContext "query.parent"))
       = Some ("$a_x: Int$b_y: Int",
               "parent {" +:+ LF +:+ "a(x: $a_x)" +:+ LF
               +:+ "b(y: $b_y)" +:+ LF +:+ "}" +:+ LF))
  ∧ "$a_x: Int$b_y: Int" ≠ commaSeparated ["$a_x: Int"; "$b_y: Int"]
  ∧ fragments (visit 4 (mkConverter Rev1 searchSchema 3 []) searchField
                     emptyParams (rootContext "query.search"))
      = Some ("$limit: Int, $x: Int, $y: Int",
              "search(limit: $limitfilter: { , x: $x, y: $y })" +:+ LF)
  ∧ fragments (visit 4 (mkConverter Rev2 searchSchema 3 []) searchField
                     emptyParams (rootContext "query.search"))
      = Some ("$limit: Int, $x: Int, $y: Int",
              "search(limit: $limit, filter: { x: $x, y: $y })" +:+ LF).
Proof.
  split; [|split; [|split]].
  - intros []; vm_compute; reflexivity.
  - vm_compute. discriminate.
  - vm_compute. reflexivity.
  - vm_compute. reflexivity.
Qed.



(** With a depth of one level only, [a : A] at the root has the single
    child [b : B], which the depth guard cuts. *)
Lemma visit_throws_without_fields_witness :
  visit 2 (mkConverter Rev1 deepSchema 1 []) aField emptyParams
        (rootContext "query.a")
    = Throw "Expected at least one field on path: query.a".
Proof.
  refine (proj1 (visit_throws_without_fields
    (mkConverter Rev1 deepSchema 1 []) 0 aField emptyParams
    (rootContext "query.a") [mkField "b" (scalar "B") []]
    {| st_queryParams := ""; st_queryBody := "a"; st_numArgs := 0;
       st_params := emptyParams |} _ _ _ _)).
  - vm_compute. reflexivity.
  - vm_compute. reflexivity.
  - vm_compute. reflexivity.
  - intros child Hchild. apply list_elem_of_singleton in Hchild.
    rewrite Hchild. vm_compute. reflexivity.
Defined.

(** The schema-level outcome of that scenario: the operation [a] is
    skipped with one line logged, [version] is converted. *)
Example convertSchema_skips_a :
  ∃ tool,
    convertSchema (mkConverter Rev1 deepSchema 1 [])
      = Ok ([tool],
            [("Error converting query: a",
              "Expected at least one field on path: query.a")])
    ∧ getName tool = "version".
Proof. eexists. split; [vm_compute; reflexivity|reflexivity]. Qed.

(** C5, as stated, fails for a field the operation filter rejects: the
    field is left out, and nothing is logged for it. *)
Lemma rejected_operation_is_not_logged :
  operationFilter (config filteredConverter) "query"
                  (field_name internalField) = false
  ∧ createApiFunctionFromGraphQLOperation filteredConverter "query"
                                          internalField
    = Ok (None, [])
  ∧ snd <$> convertSchema filteredConverter = Ok [].
Proof. repeat split; vm_compute; reflexivity. Qed.

(** A field whose conversion throws is left out and logged. *)
Lemma convertSchema_skips_failed_operations_witness :
  createApiFunctionFromGraphQLOperation (mkConverter Rev1 deepSchema 1 [])
                                        "query" aField
    = Ok (None, [("Error converting query: a",
                  "Expected at least one field on path: query.a")]).
Proof.
  refine (proj1 (proj2 (proj2 (convertSchema_skips_failed_operations
            (mkConverter Rev1 deepSchema 1 [])) "query" aField))
            "Expected at least one field on path: query.a" _ _).
  - vm_compute. reflexivity.
  - vm_compute. reflexivity.
Defined.

(** C7, as stated, fails: with an executor whose query is rejected, the
    promise [validateAndExecuteFromString] returns for well-formed, valid
    arguments is rejected too. *)
Lemma validateAndExecuteFromString_may_reject :
  ¬ (∀ (this : APIFunction) (argsJson : string) (context : Context),
       ∃ text, validateAndExecuteFromString this argsJson context = Ok text).
Proof.
  intros H. destruct (H unreachableTool "{}" DefaultContext) as [text Htext].
  vm_compute in Htext. discriminate.
Qed.

Example validateAndExecuteFromString_rejected :
  validateAndExecuteFromString unreachableTool "{}" DefaultContext
    = Throw "connection refused".
Proof. vm_compute. reflexivity. Qed.

(** The malformed argument text of the specification's scenario. *)
Lemma validateAndExecuteFromString_outcomes_witness :
  JSON_parse "{malformed" = Throw "Unexpected token m in JSON at position 1"
  ∧ validateAndExecuteFromString ordersTool "{malformed" DefaultContext
    = Ok (createInvalidCallMessage "orders"
            (Some ("Malformed JSON: "
                   +:+ "Unexpected token m in JSON at position 1"))).
Proof.
  assert (JSON_parse "{malformed"
          = Throw "Unexpected token m in JSON at position 1") as H
    by reflexivity.
  split; [exact H|].
  exact (proj1 (proj1 (validateAndExecuteFromString_outcomes
                         ordersTool "{malformed" DefaultContext) _ H)).
Defined.

(** Well-formed arguments that fail validation: without context keys the
    required [customerid] is asked of the caller. *)
Example validateAndExecuteFromString_invalid :
  validateAndExecuteFromString plainTool "{}" DefaultContext
    = Ok (createInvalidCallMessage "orders"
            (Some "missing required argument"))
  ∧ isValid (validate plainTool ∅) = false
  ∧ isValid (validate ordersTool ∅) = true.
Proof. repeat split; vm_compute; reflexivity. Qed.

(** C8.  A scalar whose name [Object.prototype] defines is not mapped to
    the string kind: indexing the scalar table by [constructor] finds the
    inherited function, which is truthy, so the default is not taken and the
    descriptor holds that function as its [type].  The tool built for a
    field with an argument of such a type carries the descriptor. *)
Theorem convertToArgument_inherited_scalar_name :
  typeMap (schema (mkConverter Rev1 constructorSchema 3 [])) !! "constructor"
    = Some GraphQLScalarType
  ∧ scalarTypeMap !! "constructor" = None
  ∧ convertToArgument (mkConverter Rev1 constructorSchema 3 [])
                      (GraphQLNamed "constructor")
    = Ok (mkArgument (PrototypeMember "constructor") None None None)
  ∧ mkArgument (PrototypeMember "constructor") None None None
    ≠ mkArgument (TypeString "string") None None None
  ∧ ∃ tool,
      convertSchema (mkConverter Rev1 constructorSchema 3 [])
        = Ok ([tool], [])
      ∧ properties (parameters (function tool)) !! "at"
        = Some (mkArgument (PrototypeMember "constructor") None None None).
Proof.
  split; [vm_compute; reflexivity|]. split; [vm_compute; reflexivity|].
  split; [vm_compute; reflexivity|]. split; [discriminate|].
  eexists. split; [vm_compute; reflexivity|]. vm_compute. reflexivity.
Qed.

(** The scalars of the table, and a scalar of any other name that no
    object inherits, are mapped as configured. *)
Example convertToArgument_configured :
  convertToArgument ordersConverter (GraphQLNamed "ID")
    = Ok (mkArgument (TypeString "string") None None None)
  ∧ scalarKind "Int" = TypeString "integer"
  ∧ scalarKind "DateTime" = TypeString "string".
Proof. repeat split; vm_compute; reflexivity. Qed.

(** A caller that omits the required [customerid] passes validation: the
    executor is shown the model-facing definition, which does not require
    it. *)
Lemma validation_uses_model_definition_witness :
  "customerid" ∈ required (parameters (function ordersTool))
  ∧ isValid (validate ordersTool ∅) = true.
Proof.
  split; [apply list_elem_of_here|].
  refine (proj2 (proj2 (proj2 (proj2
    (validation_uses_model_definition ordersTool ∅)))) _ _).
  - intros def a Hall.
    unfold ordersTool, echoExecutor. cbn [apiExecutor validate_arguments].
    assert (forallb (λ n, bool_decide (is_Some (a !! n)))
                    (required (parameters def)) = true) as ->; [|done].
    apply forallb_forall. intros n Hn. apply bool_decide_eq_true_2, Hall.
    by apply list_elem_of_In.
  - intros n Hn Hnot. exfalso. apply Hnot.
    apply list_elem_of_singleton in Hn. rewrite Hn.
    exists "CustomerId". split; [|reflexivity].
    apply elem_of_list_to_set, list_elem_of_here.
Defined.

Lemma executeTools_unknown_tool_and_order_witness :
  (∀ t, t ∈ [ordersTool] → getName t ≠ call_name unknownCall)
  ∧ executeTools (OneCall unknownCall) [ordersTool] = Ok (OneResult "").
Proof.
  assert (∀ t, t ∈ [ordersTool] → getName t ≠ call_name unknownCall) as H.
  { intros t Ht. apply list_elem_of_singleton in Ht. rewrite Ht.
    vm_compute. discriminate. }
  split; [exact H|].
  exact (proj1 (executeTools_unknown_tool_and_order [ordersTool])
           unknownCall H).
Defined.

Example executeTools_array :
  executeTools (ManyCalls [ordersCall; unknownCall; ordersCall]) [ordersTool]
    = Ok (ManyResults [apiQuery ordersTool; ""; apiQuery ordersTool]).
Proof. vm_compute. reflexivity. Qed.

(** The specification's scenario for context scoping. *)
Example orders_scenario :
  required (parameters (function ordersTool)) = ["customerid"]
  ∧ required (parameters (getModelFunction ordersTool)) = []
  ∧ fst <$> map_to_list (properties (parameters (getModelFunction ordersTool)))
    = ["limit"]
  ∧ execute ordersTool ∅ customerContext = Ok (apiQuery ordersTool)
  ∧ addOrOverrideFromContext ∅ (contextKeys ordersTool) customerContext
    = {[ "CustomerId" := "c-42" ]}.
Proof. repeat split; vm_compute; reflexivity. Qed.

(* ===================================================================== *)
(** * Further properties on concrete schemas, tools and documents *)
(* ===================================================================== *)

(** The visit of [orders] starts from the empty parameter schema and ends
    with the one of the tool. *)
Lemma visit_appends_only_witness :
  ∃ res,
    visit (visitFuel ordersConverter) ordersConverter ordersField
          emptyParams (rootContext "query.orders")
      = Ok (res, parameters (function ordersTool))
    ∧ parametersExtend emptyParams (parameters (function ordersTool)).
Proof.
  eexists. refine ((λ H, conj H (visit_appends_only _ _ _ _ _ _ _ H)) _).
  vm_compute. reflexivity.
Defined.

(** The field [next : Node] below [node] is cut, and reports no success. *)
Lemma visit_success_iff_not_cut_witness :
  ∃ res params',
    visit 3 (mkConverter Rev1 selfSchema 3 [])
          (mkField "next" (scalar "Node") []) emptyParams
          (nested (rootContext "query.node") "next" "Node" 0)
      = Ok (res, params')
    ∧ success res
      = negb (guardCuts (mkConverter Rev1 selfSchema 3 [])
                        (mkField "next" (scalar "Node") [])
                        (nested (rootContext "query.node") "next" "Node" 0)).
Proof.
  eexists _, _.
  refine ((λ H, conj H
             (proj1 (visit_success_iff_not_cut _ _ _ _ _ _ _ H))) _).
  vm_compute. reflexivity.
Defined.

(** The argument [proto__] of the field [_] below [a] has the flat name
    [__proto__]: it is required, and no key is added for it. *)
Lemma visitArguments_registers_witness :
  ∃ st,
    visitArguments (mkConverter Rev1 protoSchema 3 []) underscoreField
                   (nested (rootContext "query.a") "_" "A" 0) emptyParams
      = Ok st
    ∧ dom (properties (st_params st))
      = dom (properties emptyParams)
        ∪ ownKeys (parameterNames (mkConverter Rev1 protoSchema 3 [])
                     (nested (rootContext "query.a") "_" "A" 0)
                     underscoreField)
    ∧ required (st_params st)
      = required emptyParams
        ++ requiredNames (mkConverter Rev1 protoSchema 3 [])
                         (nested (rootContext "query.a") "_" "A" 0)
                         underscoreField.
Proof.
  eexists.
  refine ((λ H, conj H
     (conj (proj1 (visitArguments_registers _ _ _ _ _ H))
           (proj1 (proj2 (visitArguments_registers _ _ _ _ _ H))))) _).
  vm_compute. reflexivity.
Defined.

Example proto_names :
  ownKeys (parameterNames (mkConverter Rev1 protoSchema 3 [])
             (nested (rootContext "query.a") "_" "A" 0) underscoreField)
    = ∅
  ∧ requiredNames (mkConverter Rev1 protoSchema 3 [])
                  (nested (rootContext "query.a") "_" "A" 0) underscoreField
    = ["__proto__"].
Proof. split; vm_compute; reflexivity. Qed.

Lemma descriptors_are_well_formed_witness :
  wellFormedParameters (parameters (function ordersTool)).
Proof.
  apply (proj1 (descriptors_are_well_formed ordersConverter)
           [ordersTool] [] ordersTool convertSchema_orders).
  apply list_elem_of_here.
Defined.

Lemma convertSchema_tool_provenance_witness :
  ∃ kind field,
    name (function ordersTool) = field_name field
    ∧ operationFilter (config ordersConverter) kind (field_name field)
      = true
    ∧ textExtends (kind +:+ " " +:+ field_name field +:+ "(")
                  (apiQuery ordersTool).
Proof.
  destruct (convertSchema_tool_provenance ordersConverter [ordersTool] []
              ordersTool convertSchema_orders (list_elem_of_here _ _))
    as (kind & field & _ & Hfilter & Hname & _ & _ & Hquery & _).
  by exists kind, field.
Defined.

(** With a depth of one level, of the two root fields of the schema one is
    converted and one is logged. *)
Lemma convertSchema_accounts_for_every_field_witness :
  ∃ tools lines,
    convertSchema (mkConverter Rev1 deepSchema 1 []) = Ok (tools, lines)
    ∧ getName <$> tools
        `sublist_of`
        (field_name
           <$> rootFields (schema (mkConverter Rev1 deepSchema 1 []))
                 (queryTypeName (schema (mkConverter Rev1 deepSchema 1 []))))
        ++ (field_name
              <$> rootFields (schema (mkConverter Rev1 deepSchema 1 []))
                    (mutationTypeName
                       (schema (mkConverter Rev1 deepSchema 1 [])))).
Proof.
  eexists _, _.
  refine ((λ H, conj H
             (proj2 (convertSchema_accounts_for_every_field _ _ _ H))) _).
  vm_compute. reflexivity.
Defined.

(** With no level allowed, the operation built for [node : Node] selects
    nothing. *)
Lemma convertToApiFunction_cut_at_root_witness :
  convertToApiFunction (mkConverter Rev1 selfSchema 0 []) "query" nodeField
    = create (functionFactory (mkConverter Rev1 selfSchema 0 []))
        (initializeFunctionDefinition
           (field_name nodeField) (trim <$> field_description nodeField))
        (toLowerCase "query" +:+ " " +:+ field_name nodeField +:+ "("
         +:+ ") {" +:+ LF +:+ LF +:+ "}").
Proof.
  apply (convertToApiFunction_cut_at_root
           (mkConverter Rev1 selfSchema 0 []) "query" nodeField).
  - vm_compute. reflexivity.
  - vm_compute. eexists. reflexivity.
Defined.

(** A variable of type [[Int!]] is rejected. *)
Lemma convertType_rejects_inner_non_null_witness :
  convertType (ListTypeNode (NonNullTypeNode (NamedTypeNode "Int")))
    = Throw "Unexpected type: NonNullType".
Proof.
  apply (proj1 (convertType_rejects_inner_non_null
                  (ListTypeNode (NonNullTypeNode (NamedTypeNode "Int"))))).
  reflexivity.
Defined.

Lemma convertOperationDefinition_registers_witness :
  ∃ def,
    convertOperationDefinition Documents.cancelOperation Documents.document
                               (Some 74%nat) = Ok def
    ∧ name def
      = definitionName (OperationDefinition Documents.cancelOperation)
    ∧ dom (properties (parameters def))
      = ownKeys (variable_name
                   <$> variableDefinitions Documents.cancelOperation)
    ∧ required (parameters def) = ["id"].
Proof.
  eexists.
  refine ((λ H, conj H
     (conj (proj1 (proj2 (convertOperationDefinition_registers _ _ _ _ H)))
        (conj (proj1 (proj2 (proj2 (proj2
                 (convertOperationDefinition_registers _ _ _ _ H)))))
              (proj1 (proj2 (proj2 (proj2 (proj2
                 (convertOperationDefinition_registers _ _ _ _ H))))))))) _).
  vm_compute. reflexivity.
Defined.

(** The document of two operations gives two tools, in document order. *)
Lemma convertOperations_one_tool_per_operation_witness :
  ∃ tools definitions,
    convertOperations (host := Documents.host) Documents.converter
                      Documents.document = Ok tools
    ∧ parse (Host := Documents.host) Documents.document = Ok definitions
    ∧ Forall2 (λ definition f,
                 name (function f) = definitionName definition)
              definitions tools.
Proof.
  destruct (convertOperations (host := Documents.host) Documents.converter
                              Documents.document) as [tools|e|] eqn:H;
    [|vm_compute in H; discriminate..].
  destruct (convertOperations_one_tool_per_operation
              (host := Documents.host) _ _ _ H)
    as (definitions & Hparse & _ & Hall).
  exists tools, definitions. split; [reflexivity|]. split; [exact Hparse|].
  eapply Forall2_impl; [exact Hall|]. by intros ? ? (_ & ? & _).
Defined.

(** A document without definitions is refused. *)
Lemma convertOperations_failures_witness :
  convertOperations ordersConverter ""
    = Throw "Operation definition contains no definitions".
Proof.
  apply (proj1 (convertOperations_failures ordersConverter "" [] eq_refl)).
  reflexivity.
Defined.



(** Of two definitions named [orders], the later one is called. *)
Lemma executeTools_routes_to_last_definition_witness :
  executeTool ordersCall ([plainTool] ++ [ordersTool])
    = validateAndExecute ordersTool (call_arguments ordersCall)
                         DefaultContext.
Proof.
  apply (proj1 (proj2 (executeTools_routes_to_last_definition
                         [plainTool] ordersCall)) ordersTool).
  reflexivity.
Defined.

(** A prefix that is empty rejects every operation. *)
Lemma ignorePrefix_properties_witness :
  ignorePrefix ["internal"; ""] "query" "orders" = false.
Proof.
  apply (proj2 (proj2 (proj2
           (ignorePrefix_properties ["internal"; ""] "orders")))
           "query" "").
  - apply list_elem_of_further, list_elem_of_here.
  - reflexivity.
Defined.

(** The context of the field [x] below [a] and [b]. *)
Lemma descend_from_root_witness :
  path (descend (rootContext "query.a") [("b", "A", 0%nat); ("x", "B", 0%nat)])
    = ["A"; "B"]
  ∧ prefix (descend (rootContext "query.a")
                    [("b", "A", 0%nat); ("x", "B", 0%nat)])
    = "b_x".
Proof.
  refine ((λ H, conj (proj1 H) (proj2 (proj2 (proj2 H))))
            (descend_from_root "query.a"
               [("b", "A", 0%nat); ("x", "B", 0%nat)] _)).
  repeat constructor; simpl; discriminate.
Defined.

(** [orders] has arguments, the fields below it have none. *)
Lemma visit_with_arguments_at_the_root_only_witness :
  ∃ res params',
    visit (visitFuel ordersConverter) ordersConverter ordersField
          emptyParams (rootContext "query.orders") = Ok (res, params')
    ∧ queryParams res
      = commaSeparated
          (declarations ordersConverter (rootContext "query.orders")
                        ordersField).
Proof.
  eexists _, _.
  refine ((λ H, conj H
     (proj1 (proj2 (visit_with_arguments_at_the_root_only ordersConverter
        (λ n, n = "Order" ∨ n = "ID") _ ordersField emptyParams
        (rootContext "query.orders") _ _ _ _ _ H)) eq_refl)) _).
  - intros n fields child [-> | ->] Hobj Hin; vm_compute in Hobj;
      [|discriminate].
    apply (inj Some) in Hobj as <-.
    apply list_elem_of_singleton in Hin as ->.
    split; [reflexivity|right; reflexivity].
  - left. reflexivity.
  - vm_compute. reflexivity.
  - vm_compute. reflexivity.
Defined.

(** The argument list of [search], whose second argument is an input
    object, as the later revision writes it. *)
Lemma visitArguments_body_later_revision_witness :
  ∃ st,
    visitArguments (mkConverter Rev2 searchSchema 3 []) searchField
                   (rootContext "query.search") emptyParams = Ok st
    ∧ st_queryBody st = "search(limit: $limit, filter: { x: $x, y: $y })".
Proof.
  eexists.
  refine ((λ H, conj H
     (visitArguments_body_later_revision
        (mkConverter Rev2 searchSchema 3 []) searchField
        (rootContext "query.search") emptyParams _ eq_refl _ H)) _).
  - apply Forall_cons. split; [exact I|].
    apply Forall_cons. split; [|constructor].
    vm_compute. split; [discriminate|repeat constructor].
  - vm_compute. reflexivity.
Defined.

Lemma trimBoth_contains (s : string) : contains s (Documents.trimBoth s).
Proof.
  assert (∀ t, ∃ pre, t = pre +:+ Documents.trimStart t) as Hstart.
  { induction t as [|c t [pre IH]]; [by exists ""|].
    cbn [Documents.trimStart]. destruct (Documents.isSpace c).
    - exists (String c pre). by rewrite IH at 1.
    - by exists "". }
  assert (∀ t, ∃ post, t = Documents.trimEnd t +:+ post) as Hend.
  { induction t as [|c t [post IH]]; [by exists ""|].
    cbn [Documents.trimEnd]. destruct (Documents.trimEnd t) as [|c' rest].
    - destruct (Documents.isSpace c).
      + by exists (String c t).
      + exists post. by rewrite IH at 1.
    - exists post. by rewrite IH at 1. }
  unfold Documents.trimBoth. destruct (Hstart s) as [pre Hpre].
  destruct (Hend (Documents.trimStart s)) as [post Hpost].
  exists pre, post. by rewrite <- Hpost.
Qed.

(** The query of the document loses its comment. *)
Lemma extractOperation_strips_comments_witness :
  Source.indexOf "#"
    (Source.extractOperation Documents.trimBoth Documents.document
                             (Some (0%nat, 74%nat)))
  = None.
Proof.
  exact (proj1 (extractOperation_strips_comments (host := Documents.host)
                  Documents.document (Some (0%nat, 74%nat))
                  trimBoth_contains)).
Defined.

Lemma extractOperation_idempotent_witness :
  Source.extractOperation Documents.trimBoth
    (Source.extractOperation Documents.trimBoth Documents.document None)
    None
  = Source.extractOperation Documents.trimBoth Documents.document None.
Proof.
  exact (extractOperation_idempotent (host := Documents.host)
           Documents.document None trimBoth_contains).
Defined.

Lemma convertOperations_queries_without_comments_witness :
  ∃ tools,
    convertOperations (host := Documents.host) Documents.converter
                      Documents.document = Ok tools
    ∧ Forall (λ f, Source.indexOf "#" (apiQuery f) = None) tools.
Proof.
  eexists.
  refine ((λ H, conj H
     (convertOperations_queries_without_comments (host := Documents.host)
        Documents.converter Documents.document _ (λ _ _, eq_refl)
        trimBoth_contains H)) _).
  vm_compute. reflexivity.
Defined.
